(** * rpi-voice-assistant: activation arbiter, capture session and reminder
      scheduler

    A shallow embedding of the parts of the assistant in which timing and
    exactly-once delivery matter:

    - [services/reminders.py]: [RemindersManager.add_reminder],
      [check_reminders] and [parse_reminder_from_text];
    - [assistant.py]: [VoiceAssistant._handle_reminder] and
      [_reminder_checker];
    - [modules/stt.py]: [SpeechRecognizer.listen];
    - [modules/activation.py]: [ActivationManager.wait_for_activation].

    Python [str] values are sequences of Unicode code points, the SQLite
    table is the list of its rows in rowid order, exceptions are an explicit
    result type, and everything the code reads from its environment (the
    clock, the recognizer, GPIO callbacks, injected faults) is an argument. *)

From Stdlib Require Import List ZArith NArith Bool Lia String Ascii.
From Stdlib Require Import Sorted Permutation QArith Qround.
Import ListNotations.

Local Open Scope Z_scope.

(* ================================================================= *)
(** ** Results and exceptions *)

(** The exception classes that occur in the modelled code.  [SystemExit] and
    [KeyboardInterrupt] derive from [BaseException] only, so that
    [except Exception] does not catch them. *)
Inductive exn : Type :=
| ValueError
| OverflowError
| ZeroDivisionError
| SqliteError
| RuntimeError
| SystemExit
| KeyboardInterrupt.

Definition is_Exception (e : exn) : bool :=
  match e with
  | SystemExit | KeyboardInterrupt => false
  | _ => true
  end.

Inductive result (A : Type) : Type :=
| Returned (a : A)
| Raised (e : exn).
Arguments Returned {A} a.
Arguments Raised {A} e.

Definition bind {A B : Type} (r : result A) (k : A -> result B) : result B :=
  match r with
  | Returned a => k a
  | Raised e => Raised e
  end.

Notation "x <- r ;; k" := (bind r (fun x => k))
  (at level 61, r at next level, right associativity).

(* ================================================================= *)
(** ** Text *)

(** A Python [str]: the list of its code points. *)
Definition str : Type := list N.

(** Source literals are UTF-8; [utf8] decodes one the way the Python
    compiler does (sequences of one to four bytes). *)
Fixpoint utf8 (s : string) : str :=
  match s with
  | EmptyString => []
  | String a r =>
    let b := N_of_ascii a in
    if (b <? 0x80)%N then b :: utf8 r
    else if (b <? 0xE0)%N then
      match r with
      | String a1 r1 =>
        ((b mod 0x20) * 0x40 + N_of_ascii a1 mod 0x40)%N :: utf8 r1
      | EmptyString => []
      end
    else if (b <? 0xF0)%N then
      match r with
      | String a1 (String a2 r2) =>
        ((b mod 0x10) * 0x1000 + (N_of_ascii a1 mod 0x40) * 0x40
         + N_of_ascii a2 mod 0x40)%N :: utf8 r2
      | _ => []
      end
    else
      match r with
      | String a1 (String a2 (String a3 r3)) =>
        ((b mod 0x08) * 0x40000 + (N_of_ascii a1 mod 0x40) * 0x1000
         + (N_of_ascii a2 mod 0x40) * 0x40 + N_of_ascii a3 mod 0x40)%N
        :: utf8 r3
      | _ => []
      end
  end.

(** Truthiness of a [str]: non-empty. *)
Definition truthy_str (s : str) : bool :=
  match s with [] => false | _ :: _ => true end.

(** Comparison of TEXT values in SQLite (BINARY collation): lexicographic
    on the encoded bytes, which for UTF-8 is lexicographic on code points. *)
Fixpoint str_leb (a b : str) : bool :=
  match a, b with
  | [], _ => true
  | _ :: _, [] => false
  | x :: a', y :: b' =>
    if (x <? y)%N then true
    else if (x =? y)%N then str_leb a' b'
    else false
  end.

Fixpoint strip_prefix (p s : str) : option str :=
  match p, s with
  | [], _ => Some s
  | _ :: _, [] => None
  | x :: p', y :: s' => if (x =? y)%N then strip_prefix p' s' else None
  end.

(** What the interpreter supplies to [re], [str] and [int]: from its
    Unicode database the white-space test behind [\s] and [str.strip], the
    decimal digit value behind [\d] and [int], and [str.lower]; and the
    limit [sys.get_int_max_str_digits()] on the length of a string [int]
    converts (0: no limit). *)
Class Interpreter : Type := {
  isspace : N -> bool;
  decimal : N -> option N;
  lower : str -> str;
  int_max_str_digits : nat
}.

(** An interpreter with the default limit, its database restricted to
    Basic Latin and the Russian alphabet: the white-space code points, the
    ASCII digits, and the lower-case mapping of A-Z and of the Cyrillic
    capitals U+0400..U+042F. *)
Definition latin_cyrillic_isspace (c : N) : bool :=
  ((0x09 <=? c) && (c <=? 0x0D) || (0x1C <=? c) && (c <=? 0x20)
   || (c =? 0x85) || (c =? 0xA0) || (c =? 0x1680)
   || (0x2000 <=? c) && (c <=? 0x200A) || (c =? 0x2028) || (c =? 0x2029)
   || (c =? 0x202F) || (c =? 0x205F) || (c =? 0x3000))%N.

Definition latin_cyrillic_decimal (c : N) : option N :=
  if ((0x30 <=? c) && (c <=? 0x39))%N then Some (c - 0x30)%N else None.

Definition latin_cyrillic_lower_cp (c : N) : N :=
  if ((0x41 <=? c) && (c <=? 0x5A))%N then (c + 0x20)%N
  else if ((0x410 <=? c) && (c <=? 0x42F))%N then (c + 0x20)%N
  else if ((0x400 <=? c) && (c <=? 0x40F))%N then (c + 0x50)%N
  else c.

Definition latin_cyrillic : Interpreter := {|
  isspace := latin_cyrillic_isspace;
  decimal := latin_cyrillic_decimal;
  lower := map latin_cyrillic_lower_cp;
  int_max_str_digits := 4300
|}.

Section Text.
Context {U : Interpreter}.

Definition isdigit (c : N) : bool :=
  match decimal c with Some _ => true | None => false end.

Fixpoint lstrip (s : str) : str :=
  match s with
  | c :: s' => if isspace c then lstrip s' else s
  | [] => []
  end.

(** [str.strip()] *)
Definition strip (s : str) : str := rev (lstrip (rev (lstrip s))).

(** [int(s)] on a string of decimal digits; anything else, and a string
    longer than the limit, is a [ValueError]. *)
Fixpoint int_digits (acc : Z) (s : str) : result Z :=
  match s with
  | [] => Returned acc
  | c :: s' =>
    match decimal c with
    | Some d => int_digits (10 * acc + Z.of_N d) s'
    | None => Raised ValueError
    end
  end.

Definition py_int (s : str) : result Z :=
  match s with
  | [] => Raised ValueError
  | _ =>
    if ((0 <? int_max_str_digits) && (int_max_str_digits <? List.length s))%nat
    then Raised ValueError
    else int_digits 0 s
  end.

(* --------------------------------------------------------------- *)
(** *** The fragment of [re] used by the time patterns *)

Inductive cls : Type := ClsSpace | ClsDigit.

Definition in_cls (c : cls) (x : N) : bool :=
  match c with ClsSpace => isspace x | ClsDigit => isdigit x end.

(** A pattern is a sequence of literals, [\s+] and [(\d+)]. *)
Inductive item : Type :=
| Lit (l : str)
| Plus (capture : bool) (c : cls).

Definition regex : Type := list item.

(** [X+] followed by the continuation [k]: greedy, giving characters back
    one at a time when the continuation fails. *)
Fixpoint greedy_plus {R : Type} (p : N -> bool) (k : str -> str -> option R)
         (taken s : str) : option R :=
  match s with
  | c :: s' =>
    if p c then
      match greedy_plus p k (taken ++ [c]) s' with
      | Some r => Some r
      | None => k (taken ++ [c]) s'
      end
    else None
  | [] => None
  end.

(** Match at the start of [s]: the captured groups and the rest. *)
Fixpoint match_here (re : regex) (s : str) : option (list str * str) :=
  match re with
  | [] => Some ([], s)
  | Lit l :: re' =>
    match strip_prefix l s with
    | Some s' => match_here re' s'
    | None => None
    end
  | Plus capture c :: re' =>
    greedy_plus (in_cls c)
      (fun taken rest =>
         match match_here re' rest with
         | Some (gs, post) =>
           Some (if capture then taken :: gs else gs, post)
         | None => None
         end) [] s
  end.

(** A match object: the text before the match, the groups, the text
    after it. *)
Record re_match : Type := {
  m_pre : str;
  m_groups : list str;
  m_post : str
}.

Fixpoint search_from (re : regex) (pre_rev s : str) : option re_match :=
  match match_here re s with
  | Some (gs, post) =>
    Some {| m_pre := rev pre_rev; m_groups := gs; m_post := post |}
  | None =>
    match s with
    | [] => None
    | c :: s' => search_from re (c :: pre_rev) s'
    end
  end.

(** [re.search(pattern, s)]: the leftmost match. *)
Definition re_search (re : regex) (s : str) : option re_match :=
  search_from re [] s.

(** [match.group(i)], [i >= 1]. *)
Definition group (m : re_match) (i : nat) : str :=
  nth (pred i) (m_groups m) [].

(** [re.sub(pattern, '', s, count=1)] *)
Definition re_sub_first (re : regex) (s : str) : str :=
  match re_search re s with
  | Some m => m_pre m ++ m_post m
  | None => s
  end.

End Text.

(* ================================================================= *)
(** ** [datetime] and [timedelta] *)

(** The part of the standard library's [datetime] module the parser uses:
    the calendar helpers ([_is_leap], [_days_before_year], [_ymd2ord],
    [_ord2ymd], ...) are written as the module has them. *)

(** A naive [datetime.datetime]. *)
Record datetime : Type := {
  year : Z;
  month : Z;
  day : Z;
  hour : Z;
  minute : Z;
  second : Z;
  microsecond : Z
}.

(** [date(9999, 12, 31).toordinal()] *)
Definition MAXORDINAL : Z := 3652059.

Definition is_leap (y : Z) : bool :=
  (y mod 4 =? 0) && (negb (y mod 100 =? 0) || (y mod 400 =? 0)).

Definition DAYS_IN_MONTH : list Z :=
  [-1; 31; 28; 31; 30; 31; 30; 31; 31; 30; 31; 30; 31].

Definition DAYS_BEFORE_MONTH : list Z :=
  [-1; 0; 31; 59; 90; 120; 151; 181; 212; 243; 273; 304; 334].

Definition b2z (b : bool) : Z := if b then 1 else 0.

Definition days_before_year (y : Z) : Z :=
  let y := y - 1 in y * 365 + y / 4 - y / 100 + y / 400.

Definition days_in_month (y m : Z) : Z :=
  if (m =? 2) && is_leap y then 29 else nth (Z.to_nat m) DAYS_IN_MONTH 0.

Definition days_before_month (y m : Z) : Z :=
  nth (Z.to_nat m) DAYS_BEFORE_MONTH 0 + b2z ((2 <? m) && is_leap y).

Definition ymd2ord (y m d : Z) : Z :=
  days_before_year y + days_before_month y m + d.

Definition DI400Y : Z := 146097.
Definition DI100Y : Z := 36524.
Definition DI4Y : Z := 1461.

(** [_ord2ymd] of the standard library. *)
Definition ord2ymd (n : Z) : Z * Z * Z :=
  let n := n - 1 in
  let n400 := n / DI400Y in
  let n := n mod DI400Y in
  let y := n400 * 400 + 1 in
  let n100 := n / DI100Y in
  let n := n mod DI100Y in
  let n4 := n / DI4Y in
  let n := n mod DI4Y in
  let n1 := n / 365 in
  let n := n mod 365 in
  let y := y + n100 * 100 + n4 * 4 + n1 in
  if (n1 =? 4) || (n100 =? 4) then (y - 1, 12, 31)
  else
    let leapyear := (n1 =? 3) && (negb (n4 =? 24) || (n100 =? 3)) in
    let m := (n + 50) / 32 in
    let preceding :=
      nth (Z.to_nat m) DAYS_BEFORE_MONTH 0 + b2z ((2 <? m) && leapyear) in
    if n <? preceding then
      let m := m - 1 in
      let preceding :=
        preceding
        - (nth (Z.to_nat m) DAYS_IN_MONTH 0 + b2z ((m =? 2) && leapyear)) in
      (y, m, n - preceding + 1)
    else (y, m, n - preceding + 1).

Definition toordinal (d : datetime) : Z := ymd2ord (year d) (month d) (day d).

(** The field ranges the [datetime] constructor enforces. *)
Definition valid_datetime (d : datetime) : bool :=
  (1 <=? year d) && (year d <=? 9999)
  && (1 <=? month d) && (month d <=? 12)
  && (1 <=? day d) && (day d <=? days_in_month (year d) (month d))
  && (0 <=? hour d) && (hour d <=? 23)
  && (0 <=? minute d) && (minute d <=? 59)
  && (0 <=? second d) && (second d <=? 59)
  && (0 <=? microsecond d) && (microsecond d <=? 999999).

Record timedelta : Type := {
  td_days : Z;
  td_seconds : Z;
  td_microseconds : Z
}.

(** [timedelta(days=d, hours=h, minutes=m)] with integer arguments: more
    than 999999999 days are an [OverflowError]. *)
Definition mk_timedelta (d h m : Z) : result timedelta :=
  let s := h * 3600 + m * 60 in
  let d := d + s / 86400 in
  if 999999999 <? Z.abs d then Raised OverflowError
  else Returned {| td_days := d; td_seconds := s mod 86400;
                   td_microseconds := 0 |}.

(** [datetime.__add__]: the date goes through its ordinal, the time of
    day through its seconds; a result outside the years 1..9999 is an
    [OverflowError]. *)
Definition dt_add (t : datetime) (delta : timedelta) : result datetime :=
  let us := microsecond t + td_microseconds delta in
  let s := hour t * 3600 + minute t * 60 + second t + td_seconds delta
           + us / 1000000 in
  let days := toordinal t + td_days delta + s / 86400 in
  let s := s mod 86400 in
  if (0 <? days) && (days <=? MAXORDINAL) then
    let '(y, m, d) := ord2ymd days in
    Returned {| year := y; month := m; day := d;
                hour := s / 3600; minute := (s mod 3600) / 60;
                second := (s mod 3600) mod 60;
                microsecond := us mod 1000000 |}
  else Raised OverflowError.

(** [now.replace(hour=h, minute=m, second=0, microsecond=0)]: an hour
    outside 0..23 or a minute outside 0..59 is a [ValueError]. *)
Definition replace_hm (t : datetime) (h m : Z) : result datetime :=
  if negb ((0 <=? h) && (h <=? 23)) then Raised ValueError
  else if negb ((0 <=? m) && (m <=? 59)) then Raised ValueError
  else Returned {| year := year t; month := month t; day := day t;
                   hour := h; minute := m; second := 0; microsecond := 0 |}.

Fixpoint lex_ltb (a b : list Z) : bool :=
  match a, b with
  | x :: a', y :: b' => (x <? y) || ((x =? y) && lex_ltb a' b')
  | _, _ => false
  end.

Definition dt_fields (t : datetime) : list Z :=
  [year t; month t; day t; hour t; minute t; second t; microsecond t].

(** [a < b] on two naive datetimes. *)
Definition dt_ltb (a b : datetime) : bool := lex_ltb (dt_fields a) (dt_fields b).

(** ["%0*d" % (width, n)] for [0 <= n < 10 ** width]. *)
Fixpoint zero_pad (width : nat) (n : Z) : str :=
  match width with
  | O => []
  | S w => zero_pad w (n / 10) ++ [Z.to_N (0x30 + n mod 10)]
  end.

(** [datetime.isoformat()]: the fraction is printed only when it is not
    zero. *)
Definition isoformat (t : datetime) : str :=
  zero_pad 4 (year t) ++ utf8 "-" ++ zero_pad 2 (month t) ++ utf8 "-"
  ++ zero_pad 2 (day t) ++ utf8 "T" ++ zero_pad 2 (hour t) ++ utf8 ":"
  ++ zero_pad 2 (minute t) ++ utf8 ":" ++ zero_pad 2 (second t)
  ++ (if microsecond t =? 0 then []
      else utf8 "." ++ zero_pad 6 (microsecond t)).

(* ================================================================= *)
(** ** Observable effects *)

(** The messages the assistant builds; the wording is in the source, the
    constructors keep the parts that vary. *)
Inductive message : Type :=
| MsgCreated (t : datetime) (text : str)
| MsgDisabled
| MsgAddFailed
| MsgTimeNotUnderstood
| MsgReminder (text : str).

Inductive logger : Type := LogReminders | LogAssistant.

Inductive led_state : Type :=
| LedOff | LedOn | LedWaiting | LedListening | LedProcessing.

Inductive event : Type :=
| EvLogInfo (m : message)
| EvLogError (l : logger) (e : exn)
| EvSpeak (m : message)
| EvSleep (seconds : Q)
| EvLed (s : led_state)
| EvStartWakeWordThread.

(* ================================================================= *)
(** ** [services/reminders.py]: the store *)

(** A row of the [reminders] table. *)
Record row : Type := {
  row_id : Z;
  row_text : str;
  row_datetime : str;
  row_created_at : str;
  row_notified : Z
}.

(** The dictionaries [check_reminders] returns. *)
Record reminder : Type := {
  r_id : Z;
  r_text : str;
  r_datetime : str
}.

(** The manager: [enabled] and the table as the connection sees it, rows in
    rowid order. *)
Record RemindersManager : Type := {
  enabled : bool;
  table : list row
}.

(** A failure of the database layer: of the [k]-th [execute] of a call
    (counted from 0) or of [commit]. *)
Inductive db_fault : Type :=
| FailExecute (k : nat)
| FailCommit.

Definition with_table (m : RemindersManager) (t : list row) : RemindersManager :=
  {| enabled := enabled m; table := t |}.

Definition next_rowid (t : list row) : Z :=
  1 + fold_right (fun r acc => Z.max (row_id r) acc) 0 t.

(** [ORDER BY datetime]: a stable insertion sort on the TEXT column. *)
Fixpoint insert_by_datetime (r : row) (l : list row) : list row :=
  match l with
  | [] => [r]
  | x :: xs =>
    if str_leb (row_datetime r) (row_datetime x) then r :: l
    else x :: insert_by_datetime r xs
  end.

Definition order_by_datetime (l : list row) : list row :=
  fold_right insert_by_datetime [] l.

Definition is_due (now : str) (r : row) : bool :=
  str_leb (row_datetime r) now && (row_notified r =? 0).

(** [SELECT id, text, datetime FROM reminders
     WHERE datetime <= ? AND notified = 0 ORDER BY datetime] *)
Definition select_due (now : str) (t : list row) : list row :=
  order_by_datetime (filter (is_due now) t).

Definition set_notified (r : row) : row :=
  {| row_id := row_id r; row_text := row_text r;
     row_datetime := row_datetime r; row_created_at := row_created_at r;
     row_notified := 1 |}.

(** [UPDATE reminders SET notified = 1 WHERE id = ?] *)
Definition update_notified (rid : Z) (t : list row) : list row :=
  map (fun r => if row_id r =? rid then set_notified r else r) t.

Definition reminder_of_row (r : row) : reminder :=
  {| r_id := row_id r; r_text := row_text r; r_datetime := row_datetime r |}.

(** [add_reminder]: [clock] is the reading of [datetime.now()]. *)
Definition add_reminder (fault : option db_fault) (clock : datetime)
           (text : str) (remind_datetime : datetime) (m : RemindersManager)
  : (bool * message) * RemindersManager * list event :=
  if negb (enabled m) then ((false, MsgDisabled), m, [])
  else
    let created_at := isoformat clock in
    let datetime_str := isoformat remind_datetime in
    match fault with
    | Some (FailExecute O) =>
      ((false, MsgAddFailed), m, [EvLogError LogReminders SqliteError])
    | _ =>
      let t := table m ++ [{| row_id := next_rowid (table m);
                              row_text := text;
                              row_datetime := datetime_str;
                              row_created_at := created_at;
                              row_notified := 0 |}] in
      match fault with
      | Some FailCommit =>
        ((false, MsgAddFailed), with_table m t,
         [EvLogError LogReminders SqliteError])
      | _ =>
        let message := MsgCreated remind_datetime text in
        ((true, message), with_table m t, [EvLogInfo message])
      end
    end.

(** The [for row in self.cursor.fetchall()] loop of [check_reminders];
    [fault] counts the [UPDATE]s left before one fails. *)
Fixpoint mark_rows (fault : option nat) (rows : list row)
         (reminders : list reminder) (t : list row)
  : result (list reminder) * list row :=
  match rows with
  | [] => (Returned reminders, t)
  | r :: rest =>
    let reminders := reminders ++ [reminder_of_row r] in
    match fault with
    | Some O => (Raised SqliteError, t)
    | _ =>
      mark_rows (option_map Nat.pred fault) rest reminders
                (update_notified (row_id r) t)
    end
  end.

(** The [try] block of [check_reminders]. *)
Definition check_reminders_try (fault : option db_fault) (now : datetime)
           (t : list row) : result (list reminder) * list row :=
  let now := isoformat now in
  match fault with
  | Some (FailExecute O) => (Raised SqliteError, t)
  | _ =>
    let rows := select_due now t in
    let update_fault :=
      match fault with Some (FailExecute (S k)) => Some k | _ => None end in
    match mark_rows update_fault rows [] t with
    | (Returned reminders, t') =>
      match fault with
      | Some FailCommit => (Raised SqliteError, t')
      | _ => (Returned reminders, t')
      end
    | (Raised e, t') => (Raised e, t')
    end
  end.

(** [check_reminders]: [now] is the reading of [datetime.now()]. *)
Definition check_reminders (fault : option db_fault) (now : datetime)
           (m : RemindersManager)
  : result (list reminder) * RemindersManager * list event :=
  if negb (enabled m) then (Returned [], m, [])
  else
    match check_reminders_try fault now (table m) with
    | (Returned reminders, t) => (Returned reminders, with_table m t, [])
    | (Raised e, t) =>
      if is_Exception e then
        (Returned [], with_table m t, [EvLogError LogReminders e])
      else (Raised e, with_table m t, [])
    end.

(* ================================================================= *)
(** ** [services/reminders.py]: [parse_reminder_from_text] *)

Inductive pattern_name : Type :=
| cherez_minut     (* 'через_минут' *)
| cherez_chasov    (* 'через_часов' *)
| v_vremya         (* 'в_время' *)
| zavtra_v.        (* 'завтра_в' *)

Section Parse.
Context {U : Interpreter}.

Definition ws : item := Plus false ClsSpace.
Definition digits : item := Plus true ClsDigit.

(** [r'через\s+(\d+)\s+минут'] *)
Definition re_cherez_minut : regex :=
  [Lit (utf8 "через"); ws; digits; ws; Lit (utf8 "минут")].
(** [r'через\s+(\d+)\s+час'] *)
Definition re_cherez_chasov : regex :=
  [Lit (utf8 "через"); ws; digits; ws; Lit (utf8 "час")].
(** [r'в\s+(\d+):(\d+)'] *)
Definition re_v_vremya : regex :=
  [Lit (utf8 "в"); ws; digits; Lit (utf8 ":"); digits].
(** [r'завтра\s+в\s+(\d+):(\d+)'] *)
Definition re_zavtra_v : regex :=
  [Lit (utf8 "завтра"); ws; Lit (utf8 "в"); ws; digits; Lit (utf8 ":");
   digits].

(** The [patterns] dictionary, in insertion order. *)
Definition patterns : list (pattern_name * regex) :=
  [(cherez_minut, re_cherez_minut);
   (cherez_chasov, re_cherez_chasov);
   (v_vremya, re_v_vremya);
   (zavtra_v, re_zavtra_v)].

(** The body of [if match:] for one pattern. *)
Definition resolve (pattern_name : pattern_name) (pattern : regex)
           (m : re_match) (text_lower : str) (now : datetime)
  : result (option datetime * str) :=
  match pattern_name with
  | cherez_minut =>
    minutes <- py_int (group m 1) ;;
    delta <- mk_timedelta 0 0 minutes ;;
    remind_time <- dt_add now delta ;;
    let reminder_text := strip (re_sub_first pattern text_lower) in
    Returned (Some remind_time, reminder_text)
  | cherez_chasov =>
    hours <- py_int (group m 1) ;;
    delta <- mk_timedelta 0 hours 0 ;;
    remind_time <- dt_add now delta ;;
    let reminder_text := strip (re_sub_first pattern text_lower) in
    Returned (Some remind_time, reminder_text)
  | v_vremya =>
    hour <- py_int (group m 1) ;;
    minute <- py_int (group m 2) ;;
    remind_time <- replace_hm now hour minute ;;
    remind_time <-
      (if dt_ltb remind_time now then
         delta <- mk_timedelta 1 0 0 ;; dt_add remind_time delta
       else Returned remind_time) ;;
    let reminder_text := strip (re_sub_first pattern text_lower) in
    Returned (Some remind_time, reminder_text)
  | zavtra_v =>
    hour <- py_int (group m 1) ;;
    minute <- py_int (group m 2) ;;
    remind_time <- replace_hm now hour minute ;;
    delta <- mk_timedelta 1 0 0 ;;
    remind_time <- dt_add remind_time delta ;;
    let reminder_text := strip (re_sub_first pattern text_lower) in
    Returned (Some remind_time, reminder_text)
  end.

(** The [for pattern_name, pattern in patterns.items()] loop. *)
Fixpoint parse_loop (ps : list (pattern_name * regex)) (text text_lower : str)
         (now : datetime) : result (option datetime * str) :=
  match ps with
  | [] => Returned (None, text)
  | (pattern_name, pattern) :: rest =>
    match re_search pattern text_lower with
    | Some m => resolve pattern_name pattern m text_lower now
    | None => parse_loop rest text text_lower now
    end
  end.

(** [parse_reminder_from_text]: [now] is the reading of [datetime.now()]
    taken when a pattern matches. *)
Definition parse_reminder_from_text (now : datetime) (text : str)
  : result (option datetime * str) :=
  let text_lower := lower text in
  parse_loop patterns text text_lower now.

(* --------------------------------------------------------------- *)
(** ** [assistant.py]: [_handle_reminder] *)

(** [now] is read by the parser, [clock] by [add_reminder]. *)
Definition handle_reminder (fault : option db_fault) (now clock : datetime)
           (text : str) (m : RemindersManager)
  : result (RemindersManager * list event) :=
  p <- parse_reminder_from_text now text ;;
  let '(remind_time, reminder_text) := p in
  match remind_time with
  | Some t =>
    if truthy_str reminder_text then
      let '((_, message), m', ev) := add_reminder fault clock reminder_text t m in
      Returned (m', ev ++ [EvSpeak message])
    else Returned (m, [EvSpeak MsgTimeNotUnderstood])
  | None => Returned (m, [EvSpeak MsgTimeNotUnderstood])
  end.

End Parse.

(* ================================================================= *)
(** ** [assistant.py]: [_reminder_checker] *)

(** What the environment does during one iteration of the loop: the clock
    reading of the poll, a database failure, and a failure of [tts.speak]
    at the [k]-th due reminder. *)
Record cycle : Type := {
  cy_now : datetime;
  cy_db_fault : option db_fault;
  cy_speak_fault : option (nat * exn)
}.

(** [for reminder in due_reminders: ...] *)
Fixpoint speak_all (fault : option (nat * exn)) (due : list reminder)
  : result unit * list event :=
  match due with
  | [] => (Returned tt, [])
  | r :: rest =>
    let message := MsgReminder (r_text r) in
    match fault with
    | Some (O, e) => (Raised e, [EvLogInfo message])
    | _ =>
      let '(res, ev) :=
        speak_all (option_map (fun ke => (Nat.pred (fst ke), snd ke)) fault)
                  rest in
      (res, EvLogInfo message :: EvSpeak message :: ev)
    end
  end.

(** The [try] block of one iteration. *)
Definition checker_try (check_interval : Q) (c : cycle) (m : RemindersManager)
  : result unit * RemindersManager * list event :=
  match check_reminders (cy_db_fault c) (cy_now c) m with
  | (Returned due_reminders, m', ev) =>
    match speak_all (cy_speak_fault c) due_reminders with
    | (Returned _, ev') =>
      (Returned tt, m', ev ++ ev' ++ [EvSleep check_interval])
    | (Raised e, ev') => (Raised e, m', ev ++ ev')
    end
  | (Raised e, m', ev) => (Raised e, m', ev)
  end.

(** One iteration: the [try] block under [except Exception]. *)
Definition checker_iteration (check_interval : Q) (c : cycle)
           (m : RemindersManager)
  : result unit * RemindersManager * list event :=
  match checker_try check_interval c m with
  | (Returned _, m', ev) => (Returned tt, m', ev)
  | (Raised e, m', ev) =>
    if is_Exception e then
      (Returned tt, m',
       ev ++ [EvLogError LogAssistant e; EvSleep check_interval])
    else (Raised e, m', ev)
  end.

(** [while self.running]: one element of [cycles] for every time the flag
    is read as true; the list ends when it is read as false.  An exception
    that leaves an iteration ends the thread. *)
Fixpoint reminder_checker (check_interval : Q) (cycles : list cycle)
         (m : RemindersManager)
  : result unit * RemindersManager * list event :=
  match cycles with
  | [] => (Returned tt, m, [])
  | c :: rest =>
    match checker_iteration check_interval c m with
    | (Returned _, m', ev) =>
      let '(res, m'', ev') := reminder_checker check_interval rest m' in
      (res, m'', ev ++ ev')
    | (Raised e, m', ev) => (Raised e, m', ev)
    end
  end.

(* ================================================================= *)
(** ** [modules/stt.py]: [SpeechRecognizer.listen] *)

(** A call that consumes a finite script of inputs either completes or is
    still blocked when the script ends. *)
Inductive outcome (A : Type) : Type :=
| Done (a : A)
| Blocked.
Arguments Done {A} a.
Arguments Blocked {A}.

(** What the recognizer says about one chunk taken from the audio queue:
    [AcceptWaveform] true with the [text] of [Result()], false with the
    [partial] of [PartialResult()], or an exception. *)
Inductive frame : Type :=
| FrameFinal (text : str)
| FramePartial (partial : str)
| FrameError (e : exn).

Record stt_config : Type := {
  sample_rate : Z;
  chunk_size : Z;
  silence_timeout : Q
}.

(** [int(q)]: truncation towards zero. *)
Definition Qtrunc (q : Q) : Z :=
  if Qle_bool 0 q then Qfloor q else Qceiling q.

(** [int(seconds * sample_rate / chunk_size)] *)
Definition chunks_of (c : stt_config) (seconds : Q) : result Z :=
  if chunk_size c =? 0 then Raised ZeroDivisionError
  else Returned (Qtrunc (seconds * inject_Z (sample_rate c)
                         / inject_Z (chunk_size c))).

Definition truthy_Q (q : Q) : bool := negb (Qeq_bool q 0).
Definition truthy_Z (z : Z) : bool := negb (z =? 0).

(** The code after the loop: [FinalResult()] read after [recorded] chunks. *)
Definition final_text (final_result : Z -> result str) (recorded : Z)
  : result (option str) :=
  text <- final_result recorded ;;
  Returned (if truthy_str text then Some text else None).

(** [while True:] over the chunks that arrive on the queue. *)
Fixpoint listen_loop (max_silence_chunks : Z) (max_chunks : option Z)
         (final_result : Z -> result str) (frames : list frame)
         (silence_chunks recorded_chunks : Z)
  : outcome (result (option str)) :=
  match frames with
  | [] => Blocked
  | f :: rest =>
    let recorded_chunks := recorded_chunks + 1 in
    let checks (silence_chunks : Z) :=
      if max_silence_chunks <=? silence_chunks then
        Done (final_text final_result recorded_chunks)
      else if match max_chunks with
              | Some mc => truthy_Z mc && (mc <=? recorded_chunks)
              | None => false
              end then
        Done (final_text final_result recorded_chunks)
      else
        listen_loop max_silence_chunks max_chunks final_result rest
                    silence_chunks recorded_chunks in
    match f with
    | FrameError e => Done (Raised e)
    | FrameFinal text =>
      if truthy_str text then Done (Returned (Some text))
      else checks (silence_chunks + 1)
    | FramePartial partial =>
      if truthy_str partial then checks 0
      else checks (silence_chunks + 1)
    end
  end.

(** [max_chunks = None; if timeout: max_chunks = int(...)] *)
Definition max_chunks_of (c : stt_config) (timeout : option Q)
  : result (option Z) :=
  match timeout with
  | Some t =>
    if truthy_Q t then n <- chunks_of c t ;; Returned (Some n)
    else Returned None
  | None => Returned None
  end.

(** The [try] block: [stream] is what opening [sd.RawInputStream] does,
    [frames] what the recognizer says about the chunks that arrive. *)
Definition listen_try (c : stt_config) (timeout : option Q)
           (stream : result unit) (final_result : Z -> result str)
           (frames : list frame)
  : outcome (result (option str)) :=
  match stream with
  | Raised e => Done (Raised e)
  | Returned _ =>
    match chunks_of c (silence_timeout c) with
    | Raised e => Done (Raised e)
    | Returned max_silence_chunks =>
      match max_chunks_of c timeout with
      | Raised e => Done (Raised e)
      | Returned max_chunks =>
        listen_loop max_silence_chunks max_chunks final_result frames 0 0
      end
    end
  end.

(** [listen]: [except Exception] turns a failure into [None].  (The
    [finally] clause empties the queue; it does not change the result.) *)
Definition listen (c : stt_config) (timeout : option Q)
           (stream : result unit) (final_result : Z -> result str)
           (frames : list frame)
  : outcome (result (option str)) :=
  match listen_try c timeout stream final_result frames with
  | Done (Raised e) => if is_Exception e then Done (Returned None)
                       else Done (Raised e)
  | o => o
  end.

(* ================================================================= *)
(** ** [modules/activation.py]: [wait_for_activation] *)

Record ActivationManager : Type := {
  gpio_enabled : bool;
  wake_word_enabled : bool;
  button_pressed : bool;
  wake_word_detected : bool
}.

Inductive activation : Type :=
| act_button | act_wake_word | act_timeout | act_auto | act_interrupted.

(** What happened since the previous iteration of the polling loop: whether
    [_button_callback] ran, whether a wake-word listener reported a match,
    whether [KeyboardInterrupt] was delivered, and what [time.time()]
    reads. *)
Record poll : Type := {
  p_button_callback : bool;
  p_wake_word_listener : bool;
  p_interrupt : bool;
  p_time : Q
}.

Definition observe (p : poll) (a : ActivationManager) : ActivationManager :=
  {| gpio_enabled := gpio_enabled a;
     wake_word_enabled := wake_word_enabled a;
     button_pressed := button_pressed a || p_button_callback p;
     wake_word_detected := wake_word_detected a || p_wake_word_listener p |}.

Definition clear_button (a : ActivationManager) : ActivationManager :=
  {| gpio_enabled := gpio_enabled a;
     wake_word_enabled := wake_word_enabled a;
     button_pressed := false;
     wake_word_detected := wake_word_detected a |}.

Definition clear_wake_word (a : ActivationManager) : ActivationManager :=
  {| gpio_enabled := gpio_enabled a;
     wake_word_enabled := wake_word_enabled a;
     button_pressed := button_pressed a;
     wake_word_detected := false |}.

(** [timeout and (time.time() - start_time) > timeout] *)
Definition timed_out (timeout : option Q) (start_time now : Q) : bool :=
  match timeout with
  | Some t => truthy_Q t && negb (Qle_bool (now - start_time) t)
  | None => false
  end.

(** The [while True:] loop. *)
Fixpoint poll_loop (timeout : option Q) (start_time : Q) (polls : list poll)
         (a : ActivationManager)
  : outcome activation * ActivationManager * list event :=
  match polls with
  | [] => (Blocked, a, [])
  | p :: rest =>
    let a := observe p a in
    if p_interrupt p then (Done act_interrupted, a, [])
    else if button_pressed a then (Done act_button, clear_button a, [])
    else if wake_word_detected a then
      (Done act_wake_word, clear_wake_word a, [])
    else if timed_out timeout start_time (p_time p) then
      (Done act_timeout, a, [])
    else
      let '(r, a', ev) := poll_loop timeout start_time rest a in
      (r, a', EvSleep (1 # 10) :: ev)
  end.

(** [wait_for_activation]: [stt_engine] tells whether an engine was passed,
    [start_time] is the first reading of [time.time()]. *)
Definition wait_for_activation (stt_engine : bool) (timeout : option Q)
           (start_time : Q) (polls : list poll) (a : ActivationManager)
  : outcome activation * ActivationManager * list event :=
  if negb (gpio_enabled a) && negb (wake_word_enabled a) then
    (Done act_auto, a, [])
  else
    let '(r, a', ev) := poll_loop timeout start_time polls a in
    (r, a',
     EvLed LedWaiting
     :: (if wake_word_enabled a && stt_engine then [EvStartWakeWordThread]
         else [])
     ++ ev).

(* ================================================================= *)
(** ** Vocabulary of the statements *)

(** *** Activation *)

(** A polling iteration that passes without a return when it starts in
    state [a]: no interrupt, neither flag set, no timeout. *)
Definition idle_in (a : ActivationManager) (timeout : option Q)
           (start_time : Q) (p : poll) : bool :=
  negb (p_interrupt p)
  && negb (button_pressed (observe p a))
  && negb (wake_word_detected (observe p a))
  && negb (timed_out timeout start_time (p_time p)).

Definition activation_of
           (r : outcome activation * ActivationManager * list event)
  : outcome activation := fst (fst r).

(** *** Reminder store *)

(** Ascending order of the [datetime] column, on rows and on returned
    reminders. *)
Definition row_le (a b : row) : Prop :=
  str_leb (row_datetime a) (row_datetime b) = true.

Definition datetime_le (a b : reminder) : Prop :=
  str_leb (r_datetime a) (r_datetime b) = true.

(** The rows a poll at [now] must return. *)
Definition due_rows (now : datetime) (t : list row) : list row :=
  filter (is_due (isoformat now)) t.

(** Whether some row of [rows] carries the id of [r]. *)
Definition id_among (rows : list row) (r : row) : bool :=
  existsb (fun d => row_id d =? row_id r) rows.

Definition mark_among (rows : list row) (r : row) : row :=
  if id_among rows r then set_notified r else r.

(** *** Reminder loop *)


(** The errors logged, in order. *)
Definition errors (ev : list event) : list (logger * exn) :=
  flat_map (fun e => match e with EvLogError l x => [(l, x)] | _ => [] end) ev.

(** What the loop does with the reminders a poll returned, when the
    notifier does not fail. *)
Definition announce (due : list reminder) : list event :=
  flat_map (fun r => [EvLogInfo (MsgReminder (r_text r));
                      EvSpeak (MsgReminder (r_text r))]) due.



(** The manager as the loop leaves it after a script of iterations. *)
Definition state_after (interval : Q) (cycles : list cycle)
           (m : RemindersManager) : RemindersManager :=
  snd (fst (reminder_checker interval cycles m)).

(** *** Capture session *)

(** The silence counter after one more frame: a partial result with text
    resets it, a silent frame (an empty partial, a final result without
    text) increments it. *)
Definition silence_step (s : Z) (f : frame) : Z :=
  match f with
  | FramePartial p => if truthy_str p then 0 else s + 1
  | FrameFinal t => if truthy_str t then s else s + 1
  | FrameError _ => s
  end.

(** The silence counter after the frames [fs], from the value [s]. *)
Definition silence_count (s : Z) (fs : list frame) : Z :=
  fold_left silence_step fs s.

(** A frame that neither completes the utterance nor fails. *)
Definition quiet_frame (f : frame) : bool :=
  match f with
  | FramePartial _ => true
  | FrameFinal t => negb (truthy_str t)
  | FrameError _ => false
  end.

Definition quiet (fs : list frame) : bool := forallb quiet_frame fs.

(** The silence counter reaches [max] on the script, no final text and no
    failure having been observed up to that point. *)
Definition silence_reached (max : Z) (frames : list frame) : Prop :=
  exists n, (1 <= n <= List.length frames)%nat
            /\ quiet (firstn n frames) = true
            /\ max <= silence_count 0 (firstn n frames).

Definition budget_reached (max_chunks : option Z) (recorded : Z) : bool :=
  match max_chunks with
  | Some mc => truthy_Z mc && (mc <=? recorded)
  | None => false
  end.

(** The loop stops after the frames [fs]: the silence counter has reached
    [max_silence] or the frame count the budget.  [s] and [r] are the
    counters before [fs]. *)
Definition stop_after (max_silence : Z) (max_chunks : option Z) (s r : Z)
           (fs : list frame) : bool :=
  (max_silence <=? silence_count s fs)
  || budget_reached max_chunks (r + Z.of_nat (List.length fs)).

(** The session ends at frame [i] (counted from 0) with [res]: the frames
    before it are quiet and do not stop the loop, and frame [i] fails,
    completes the utterance, or stops the loop, in which case the result is
    read from the recognizer. *)
Definition ends_at (max_silence : Z) (max_chunks : option Z)
           (final_result : Z -> result str) (s r : Z) (frames : list frame)
           (i : nat) (res : result (option str)) : Prop :=
  quiet (firstn i frames) = true
  /\ (forall k, (k < i)%nat ->
                stop_after max_silence max_chunks s r (firstn (S k) frames)
                = false)
  /\ match nth_error frames i with
     | Some (FrameError e) => res = Raised e
     | Some (FrameFinal ((_ :: _) as t)) => res = Returned (Some t)
     | Some _ =>
       stop_after max_silence max_chunks s r (firstn (S i) frames) = true
       /\ res = final_text final_result (r + Z.of_nat (S i))
     | None => False
     end.

(** A result that [listen] turns into [None]: no text, or a failure that
    [except Exception] catches. *)
Definition gives_None (res : result (option str)) : bool :=
  match res with
  | Returned None => true
  | Returned (Some _) => false
  | Raised e => is_Exception e
  end.

(** *** Time expressions *)

Section ParseVocabulary.
Context {U : Interpreter}.

(** [w] is a match of the pattern, with the groups [gs]: literals match
    themselves, [X+] a non-empty run of characters of the class. *)
Inductive matches : regex -> str -> list str -> Prop :=
| matches_nil : matches [] [] []
| matches_lit l re w gs :
    matches re w gs -> matches (Lit l :: re) (l ++ w) gs
| matches_plus capture c re run w gs :
    run <> [] ->
    Forall (fun x => in_cls c x = true) run ->
    matches re w gs ->
    matches (Plus capture c :: re) (run ++ w)
            (if capture then run :: gs else gs).

(** The pattern somewhere in [s]. *)
Definition occurs (re : regex) (s : str) : Prop :=
  exists pre w post gs, s = pre ++ w ++ post /\ matches re w gs.

(** A string [int] accepts as far as its length goes. *)
Definition within_int_limit (s : str) : Prop :=
  int_max_str_digits = 0%nat \/ (List.length s <= int_max_str_digits)%nat.

(** The first pattern of the dictionary that matches, with its match. *)
Fixpoint first_match_in (ps : list (pattern_name * regex)) (s : str)
  : option (pattern_name * regex * re_match) :=
  match ps with
  | [] => None
  | (name, re) :: rest =>
    match re_search re s with
    | Some m => Some (name, re, m)
    | None => first_match_in rest s
    end
  end.

Definition first_match (s : str) : option (pattern_name * regex * re_match) :=
  first_match_in patterns s.

End ParseVocabulary.

(** Today at [h]:[mi]:00. *)
Definition today_at (now : datetime) (h mi : Z) : datetime :=
  {| year := year now; month := month now; day := day now;
     hour := h; minute := mi; second := 0; microsecond := 0 |}.

(** The day after today at [h]:[mi]:00: the date whose ordinal is one more
    than today's. *)
Definition tomorrow_at (now : datetime) (h mi : Z) : datetime :=
  let '(y, m, d) := ord2ymd (toordinal now + 1) in
  {| year := y; month := m; day := d;
     hour := h; minute := mi; second := 0; microsecond := 0 |}.

(** The row [add_reminder] inserts for [text] at [remind_datetime]. *)
Definition new_row (t : list row) (clock remind_datetime : datetime)
           (text : str) : row :=
  {| row_id := next_rowid t; row_text := text;
     row_datetime := isoformat remind_datetime;
     row_created_at := isoformat clock; row_notified := 0 |}.

(** *** Calendar *)

(** Day [n] (from 0) of a year: the month and the day of the month
    [_ord2ymd] computes for it are in range and [_days_before_month] leads
    back to [n]. *)
Definition month_day_check (leap : bool) (n : Z) : bool :=
  let m := (n + 50) / 32 in
  let preceding :=
    nth (Z.to_nat m) DAYS_BEFORE_MONTH 0 + b2z ((2 <? m) && leap) in
  let '(m, d) :=
    if n <? preceding then
      (m - 1,
       n - (preceding - (nth (Z.to_nat (m - 1)) DAYS_IN_MONTH 0
                         + b2z ((m - 1 =? 2) && leap))) + 1)
    else (m, n - preceding + 1) in
  (1 <=? m) && (m <=? 12) && (1 <=? d)
  && (nth (Z.to_nat m) DAYS_BEFORE_MONTH 0 + b2z ((2 <? m) && leap) + d
      =? n + 1).

(** *** ISO texts *)

(** Three-way lexicographic comparison of two texts. *)
Fixpoint str_compare (a b : str) : comparison :=
  match a, b with
  | [], [] => Eq
  | [], _ :: _ => Lt
  | _ :: _, [] => Gt
  | x :: a', y :: b' =>
    match (x ?= y)%N with
    | Eq => str_compare a' b'
    | c => c
    end
  end.

(** Three-way comparison of two datetimes, field by field. *)
Fixpoint lex_compare (a b : list Z) : comparison :=
  match a, b with
  | x :: a', y :: b' =>
    match x ?= y with
    | Eq => lex_compare a' b'
    | c => c
    end
  | _, _ => Eq
  end.

Definition dt_compare (a b : datetime) : comparison :=
  lex_compare (dt_fields a) (dt_fields b).

(** The fields fit the widths [isoformat] prints them in. *)
Definition printable (t : datetime) : Prop :=
  0 <= year t < 10000 /\ 0 <= month t < 100 /\ 0 <= day t < 100
  /\ 0 <= hour t < 100 /\ 0 <= minute t < 100 /\ 0 <= second t < 100
  /\ 0 <= microsecond t < 1000000.



(* ================================================================= *)
(** ** Sample configurations and scripts *)

Definition both_methods : ActivationManager :=
  {| gpio_enabled := true; wake_word_enabled := true;
     button_pressed := false; wake_word_detected := false |}.

Definition quiet_poll (t : Q) : poll :=
  {| p_button_callback := false; p_wake_word_listener := false;
     p_interrupt := false; p_time := t |}.

Definition both_fire (t : Q) : poll :=
  {| p_button_callback := true; p_wake_word_listener := true;
     p_interrupt := false; p_time := t |}.

Definition no_methods : ActivationManager :=
  {| gpio_enabled := false; wake_word_enabled := false;
     button_pressed := false; wake_word_detected := false |}.

Definition iso (s : string) : str := utf8 s.

Definition three_reminders : RemindersManager :=
  {| enabled := true;
     table :=
       [ {| row_id := 1; row_text := utf8 "b";
            row_datetime := iso "2024-03-10T09:30:00";
            row_created_at := iso "2024-03-09T08:00:00";
            row_notified := 0 |};
         {| row_id := 2; row_text := utf8 "a";
            row_datetime := iso "2024-03-10T08:00:00.500000";
            row_created_at := iso "2024-03-09T08:01:00";
            row_notified := 0 |};
         {| row_id := 3; row_text := utf8 "c";
            row_datetime := iso "2024-03-11T08:00:00";
            row_created_at := iso "2024-03-09T08:02:00";
            row_notified := 0 |} ] |}.

Definition ten_o_clock : datetime :=
  {| year := 2024; month := 3; day := 10; hour := 10; minute := 0;
     second := 0; microsecond := 0 |}.

Definition a_minute_later : datetime :=
  {| year := 2024; month := 3; day := 10; hour := 10; minute := 1;
     second := 0; microsecond := 0 |}.

Definition select_fails : cycle :=
  {| cy_now := ten_o_clock; cy_db_fault := Some (FailExecute 0);
     cy_speak_fault := None |}.

Definition normal_cycle : cycle :=
  {| cy_now := a_minute_later; cy_db_fault := None; cy_speak_fault := None |}.

Definition next_morning : datetime :=
  {| year := 2024; month := 3; day := 11; hour := 9; minute := 0;
     second := 0; microsecond := 0 |}.

Definition speaker_fails : cycle :=
  {| cy_now := next_morning; cy_db_fault := None;
     cy_speak_fault := Some (0%nat, RuntimeError) |}.

Definition three_cycles : list cycle :=
  [select_fails; normal_cycle; speaker_fails].

Definition capture_config : stt_config :=
  {| sample_rate := 16000; chunk_size := 4000; silence_timeout := 3 # 2 |}.

Definition no_final_text : Z -> result str := fun _ => Returned [].

Definition eight_pm : datetime :=
  {| year := 2024; month := 3; day := 10; hour := 20; minute := 0;
     second := 0; microsecond := 0 |}.


Definition call_tomorrow : str := utf8 "напомни завтра в 9:00 позвонить".

Definition empty_store : RemindersManager :=
  {| enabled := true; table := [] |}.

(* ================================================================= *)
(** * The rest of the assistant

    The functions around the ones above: [get_upcoming_reminders],
    [sanitize_user_input], [listen_for_wake_word], [_wake_word_listener],
    the command router [_process_command] with [_handle_calendar_event],
    and [_main_loop], [start] and [stop]. *)

(* ================================================================= *)
(** ** [services/reminders.py]: [get_upcoming_reminders] *)

(** [LIMIT ?]: a negative limit is no limit. *)
Definition sql_limit {A : Type} (count : Z) (l : list A) : list A :=
  if count <? 0 then l else firstn (Z.to_nat count) l.

(** [WHERE datetime > ? AND notified = 0] *)
Definition is_upcoming (now : str) (r : row) : bool :=
  negb (str_leb (row_datetime r) now) && (row_notified r =? 0).

(** [SELECT id, text, datetime FROM reminders
     WHERE datetime > ? AND notified = 0 ORDER BY datetime LIMIT ?] *)
Definition select_upcoming (now : str) (count : Z) (t : list row) : list row :=
  sql_limit count (order_by_datetime (filter (is_upcoming now) t)).

(** [get_upcoming_reminders(count)]; an integer that does not fit SQLite's
    64 bits cannot be bound as a parameter ([OverflowError]). *)
Definition get_upcoming_reminders (fault : option db_fault) (now : datetime)
           (count : Z) (m : RemindersManager) : list reminder * list event :=
  if negb (enabled m) then ([], [])
  else
    let now := isoformat now in
    if (count <? - 2 ^ 63) || (2 ^ 63 <=? count) then
      ([], [EvLogError LogReminders OverflowError])
    else
      match fault with
      | Some (FailExecute O) => ([], [EvLogError LogReminders SqliteError])
      | _ => (map reminder_of_row (select_upcoming now count (table m)), [])
      end.

(** *** Vocabulary: histories of the store *)

(** A call on the manager, with what the environment does during it. *)
Inductive store_op : Type :=
| OpAdd (fault : option db_fault) (clock : datetime) (text : str)
        (remind_datetime : datetime)
| OpPoll (fault : option db_fault) (now : datetime).

(** Everything the polls of a history return, in order. *)
Fixpoint polled (ops : list store_op) (m : RemindersManager) : list reminder :=
  match ops with
  | [] => []
  | OpAdd fault clock text remind_datetime :: rest =>
    polled rest (snd (fst (add_reminder fault clock text remind_datetime m)))
  | OpPoll fault now :: rest =>
    match check_reminders fault now m with
    | (Returned due, m', _) => due ++ polled rest m'
    | (Raised _, _, _) => []
    end
  end.

(** A row is as before or has been marked notified. *)
Definition kept_or_marked (r r' : row) : Prop :=
  r' = r \/ r' = set_notified r.

(** The ids of the rows already marked. *)
Definition marked_ids (t : list row) : list Z :=
  map row_id (filter (fun r => negb (row_notified r =? 0)) t).

(* ================================================================= *)
(** ** Vocabulary: instants *)

(** Microseconds since midnight. *)
Definition time_of_day (t : datetime) : Z :=
  (hour t * 3600 + minute t * 60 + second t) * 1000000 + microsecond t.

(** The instant of a naive datetime: microseconds since the start of
    ordinal 0. *)
Definition instant (t : datetime) : Z :=
  toordinal t * 86400000000 + time_of_day t.

(** The length of a [timedelta], in microseconds. *)
Definition timedelta_us (d : timedelta) : Z :=
  (td_days d * 86400 + td_seconds d) * 1000000 + td_microseconds d.

(** The first instant after the last representable day. *)
Definition instant_overflow : Z := (MAXORDINAL + 1) * 86400000000.

(** A date of the calendar. *)
Definition valid_date (y m d : Z) : Prop :=
  1 <= y <= 9999 /\ 1 <= m <= 12 /\ 1 <= d <= days_in_month y m.

(** What [_ord2ymd] does with the [n]-th day of a year (from 0): the
    month and the day it computes are those of a date. *)
Definition month_day_range (leap : bool) (n : Z) : bool :=
  let m := (n + 50) / 32 in
  let preceding :=
    nth (Z.to_nat m) DAYS_BEFORE_MONTH 0 + b2z ((2 <? m) && leap) in
  let '(m, d) :=
    if n <? preceding then
      (m - 1,
       n - (preceding - (nth (Z.to_nat (m - 1)) DAYS_IN_MONTH 0
                         + b2z ((m - 1 =? 2) && leap))) + 1)
    else (m, n - preceding + 1) in
  (1 <=? m) && (m <=? 12) && (1 <=? d)
  && (d <=? (if (m =? 2) && leap then 29
             else nth (Z.to_nat m) DAYS_IN_MONTH 0)).

(* ================================================================= *)
(** ** [assistant.py]: [sanitize_user_input] *)

(** The class [[\x00-\x08\x0b-\x0c\x0e-\x1f\x7f-\x9f]]. *)
Definition is_control (c : N) : bool :=
  ((c <=? 0x08) || (0x0b <=? c) && (c <=? 0x0c)
   || (0x0e <=? c) && (c <=? 0x1f) || (0x7f <=? c) && (c <=? 0x9f))%N.

(** [text[:max_length]]: a negative bound counts from the end. *)
Definition slice_to (max_length : Z) (text : str) : str :=
  if max_length <? 0
  then firstn (Z.to_nat (Z.of_nat (List.length text) + max_length)) text
  else firstn (Z.to_nat max_length) text.

Section Sanitize.
Context {U : Interpreter}.

(** [re.sub(r'\s+', ' ', text)]: every maximal run of white space becomes
    one U+0020; [in_run] tells whether the character before is part of
    the run being replaced. *)
Fixpoint collapse_spaces (in_run : bool) (text : str) : str :=
  match text with
  | [] => []
  | c :: rest =>
    if isspace c then
      if in_run then collapse_spaces true rest
      else 0x20%N :: collapse_spaces true rest
    else c :: collapse_spaces false rest
  end.

Definition sanitize_user_input (text : str) (max_length : Z) : str :=
  if negb (truthy_str text) then []
  else
    let text := slice_to max_length text in
    let text := filter (fun c => negb (is_control c)) text in
    let text := strip (collapse_spaces false text) in
    text.

(** *** Vocabulary *)

(** White space occurs in [s] only as a single U+0020; [prev] tells
    whether the character before [s] is white space. *)
Fixpoint single_spaced (prev : bool) (s : str) : bool :=
  match s with
  | [] => true
  | c :: rest =>
    if isspace c then negb prev && (c =? 0x20)%N && single_spaced true rest
    else single_spaced false rest
  end.

End Sanitize.

(* ================================================================= *)
(** ** [modules/stt.py]: [listen_for_wake_word] *)

(** [word in text] on two strings. *)
Fixpoint contains (word text : str) : bool :=
  match strip_prefix word text with
  | Some _ => true
  | None =>
    match text with
    | [] => false
    | _ :: rest => contains word rest
    end
  end.

Section WakeWord.
Context {U : Interpreter}.




(* ================================================================= *)
(** ** [modules/activation.py]: [_wake_word_listener] *)



(** *** Vocabulary *)


End WakeWord.

(* ================================================================= *)
(** ** [assistant.py]: [_process_command] *)

(** What the other components answer when they are asked: the weather and
    the news service, the smart-home controller, the language model and
    the calendar.  Each of them catches its own failures and answers with
    a message. *)
Record components : Type := {
  get_weather : bool * str;
  get_news : bool * str;
  smart_home_process_command : str -> bool * str;
  generate_response : str -> str;
  create_event : str -> datetime -> bool * str
}.

(** The assistant: the [running] flag, the activation manager and the
    reminder store. *)
Record VoiceAssistant : Type := {
  running : bool;
  activation_manager : ActivationManager;
  reminders : RemindersManager
}.

(** What the assistant does, in order: the calls it makes on its
    components, what it says ([tts.speak], which catches its own failures
    and returns a flag the assistant does not read), and the events of the
    activation manager and of the reminder store. *)
Inductive action : Type :=
| LogCommand (text : str)
| GetWeather
| GetNews
| SmartHome (text : str)
| CreateEvent (summary : str) (start_datetime : datetime)
| ResetConversation
| GenerateResponse (text : str)
| Speak (text : str)
| Ev (e : event)
| StartReminderThread
| Cleanup.

Definition set_running (a : VoiceAssistant) (b : bool) : VoiceAssistant :=
  {| running := b; activation_manager := activation_manager a;
     reminders := reminders a |}.

Definition set_reminders (a : VoiceAssistant) (m : RemindersManager)
  : VoiceAssistant :=
  {| running := running a; activation_manager := activation_manager a;
     reminders := m |}.

Definition set_activation_manager (a : VoiceAssistant)
           (am : ActivationManager) : VoiceAssistant :=
  {| running := running a; activation_manager := am;
     reminders := reminders a |}.

Section Router.
Context {U : Interpreter}.

(** [any(word in text for word in words)] *)
Definition any_in (words : list str) (text : str) : bool :=
  existsb (fun word => contains word text) words.

(** [_handle_calendar_event]: [now] is read by the parser, [clock] by the
    default of one hour from now. *)
Definition handle_calendar_event (w : components) (now clock : datetime)
           (text : str) : result unit * list action :=
  match parse_reminder_from_text now text with
  | Raised e => (Raised e, [])
  | Returned (remind_time, event_text) =>
    match match remind_time with
          | Some t => Returned t
          | None => delta <- mk_timedelta 0 1 0 ;; dt_add clock delta
          end with
    | Raised e => (Raised e, [])
    | Returned remind_time =>
      let event_text := if truthy_str event_text then event_text else text in
      let '(_, message) := create_event w event_text remind_time in
      (Returned tt, [CreateEvent event_text remind_time; Speak message])
    end
  end.

Definition weather_words : list str :=
  [utf8 "погода"; utf8 "температура"; utf8 "градус"].
Definition smart_home_words : list str :=
  [utf8 "включи"; utf8 "выключи"; utf8 "запусти"; utf8 "останови"].
Definition calendar_words : list str :=
  [utf8 "создай встречу"; utf8 "добавь событие"; utf8 "запланируй"].
Definition shutdown_words : list str :=
  [utf8 "выключись"; utf8 "завершить работу"; utf8 "стоп программа"].

(** The rules after the smart-home rule. *)
Definition process_rest (w : components) (fault : option db_fault)
           (now clock : datetime) (text text_lower : str)
           (a : VoiceAssistant) : result unit * VoiceAssistant * list action :=
  if contains (utf8 "напомни") text_lower
     || contains (utf8 "напоминание") text_lower then
    match handle_reminder fault now clock text (reminders a) with
    | Returned (m, ev) => (Returned tt, set_reminders a m, map Ev ev)
    | Raised e => (Raised e, a, [])
    end
  else if any_in calendar_words text_lower then
    let '(r, acts) := handle_calendar_event w now clock text in (r, a, acts)
  else if contains (utf8 "забудь") text_lower
          || contains (utf8 "сбрось") text_lower
          || contains (utf8 "новый разговор") text_lower then
    (Returned tt, a,
     [ResetConversation; Speak (utf8 "Контекст разговора сброшен")])
  else if any_in shutdown_words text_lower then
    (Returned tt, set_running a false,
     [Speak (utf8 "Завершаю работу. До свидания!")])
  else
    (Returned tt, a, [GenerateResponse text; Speak (generate_response w text)]).

(** [_process_command]: [now] and [clock] are the readings of
    [datetime.now()] the reminder code makes. *)
Definition process_command (w : components) (fault : option db_fault)
           (now clock : datetime) (text : str) (a : VoiceAssistant)
  : result unit * VoiceAssistant * list action :=
  let text_lower := lower text in
  if any_in weather_words text_lower then
    let '(_, message) := get_weather w in
    (Returned tt, a, [LogCommand text; GetWeather; Speak message])
  else if contains (utf8 "новост") text_lower then
    let '(_, message) := get_news w in
    (Returned tt, a, [LogCommand text; GetNews; Speak message])
  else if any_in smart_home_words text_lower then
    let '(success, message) := smart_home_process_command w text in
    if success then
      (Returned tt, a, [LogCommand text; SmartHome text; Speak message])
    else
      let '(r, a', acts) := process_rest w fault now clock text text_lower a in
      (r, a', LogCommand text :: SmartHome text :: acts)
  else
    let '(r, a', acts) := process_rest w fault now clock text text_lower a in
    (r, a', LogCommand text :: acts).

(* ================================================================= *)
(** ** [assistant.py]: [_main_loop], [start], [stop] *)

(** What the environment does during one call of [_main_loop]: the clock
    and the polling iterations of [wait_for_activation]; the stream, the
    recognizer and the chunks of [listen]; the components' answers, the
    [reminders] table as the command finds it (the reminder thread works
    on the same table), a database failure and the two clock readings of
    the reminder code. *)
Record turn : Type := {
  t_start_time : Q;
  t_polls : list poll;
  t_stream : result unit;
  t_final_result : Z -> result str;
  t_frames : list frame;
  t_components : components;
  t_table : list row;
  t_db_fault : option db_fault;
  t_now : datetime;
  t_clock : datetime
}.

(** [_main_loop]: [c] is the audio configuration,
    [max_recording_duration] the entry of the [performance] section. *)
Definition main_loop (c : stt_config) (max_recording_duration : option Q)
           (t : turn) (a : VoiceAssistant)
  : outcome (result unit * VoiceAssistant * list action) :=
  let '(r, am, ev) :=
    wait_for_activation true None (t_start_time t) (t_polls t)
                        (activation_manager a) in
  let a := set_activation_manager a am in
  match r with
  | Blocked => Blocked
  | Done act_timeout | Done act_interrupted =>
    Done (Returned tt, a, map Ev ev)
  | Done _ =>
    let acts :=
      map Ev ev ++ [Ev (EvLed LedListening); Speak (utf8 "Слушаю")] in
    match listen c max_recording_duration (t_stream t) (t_final_result t)
                 (t_frames t) with
    | Blocked => Blocked
    | Done (Raised e) => Done (Raised e, a, acts)
    | Done (Returned user_text) =>
      let not_heard :=
        Done (Returned tt, a,
              acts ++ [Speak (utf8 "Я не расслышал команду");
                       Ev (EvLed LedOff)]) in
      match user_text with
      | None => not_heard
      | Some user_text =>
        if negb (truthy_str user_text) then not_heard
        else
          let user_text := sanitize_user_input user_text 500 in
          if negb (truthy_str user_text) then
            Done (Returned tt, a,
                  acts ++ [Speak (utf8 "Получена некорректная команда");
                           Ev (EvLed LedOff)])
          else
            let acts := acts ++ [Ev (EvLed LedProcessing)] in
            let a := set_reminders a (with_table (reminders a) (t_table t)) in
            match process_command (t_components t) (t_db_fault t) (t_now t)
                                  (t_clock t) user_text a with
            | (Returned _, a', acts') =>
              Done (Returned tt, a', acts ++ acts' ++ [Ev (EvLed LedOff)])
            | (Raised e, a', acts') => Done (Raised e, a', acts ++ acts')
            end
      end
    end
  end.

(** [stop] *)
Definition stop (a : VoiceAssistant) : VoiceAssistant * list action :=
  (set_running a false, [Cleanup]).

(** [while self.running: self._main_loop()] *)
Fixpoint run_loop (c : stt_config) (max_recording_duration : option Q)
         (turns : list turn) (a : VoiceAssistant)
  : outcome (result unit * VoiceAssistant * list action) :=
  if running a then
    match turns with
    | [] => Blocked
    | t :: rest =>
      match main_loop c max_recording_duration t a with
      | Blocked => Blocked
      | Done (Returned _, a', acts) =>
        match run_loop c max_recording_duration rest a' with
        | Blocked => Blocked
        | Done (r, a'', acts') => Done (r, a'', acts ++ acts')
        end
      | Done (Raised e, a', acts) => Done (Raised e, a', acts)
      end
    end
  else Done (Returned tt, a, []).

(** [start]: the loop under [except KeyboardInterrupt] and [finally:
    self.stop()]. *)
Definition start (c : stt_config) (max_recording_duration : option Q)
           (turns : list turn) (a : VoiceAssistant)
  : outcome (result unit * VoiceAssistant * list action) :=
  let a := set_running a true in
  let greeting :=
    [StartReminderThread;
     Speak (utf8 "Голосовой ассистент запущен и готов к работе.")] in
  match run_loop c max_recording_duration turns a with
  | Blocked => Blocked
  | Done (r, a', acts) =>
    let '(a'', acts') := stop a' in
    Done (match r with
          | Raised KeyboardInterrupt => Returned tt
          | _ => r
          end, a'', greeting ++ acts ++ acts')
  end.

(** *** Vocabulary *)

(** The calls of [tts.speak] among the actions. *)
Definition is_speak (x : action) : bool :=
  match x with
  | Speak _ | Ev (EvSpeak _) => true
  | _ => false
  end.

(** How a command ends: with one spoken reply, or, when a time
    expression cannot be resolved, with nothing said and nothing changed. *)
Definition reply_shape (a : VoiceAssistant)
           (out : result unit * VoiceAssistant * list action) : Prop :=
  match out with
  | (Returned _, _, acts) => List.length (filter is_speak acts) = 1%nat
  | (Raised e, a', acts) =>
    filter is_speak acts = [] /\ a' = a
    /\ (e = ValueError \/ e = OverflowError)
  end.

(** The commands handed to [_process_command]. *)
Definition is_command (x : action) : bool :=
  match x with LogCommand _ => true | _ => false end.



End Router.

(* ================================================================= *)
(** ** More sample data *)

Definition tea : str := utf8 "выпить чай".

Definition add_and_poll_twice : list store_op :=
  [OpAdd None ten_o_clock tea a_minute_later;
   OpPoll None next_morning;
   OpPoll (Some FailCommit) next_morning;
   OpPoll None next_morning].

Definition in_ten_minutes : str := utf8 "напомни через 10 минут выпить чай".
Definition in_two_hours : str := utf8 "Напомни через 2 часа позвонить".
Definition exercise_at_8 : str := utf8 "напомни в 8:00 зарядку".

Definition ten_past_ten : datetime :=
  {| year := 2024; month := 3; day := 10; hour := 10; minute := 10;
     second := 0; microsecond := 0 |}.

Definition noon : datetime :=
  {| year := 2024; month := 3; day := 10; hour := 12; minute := 0;
     second := 0; microsecond := 0 |}.

Definition tomorrow_at_8 : datetime :=
  {| year := 2024; month := 3; day := 11; hour := 8; minute := 0;
     second := 0; microsecond := 0 |}.

(** Text as a recognizer may deliver it: tabs, a line break, a control
    character. *)
Definition untidy : str :=
  [32; 1095; 1072; 1081; 9; 10; 7; 32; 1089; 32; 1083; 1080; 1084; 1086;
   1085; 1086; 1084; 32]%N.

Definition five_silent_chunks : list frame :=
  [FramePartial (utf8 "чай"); FramePartial (utf8 "чай с");
   FramePartial (utf8 "чай с"); FramePartial (utf8 "чай с лимоном");
   FramePartial (utf8 "чай с лимоном")].


(** Components that are all switched off. *)
Definition switched_off : components :=
  {| get_weather := (false, utf8 "Сервис погоды отключен");
     get_news := (false, utf8 "Сервис новостей отключен");
     smart_home_process_command :=
       fun _ => (false,
                 utf8 "Не удалось распознать команду управления устройством");
     generate_response :=
       fun _ => utf8 "Извините, я пока не могу ответить на этот вопрос.";
     create_event := fun _ _ => (false, utf8 "Google Calendar отключен") |}.

(** A turn in which the button is pressed and [text] is recognized. *)
Definition heard (text : str) : turn :=
  {| t_start_time := 0;
     t_polls := [quiet_poll (1 # 10); both_fire (2 # 10)];
     t_stream := Returned tt;
     t_final_result := no_final_text;
     t_frames := [FramePartial text; FrameFinal text];
     t_components := switched_off;
     t_table := [];
     t_db_fault := None;
     t_now := ten_o_clock;
     t_clock := ten_o_clock |}.

Definition assistant : VoiceAssistant :=
  {| running := false; activation_manager := both_methods;
     reminders := empty_store |}.

(* ================================================================= *)
(** * Properties *)

(* ================================================================= *)
(** ** Activation arbiter *)

Lemma observe_idle a timeout start p :
  idle_in a timeout start p = true -> observe p a = a.
Proof.
  unfold idle_in, observe. destruct a as [g w b d]; simpl.
  destruct b, d, (p_button_callback p), (p_wake_word_listener p);
    simpl; rewrite ?andb_false_r; simpl; try discriminate; reflexivity.
Qed.

(** An idle iteration sleeps and goes round again. *)
Lemma poll_loop_idle_step timeout start q rest a :
  idle_in a timeout start q = true ->
  poll_loop timeout start (q :: rest) a
  = (fst (fst (poll_loop timeout start rest a)),
     snd (fst (poll_loop timeout start rest a)),
     EvSleep (1 # 10) :: snd (poll_loop timeout start rest a)).
Proof.
  intros Hq. pose proof (observe_idle _ _ _ _ Hq) as Ho.
  unfold idle_in in Hq. rewrite Ho in Hq.
  cbn [poll_loop]. rewrite Ho.
  destruct (p_interrupt q), (button_pressed a), (wake_word_detected a),
    (timed_out timeout start (p_time q)); try discriminate Hq.
  destruct (poll_loop timeout start rest a) as [[r a'] ev]. reflexivity.
Qed.

(** Idle iterations only sleep: the loop continues on the rest of the
    script in the same state. *)
Lemma poll_loop_idle_prefix timeout start pre rest a :
  Forall (fun q => idle_in a timeout start q = true) pre ->
  exists ev,
    poll_loop timeout start (pre ++ rest) a
    = (fst (fst (poll_loop timeout start rest a)),
       snd (fst (poll_loop timeout start rest a)),
       ev ++ snd (poll_loop timeout start rest a))
    /\ Forall (fun e => e = EvSleep (1 # 10)) ev.
Proof.
  induction 1 as [|q pre Hq Hpre IH].
  - exists []. split; [|constructor].
    simpl. destruct (poll_loop timeout start rest a) as [[r a'] ev].
    reflexivity.
  - destruct IH as [ev [IH Hev]].
    exists (EvSleep (1 # 10) :: ev). split; [|constructor; auto].
    rewrite <- app_comm_cons, (poll_loop_idle_step _ _ _ _ _ Hq), IH.
    reflexivity.
Qed.

(** One iteration in which the button flag is set returns ['button'],
    whatever the wake-word flag says. *)
Lemma poll_loop_button timeout start p rest a :
  p_interrupt p = false ->
  button_pressed (observe p a) = true ->
  poll_loop timeout start (p :: rest) a
  = (Done act_button, clear_button (observe p a), []).
Proof.
  intros Hi Hb. simpl. rewrite Hi. simpl in Hb. rewrite Hb. reflexivity.
Qed.

(** C5: when the polling loop reaches an iteration in which both the button
    flag and the wake-word flag are set, [wait_for_activation] returns
    ['button'] -- and leaves the wake-word flag set. *)
Theorem tie_break_button_wins stt_engine timeout start pre p rest a :
  gpio_enabled a || wake_word_enabled a = true ->
  Forall (fun q => idle_in a timeout start q = true) pre ->
  p_interrupt p = false ->
  button_pressed (observe p a) = true ->
  wake_word_detected (observe p a) = true ->
  exists a' ev,
    wait_for_activation stt_engine timeout start (pre ++ p :: rest) a
    = (Done act_button, a', ev)
    /\ button_pressed a' = false /\ wake_word_detected a' = true.
Proof.
  intros Hen Hpre Hi Hb Hw.
  destruct (poll_loop_idle_prefix timeout start pre (p :: rest) a Hpre)
    as [ev [Heq _]].
  rewrite (poll_loop_button timeout start p rest a Hi Hb) in Heq.
  simpl in Heq.
  unfold wait_for_activation.
  replace (negb (gpio_enabled a) && negb (wake_word_enabled a)) with false
    by (destruct (gpio_enabled a), (wake_word_enabled a);
        simpl in *; congruence).
  rewrite Heq. eexists. eexists. split; [reflexivity|].
  split; [reflexivity|exact Hw].
Qed.

Lemma tie_break_button_wins_witness :
  exists a' ev,
    wait_for_activation true None 0
      ([quiet_poll (1 # 10); quiet_poll (2 # 10)] ++ both_fire (3 # 10) :: [])
      both_methods
    = (Done act_button, a', ev)
    /\ button_pressed a' = false /\ wake_word_detected a' = true.
Proof.
  apply (tie_break_button_wins true None 0
           [quiet_poll (1 # 10); quiet_poll (2 # 10)] (both_fire (3 # 10)) []
           both_methods).
  - reflexivity.
  - repeat constructor.
  - reflexivity.
  - reflexivity.
  - reflexivity.
Defined.

(** C6: with both activation methods disabled [wait_for_activation] returns
    ['auto'] at once: whatever the script of polling iterations, none is
    consumed, nothing is slept, no thread is started and the manager is
    unchanged. *)
Theorem both_disabled_auto stt_engine timeout start polls a :
  gpio_enabled a = false ->
  wake_word_enabled a = false ->
  wait_for_activation stt_engine timeout start polls a = (Done act_auto, a, []).
Proof.
  intros Hg Hw. unfold wait_for_activation. rewrite Hg, Hw. reflexivity.
Qed.

Lemma both_disabled_auto_witness :
  wait_for_activation true (Some (5 # 1)) 0 [] no_methods
  = (Done act_auto, no_methods, []).
Proof.
  apply (both_disabled_auto true (Some (5 # 1)) 0 [] no_methods); reflexivity.
Defined.

Lemma timed_out_truthy t start now :
  truthy_Q t = true -> (t < now - start)%Q ->
  timed_out (Some t) start now = true.
Proof.
  intros Ht Hlt. unfold timed_out. rewrite Ht. simpl.
  apply negb_true_iff. destruct (Qle_bool (now - start) t) eqn:E; auto.
  apply Qle_bool_iff in E. exfalso. exact (Qlt_not_le _ _ Hlt E).
Qed.

Lemma timed_out_falsy timeout start now :
  match timeout with Some t => truthy_Q t = false | None => True end ->
  timed_out timeout start now = false.
Proof.
  destruct timeout as [t|]; simpl; auto. intros ->. reflexivity.
Qed.

Lemma poll_loop_never_timeout timeout start polls a :
  (forall p, In p polls -> timed_out timeout start (p_time p) = false) ->
  activation_of (poll_loop timeout start polls a) <> Done act_timeout.
Proof.
  revert a. induction polls as [|p rest IH]; intros a Hno.
  - simpl. discriminate.
  - cbn [poll_loop].
    rewrite (Hno p (or_introl eq_refl)).
    destruct (p_interrupt p); [discriminate|].
    destruct (button_pressed (observe p a)); [discriminate|].
    destruct (wake_word_detected (observe p a)); [discriminate|].
    specialize (IH (observe p a) (fun q Hq => Hno q (or_intror Hq))).
    unfold activation_of in *.
    destruct (poll_loop timeout start rest (observe p a)) as [[r a'] ev].
    exact IH.
Qed.

(** C7 (as amended): for a timeout that is neither [None] nor zero, the
    iteration the loop reaches with neither flag set and more than
    [timeout] elapsed returns ['timeout']; with [timeout] [None] -- or
    zero, which [if timeout and ...] treats alike -- no script of
    iterations ever makes [wait_for_activation] return ['timeout']. *)
Theorem timeout_rule stt_engine start a :
  gpio_enabled a || wake_word_enabled a = true ->
  (forall t pre p rest,
      truthy_Q t = true ->
      Forall (fun q => idle_in a (Some t) start q = true) pre ->
      p_interrupt p = false ->
      button_pressed (observe p a) = false ->
      wake_word_detected (observe p a) = false ->
      (t < p_time p - start)%Q ->
      activation_of
        (wait_for_activation stt_engine (Some t) start (pre ++ p :: rest) a)
      = Done act_timeout)
  /\ (forall timeout polls,
         match timeout with Some t => truthy_Q t = false | None => True end ->
         activation_of
           (wait_for_activation stt_engine timeout start polls a)
         <> Done act_timeout).
Proof.
  intros Hen.
  assert (Hany : negb (gpio_enabled a) && negb (wake_word_enabled a) = false)
    by (destruct (gpio_enabled a), (wake_word_enabled a);
        simpl in *; congruence).
  split.
  - intros t pre p rest Ht Hpre Hi Hb Hw Hlt.
    destruct (poll_loop_idle_prefix (Some t) start pre (p :: rest) a Hpre)
      as [ev [Heq _]].
    unfold wait_for_activation, activation_of. rewrite Hany, Heq.
    cbn [poll_loop fst snd]. rewrite Hi, Hb, Hw.
    rewrite (timed_out_truthy t start (p_time p) Ht Hlt). reflexivity.
  - intros timeout polls Hfalsy.
    unfold wait_for_activation. rewrite Hany.
    pose proof (poll_loop_never_timeout timeout start polls a
                  (fun p _ => timed_out_falsy timeout start (p_time p) Hfalsy))
      as Hnt.
    unfold activation_of in *.
    destruct (poll_loop timeout start polls a) as [[r a'] ev]. exact Hnt.
Qed.

Lemma timeout_rule_witness :
  activation_of
    (wait_for_activation true (Some (5 # 1)) 0
       ([quiet_poll (1 # 10); quiet_poll (4 # 1)] ++ quiet_poll (51 # 10) :: [])
       both_methods)
  = Done act_timeout
  /\ activation_of
       (wait_for_activation true None 0
          [quiet_poll (1 # 10); quiet_poll (51 # 10)] both_methods)
     <> Done act_timeout.
Proof.
  destruct (timeout_rule true 0 both_methods eq_refl) as [Hfire Hnever].
  split.
  - apply (Hfire (5 # 1) [quiet_poll (1 # 10); quiet_poll (4 # 1)]
                 (quiet_poll (51 # 10)) []); try reflexivity.
    repeat constructor.
  - apply (Hnever None [quiet_poll (1 # 10); quiet_poll (51 # 10)]). exact I.
Defined.

(** C7 as stated fails for the non-null timeout 0: five seconds after the
    start, with neither flag set, the iteration does not return
    ['timeout']; the call is still polling. *)
Lemma zero_timeout_never_fires :
  (0 < p_time (quiet_poll (5 # 1)) - 0)%Q
  /\ button_pressed (observe (quiet_poll (5 # 1)) both_methods) = false
  /\ wake_word_detected (observe (quiet_poll (5 # 1)) both_methods) = false
  /\ activation_of
       (wait_for_activation true (Some 0%Q) 0 [quiet_poll (5 # 1)] both_methods)
     = Blocked.
Proof.
  repeat split.
Qed.

(* ================================================================= *)
(** ** Reminder store: [check_reminders] *)

Lemma str_leb_total a b : str_leb a b = false -> str_leb b a = true.
Proof.
  revert b. induction a as [|x a IH]; intros [|y b]; simpl; try discriminate;
    auto.
  destruct (N.ltb_spec x y); [discriminate|].
  destruct (N.eqb_spec x y) as [->|Hne].
  - rewrite N.ltb_irrefl, N.eqb_refl. apply IH.
  - intros _. destruct (N.ltb_spec y x); [reflexivity|]. lia.
Qed.

Lemma insert_by_datetime_perm r l :
  Permutation (insert_by_datetime r l) (r :: l).
Proof.
  induction l as [|x xs IH]; simpl; [reflexivity|].
  destruct (str_leb (row_datetime r) (row_datetime x)); [reflexivity|].
  rewrite IH. apply perm_swap.
Qed.

Lemma order_by_datetime_perm l : Permutation (order_by_datetime l) l.
Proof.
  induction l as [|x xs IH]; simpl; [reflexivity|].
  rewrite insert_by_datetime_perm. now constructor.
Qed.

Lemma insert_by_datetime_hd r x l :
  row_le x r -> HdRel row_le x l -> HdRel row_le x (insert_by_datetime r l).
Proof.
  intros Hxr Hl. destruct l as [|y ys]; simpl.
  - now constructor.
  - destruct (str_leb (row_datetime r) (row_datetime y));
      constructor; auto. now inversion Hl.
Qed.

Lemma insert_by_datetime_sorted r l :
  Sorted row_le l -> Sorted row_le (insert_by_datetime r l).
Proof.
  induction 1 as [|x xs Hs IH Hhd]; simpl.
  - repeat constructor.
  - destruct (str_leb (row_datetime r) (row_datetime x)) eqn:E.
    + constructor; [constructor; assumption|]. constructor. exact E.
    + constructor; [exact IH|].
      apply insert_by_datetime_hd; [|exact Hhd].
      apply str_leb_total. exact E.
Qed.

Lemma order_by_datetime_sorted l : Sorted row_le (order_by_datetime l).
Proof.
  induction l as [|x xs IH]; simpl; [constructor|].
  now apply insert_by_datetime_sorted.
Qed.

Lemma sorted_reminders l :
  Sorted row_le l -> Sorted datetime_le (map reminder_of_row l).
Proof.
  induction 1 as [|x xs Hs IH Hhd]; simpl; constructor; auto.
  destruct Hhd; simpl; constructor. assumption.
Qed.

(** Without a failure the loop returns every selected row and has issued
    one [UPDATE] for each. *)
Lemma mark_rows_ok rows : forall acc t,
  mark_rows None rows acc t
  = (Returned (acc ++ map reminder_of_row rows),
     fold_left (fun t r => update_notified (row_id r) t) rows t).
Proof.
  induction rows as [|r rest IH]; intros acc t; simpl.
  - now rewrite app_nil_r.
  - rewrite IH, <- app_assoc. reflexivity.
Qed.

Lemma id_among_set_notified rows r :
  id_among rows (set_notified r) = id_among rows r.
Proof. reflexivity. Qed.

Lemma set_notified_idem r : set_notified (set_notified r) = set_notified r.
Proof. reflexivity. Qed.

Lemma updates_mark rows : forall t,
  fold_left (fun t r => update_notified (row_id r) t) rows t
  = map (mark_among rows) t.
Proof.
  induction rows as [|d rest IH]; intros t; simpl.
  - unfold mark_among. simpl. now rewrite map_id.
  - rewrite IH. unfold update_notified. rewrite map_map.
    apply map_ext. intros r. unfold mark_among. simpl.
    rewrite (Z.eqb_sym (row_id d) (row_id r)).
    destruct (row_id r =? row_id d); simpl.
    + rewrite id_among_set_notified.
      destruct (id_among rest r); reflexivity.
    + reflexivity.
Qed.

Lemma id_among_perm l l' r :
  Permutation l l' -> id_among l r = id_among l' r.
Proof.
  unfold id_among. induction 1; simpl; try congruence.
  destruct (row_id x =? row_id r), (row_id y =? row_id r); reflexivity.
Qed.

Lemma id_among_self rows r : In r rows -> id_among rows r = true.
Proof.
  intros Hin. apply existsb_exists. exists r. split; [exact Hin|].
  apply Z.eqb_refl.
Qed.

(** What a poll without failure does to an enabled manager. *)
Lemma check_reminders_ok now m :
  enabled m = true ->
  check_reminders None now m
  = (Returned (map reminder_of_row (select_due (isoformat now) (table m))),
     with_table m (map (mark_among (due_rows now (table m))) (table m)),
     []).
Proof.
  intros Hen. unfold check_reminders, check_reminders_try.
  rewrite Hen. simpl. rewrite mark_rows_ok, updates_mark. simpl.
  do 3 f_equal. apply map_ext. intros r. unfold mark_among, select_due.
  rewrite (id_among_perm _ _ r (order_by_datetime_perm _)). reflexivity.
Qed.

Lemma marked_not_due now rows r :
  id_among rows r = true -> is_due now (mark_among rows r) = false.
Proof.
  intros H. unfold mark_among, is_due. rewrite H. simpl.
  apply andb_false_r.
Qed.

Lemma none_due_after_marking now rows t :
  (forall r, In r t -> is_due now r = true -> In r rows) ->
  filter (is_due now) (map (mark_among rows) t) = [].
Proof.
  induction t as [|r t IH]; intros Hcov; simpl; [reflexivity|].
  rewrite IH by (intros q Hq; apply Hcov; now right).
  destruct (id_among rows r) eqn:E.
  - now rewrite marked_not_due.
  - unfold mark_among. rewrite E.
    destruct (is_due now r) eqn:D; [|reflexivity].
    rewrite (id_among_self rows r) in E; [discriminate|].
    apply Hcov; [now left|exact D].
Qed.

(** C1: on an enabled manager, with no database failure, a poll returns
    exactly the rows with [datetime <= now] and [notified = 0], in
    ascending order of [datetime], and has set [notified = 1] on every one
    of them when it returns; a second poll, taken when no further reminder
    has fallen due since the first reading of the clock, returns the empty
    list. *)
Theorem check_reminders_exactly_once now now' m :
  enabled m = true ->
  (forall r, In r (table m) ->
             is_due (isoformat now') r = true ->
             is_due (isoformat now) r = true) ->
  exists due m1 m2,
    check_reminders None now m = (Returned due, m1, [])
    /\ Permutation due (map reminder_of_row (due_rows now (table m)))
    /\ Sorted datetime_le due
    /\ table m1 = map (mark_among (due_rows now (table m))) (table m)
    /\ (forall r, In r (due_rows now (table m)) ->
                  In (set_notified r) (table m1))
    /\ check_reminders None now' m1 = (Returned [], m2, []).
Proof.
  intros Hen Hquiet.
  set (m1 := with_table m (map (mark_among (due_rows now (table m)))
                               (table m))).
  assert (Hnone : due_rows now' (table m1) = []).
  { apply none_due_after_marking. intros r Hin Hd.
    apply filter_In. split; [exact Hin|]. now apply Hquiet. }
  exists (map reminder_of_row (select_due (isoformat now) (table m))), m1.
  exists (with_table m1 (map (mark_among []) (table m1))).
  split; [now apply check_reminders_ok|].
  split; [apply Permutation_map, order_by_datetime_perm|].
  split; [apply sorted_reminders, order_by_datetime_sorted|].
  split; [reflexivity|].
  split.
  - intros r Hr. unfold m1. simpl.
    pose proof Hr as Hin. apply filter_In in Hin. destruct Hin as [Hin _].
    apply in_map_iff. exists r. split; [|exact Hin].
    unfold mark_among. now rewrite (id_among_self _ _ Hr).
  - rewrite check_reminders_ok by exact Hen.
    unfold select_due. fold (due_rows now' (table m1)). rewrite Hnone.
    reflexivity.
Qed.

Lemma check_reminders_exactly_once_witness :
  exists due m1 m2,
    check_reminders None ten_o_clock three_reminders = (Returned due, m1, [])
    /\ Permutation due
         (map reminder_of_row (due_rows ten_o_clock (table three_reminders)))
    /\ Sorted datetime_le due
    /\ table m1
       = map (mark_among (due_rows ten_o_clock (table three_reminders)))
             (table three_reminders)
    /\ (forall r, In r (due_rows ten_o_clock (table three_reminders)) ->
                  In (set_notified r) (table m1))
    /\ check_reminders None a_minute_later m1 = (Returned [], m2, []).
Proof.
  apply (check_reminders_exactly_once ten_o_clock a_minute_later
           three_reminders).
  - reflexivity.
  - intros r [<-|[<-|[<-|[]]]]; vm_compute; intros H; exact H.
Defined.

(** The poll of the example returns reminder 2 before reminder 1 and
    leaves reminder 3 pending. *)
Example check_reminders_example :
  fst (fst (check_reminders None ten_o_clock three_reminders))
  = Returned
      [ {| r_id := 2; r_text := utf8 "a";
           r_datetime := iso "2024-03-10T08:00:00.500000" |};
        {| r_id := 1; r_text := utf8 "b";
           r_datetime := iso "2024-03-10T09:30:00" |} ]
  /\ map row_notified
         (table (snd (fst (check_reminders None ten_o_clock three_reminders))))
     = [1; 1; 0].
Proof. split; reflexivity. Qed.

(* ================================================================= *)
(** ** Reminder store: ISO texts and instants *)

Lemma str_leb_compare a : forall b,
  str_leb a b = match str_compare a b with Gt => false | _ => true end.
Proof.
  induction a as [|x a IH]; intros [|y b]; simpl; try reflexivity.
  destruct (N.compare_spec x y) as [->|Hlt|Hgt].
  - rewrite N.ltb_irrefl, N.eqb_refl. apply IH.
  - apply N.ltb_lt in Hlt. now rewrite Hlt.
  - destruct (N.ltb_spec x y); [lia|].
    destruct (N.eqb_spec x y); [lia|reflexivity].
Qed.

Lemma lex_ltb_compare a : forall b,
  lex_ltb a b = match lex_compare a b with Lt => true | _ => false end.
Proof.
  induction a as [|x a IH]; intros [|y b]; simpl; try reflexivity.
  destruct (Z.compare_spec x y) as [->|Hlt|Hgt].
  - rewrite Z.ltb_irrefl, Z.eqb_refl. simpl. apply IH.
  - apply Z.ltb_lt in Hlt. now rewrite Hlt.
  - destruct (Z.ltb_spec x y); [lia|].
    destruct (Z.eqb_spec x y); [lia|reflexivity].
Qed.

Lemma lex_compare_antisym a : forall b,
  lex_compare b a = CompOpp (lex_compare a b).
Proof.
  induction a as [|x a IH]; intros [|y b]; simpl; try reflexivity.
  rewrite (Z.compare_antisym x y).
  destruct (x ?= y); simpl; auto.
Qed.

Lemma str_compare_app p : forall q x y,
  List.length p = List.length q ->
  str_compare (p ++ x) (q ++ y)
  = match str_compare p q with Eq => str_compare x y | c => c end.
Proof.
  induction p as [|a p IH]; intros [|b q] x y Hlen; simpl in *;
    try discriminate; [reflexivity|].
  destruct (a ?= b)%N; auto.
Qed.

Lemma str_compare_refl p : str_compare p p = Eq.
Proof. induction p; simpl; auto. now rewrite N.compare_refl. Qed.

Lemma str_compare_same_prefix p x y :
  str_compare (p ++ x) (p ++ y) = str_compare x y.
Proof. rewrite str_compare_app, str_compare_refl; reflexivity. Qed.

Lemma zero_pad_length w : forall n, List.length (zero_pad w n) = w.
Proof.
  induction w as [|w IH]; intros n; simpl; [reflexivity|].
  rewrite length_app, IH. simpl. lia.
Qed.

Lemma compare_by_digits a b :
  (a ?= b)
  = match a / 10 ?= b / 10 with
    | Eq => a mod 10 ?= b mod 10
    | c => c
    end.
Proof.
  destruct (Z.compare_spec (a / 10) (b / 10)),
    (Z.compare_spec (a mod 10) (b mod 10)), (Z.compare_spec a b);
    try reflexivity; exfalso; Z.div_mod_to_equations; lia.
Qed.

(** Zero-padded decimals of one width compare as the numbers do. *)
Lemma zero_pad_compare w : forall a b,
  0 <= a < 10 ^ Z.of_nat w -> 0 <= b < 10 ^ Z.of_nat w ->
  str_compare (zero_pad w a) (zero_pad w b) = (a ?= b).
Proof.
  induction w as [|w IH]; intros a b Ha Hb.
  - simpl in *. assert (a = 0) by lia. assert (b = 0) by lia. subst.
    reflexivity.
  - rewrite Nat2Z.inj_succ in Ha, Hb.
    rewrite (Z.pow_succ_r 10 (Z.of_nat w)) in Ha, Hb by lia.
    cbn [zero_pad].
    rewrite str_compare_app by (now rewrite !zero_pad_length).
    rewrite IH by (Z.div_mod_to_equations; lia).
    rewrite (compare_by_digits a b).
    destruct (a / 10 ?= b / 10); try reflexivity.
    cbn [str_compare].
    rewrite Z2N.inj_compare by (Z.div_mod_to_equations; lia).
    rewrite (Z.add_compare_mono_l 48).
    destruct (a mod 10 ?= b mod 10); reflexivity.
Qed.

Lemma frac_compare a b :
  0 <= a < 1000000 -> 0 <= b < 1000000 ->
  str_compare (if a =? 0 then [] else utf8 "." ++ zero_pad 6 a)
              (if b =? 0 then [] else utf8 "." ++ zero_pad 6 b)
  = (a ?= b).
Proof.
  intros Ha Hb.
  destruct (Z.eqb_spec a 0) as [->|Ha0], (Z.eqb_spec b 0) as [->|Hb0].
  - reflexivity.
  - change (utf8 "." ++ zero_pad 6 b) with (46%N :: zero_pad 6 b).
    cbn [str_compare]. symmetry. apply Z.compare_lt_iff. lia.
  - change (utf8 "." ++ zero_pad 6 a) with (46%N :: zero_pad 6 a).
    cbn [str_compare]. symmetry. apply Z.compare_gt_iff. lia.
  - rewrite str_compare_same_prefix. apply (zero_pad_compare 6); assumption.
Qed.

(** The ISO texts of two datetimes compare as the datetimes do. *)
Lemma isoformat_compare a b :
  printable a -> printable b ->
  str_compare (isoformat a) (isoformat b) = dt_compare a b.
Proof.
  intros (Hy & Hm & Hd & Hh & Hmi & Hs & Hus)
         (Hy' & Hm' & Hd' & Hh' & Hmi' & Hs' & Hus').
  unfold isoformat, dt_compare, dt_fields. cbn [lex_compare].
  repeat (rewrite str_compare_app by (now rewrite !zero_pad_length);
          rewrite zero_pad_compare by assumption;
          match goal with
          | |- context [?x ?= ?y] =>
            destruct (x ?= y); try reflexivity
          end;
          try rewrite str_compare_same_prefix).
  rewrite frac_compare by assumption.
  destruct (microsecond a ?= microsecond b); reflexivity.
Qed.

(** The textual test of the [SELECT] is the chronological one. *)
Lemma str_leb_isoformat a b :
  printable a -> printable b ->
  str_leb (isoformat a) (isoformat b) = negb (dt_ltb b a).
Proof.
  intros Ha Hb. unfold dt_ltb.
  rewrite str_leb_compare, lex_ltb_compare, (isoformat_compare a b Ha Hb).
  unfold dt_compare. rewrite (lex_compare_antisym (dt_fields a)).
  destruct (lex_compare (dt_fields a) (dt_fields b)); reflexivity.
Qed.

Lemma days_in_month_le y m : 1 <= m <= 12 -> days_in_month y m <= 31.
Proof.
  intros Hm. unfold days_in_month.
  destruct ((m =? 2) && is_leap y); [lia|].
  assert (H : m = 1 \/ m = 2 \/ m = 3 \/ m = 4 \/ m = 5 \/ m = 6 \/ m = 7
              \/ m = 8 \/ m = 9 \/ m = 10 \/ m = 11 \/ m = 12) by lia.
  repeat destruct H as [->|H]; try subst m; vm_compute; discriminate.
Qed.

(** What the [datetime] constructor accepts, [isoformat] prints in full. *)
Lemma valid_printable t : valid_datetime t = true -> printable t.
Proof.
  unfold valid_datetime, printable. intros H.
  repeat (apply andb_prop in H; destruct H as [H ?]).
  repeat match goal with
         | H : (_ <=? _) = true |- _ => apply Z.leb_le in H
         end.
  pose proof (days_in_month_le (year t) (month t) ltac:(lia)).
  lia.
Qed.

(** A reminder written by [add_reminder] is selected by the polls whose
    clock reading is not before its time. *)
Lemma new_row_due now clock t text tbl :
  valid_datetime t = true -> valid_datetime now = true ->
  is_due (isoformat now) (new_row tbl clock t text) = negb (dt_ltb now t).
Proof.
  intros Ht Hnow. unfold is_due, new_row. cbn [row_datetime row_notified].
  rewrite (str_leb_isoformat t now (valid_printable t Ht)
                             (valid_printable now Hnow)).
  apply andb_true_r.
Qed.

(* ================================================================= *)
(** ** Reminder loop: [_reminder_checker] *)


Lemma errors_app a b : errors (a ++ b) = errors a ++ errors b.
Proof. unfold errors. apply flat_map_app. Qed.


Lemma errors_announce due : errors (announce due) = [].
Proof. induction due; simpl; auto. Qed.




















(** The run of the example: the failed poll is logged, the next iteration
    announces the two due reminders, and in the third the notifier fails
    on the reminder that has fallen due: the loop logs it and sleeps. *)
Example reminder_loop_example :
  snd (reminder_checker 60 three_cycles three_reminders)
  = [ EvLogError LogReminders SqliteError; EvSleep 60;
      EvLogInfo (MsgReminder (utf8 "a")); EvSpeak (MsgReminder (utf8 "a"));
      EvLogInfo (MsgReminder (utf8 "b")); EvSpeak (MsgReminder (utf8 "b"));
      EvSleep 60;
      EvLogInfo (MsgReminder (utf8 "c"));
      EvLogError LogAssistant RuntimeError; EvSleep 60 ]
  /\ map row_notified
         (table (state_after 60 three_cycles three_reminders))
     = [1; 1; 1].
Proof. split; reflexivity. Qed.

(* ================================================================= *)
(** ** Capture session: [listen] *)

Lemma stop_after_cons ms mc s r f fs :
  stop_after ms mc s r (f :: fs)
  = stop_after ms mc (silence_step s f) (r + 1) fs.
Proof.
  unfold stop_after, silence_count. simpl.
  replace (r + Z.pos (Pos.of_succ_nat (List.length fs)))
    with (r + 1 + Z.of_nat (List.length fs)) by lia.
  reflexivity.
Qed.

(** One turn of the loop on a quiet frame: the counter moves as
    [silence_step] says, then the two stop tests are made. *)
Lemma listen_loop_quiet ms mc fr f rest s r :
  quiet_frame f = true ->
  listen_loop ms mc fr (f :: rest) s r
  = if stop_after ms mc s r [f] then Done (final_text fr (r + 1))
    else listen_loop ms mc fr rest (silence_step s f) (r + 1).
Proof.
  intros Hq. unfold stop_after, silence_count, budget_reached. simpl.
  destruct f as [[|x t]|[|x p]|e]; simpl in *; try discriminate;
    destruct (ms <=? _); simpl; try reflexivity;
    destruct mc as [mc|]; simpl; reflexivity.
Qed.

Lemma ends_at_succ ms mc fr s r f rest i res :
  quiet_frame f = true ->
  stop_after ms mc s r [f] = false ->
  ends_at ms mc fr s r (f :: rest) (S i) res
  <-> ends_at ms mc fr (silence_step s f) (r + 1) rest i res.
Proof.
  intros Hq Hst. unfold ends_at.
  change (nth_error (f :: rest) (S i)) with (nth_error rest i).
  rewrite !firstn_cons.
  change (quiet (f :: firstn i rest))
    with (quiet_frame f && quiet (firstn i rest)).
  rewrite Hq, andb_true_l.
  rewrite (stop_after_cons ms mc s r f (firstn (S i) rest)).
  replace (r + Z.of_nat (S (S i))) with (r + 1 + Z.of_nat (S i)) by lia.
  split; intros [H1 [H2 H3]]; (split; [exact H1|split; [|exact H3]]).
  - intros k Hk. rewrite <- stop_after_cons, <- firstn_cons.
    apply (H2 (S k)). lia.
  - intros [|k] Hk.
    + exact Hst.
    + rewrite firstn_cons, stop_after_cons. apply H2. lia.
Qed.

(** The loop, read off the script: it completes with [res] exactly when
    the session ends at some frame with [res]. *)
Lemma listen_loop_ends ms mc fr frames : forall s r res,
  listen_loop ms mc fr frames s r = Done res
  <-> exists i, ends_at ms mc fr s r frames i res.
Proof.
  induction frames as [|f rest IH]; intros s r res.
  - split; [discriminate|]. intros [i [_ [_ H]]].
    destruct i; simpl in H; contradiction.
  - destruct (quiet_frame f) eqn:Hq.
    + rewrite (listen_loop_quiet ms mc fr f rest s r Hq).
      destruct (stop_after ms mc s r [f]) eqn:Hst.
      * split.
        -- intros H. injection H as <-. exists 0%nat.
           split; [reflexivity|]. split; [intros k Hk; lia|].
           cbn [nth_error firstn]. rewrite Hst.
           destruct f as [[|x t]|p|e]; simpl in Hq; try discriminate;
             split; reflexivity.
        -- intros [[|i] [H1 [H2 H3]]].
           ++ cbn [nth_error firstn] in H3.
              destruct f as [[|x t]|p|e]; simpl in Hq; try discriminate;
                destruct H3 as [_ ->]; reflexivity.
           ++ specialize (H2 0%nat ltac:(lia)). cbn [firstn] in H2. congruence.
      * rewrite IH. split.
        -- intros [i Hi]. exists (S i).
           now apply (ends_at_succ ms mc fr s r f rest i res Hq Hst).
        -- intros [[|i] Hi].
           ++ destruct Hi as [_ [_ H3]]. cbn [nth_error firstn] in H3.
              destruct f as [[|x t]|p|e]; simpl in Hq; try discriminate;
                destruct H3 as [H3 _]; congruence.
           ++ exists i.
              now apply (ends_at_succ ms mc fr s r f rest i res Hq Hst).
    + split.
      * intros H. exists 0%nat. split; [reflexivity|].
        split; [intros k Hk; lia|]. cbn [nth_error].
        destruct f as [[|x t]|p|e]; simpl in Hq; try discriminate;
          simpl in H; now injection H as <-.
      * intros [[|i] [H1 [H2 H3]]].
        -- cbn [nth_error] in H3.
           destruct f as [[|x t]|p|e]; simpl in Hq; try discriminate;
             subst res; reflexivity.
        -- cbn [firstn quiet forallb] in H1. rewrite Hq in H1. discriminate.
Qed.

(** C4 (as amended): the silence counter moves as [silence_step] says -- a
    partial result with text resets it, a silent frame increments it -- and
    [listen] returns [None] exactly when, before any final text is
    observed, either the loop stops at some frame, because the silence
    counter has reached [max_silence_chunks] or the frame count has
    reached the budget of [timeout], and the final result read from the
    recognizer at that point has no text (or reading it fails), or a frame
    fails with an [Exception]. *)
Theorem listen_none_iff c timeout fr frames ms mc :
  chunks_of c (silence_timeout c) = Returned ms ->
  max_chunks_of c timeout = Returned mc ->
  listen c timeout (Returned tt) fr frames = Done (Returned None)
  <-> exists i,
      quiet (firstn i frames) = true
      /\ (forall k, (k < i)%nat ->
                    stop_after ms mc 0 0 (firstn (S k) frames) = false)
      /\ ((exists e, nth_error frames i = Some (FrameError e)
                     /\ is_Exception e = true)
          \/ (exists f, nth_error frames i = Some f
                        /\ quiet_frame f = true
                        /\ stop_after ms mc 0 0 (firstn (S i) frames) = true
                        /\ gives_None (final_text fr (Z.of_nat (S i)))
                           = true)).
Proof.
  intros Hms Hmc. unfold listen, listen_try. rewrite Hms, Hmc.
  split.
  - intros H.
    destruct (listen_loop ms mc fr frames 0 0) as [res|] eqn:E;
      [|discriminate].
    assert (Hres : gives_None res = true).
    { destruct res as [[t|]|e]; simpl; try reflexivity.
      - discriminate.
      - destruct (is_Exception e); [reflexivity|discriminate]. }
    apply listen_loop_ends in E. destruct E as [i [H1 [H2 H3]]].
    exists i. split; [exact H1|]. split; [exact H2|].
    destruct (nth_error frames i) as [[[|x t]|p|e]|] eqn:En;
      try contradiction.
    + right. exists (FrameFinal []). destruct H3 as [H3 ->].
      repeat split; assumption.
    + subst res. discriminate.
    + right. exists (FramePartial p). destruct H3 as [H3 ->].
      repeat split; assumption.
    + left. exists e. subst res. split; [reflexivity|exact Hres].
  - intros [i [H1 [H2 H3]]].
    assert (E : exists res, listen_loop ms mc fr frames 0 0 = Done res
                            /\ gives_None res = true).
    { destruct H3 as [[e [En He]]|[f [En [Hq [Hst Hg]]]]].
      - exists (Raised e). split; [|exact He].
        apply listen_loop_ends. exists i. split; [exact H1|].
        split; [exact H2|]. now rewrite En.
      - exists (final_text fr (Z.of_nat (S i))). split; [|exact Hg].
        apply listen_loop_ends. exists i. split; [exact H1|].
        split; [exact H2|]. rewrite En.
        destruct f as [[|x t]|p|e]; simpl in Hq; try discriminate;
          split; auto. }
    destruct E as [res [-> Hg]].
    destruct res as [[t|]|e]; simpl in Hg; try discriminate;
      [reflexivity|now rewrite Hg].
Qed.

Lemma listen_none_iff_witness :
  listen capture_config (Some (1 # 2)) (Returned tt) no_final_text
         [FramePartial []; FramePartial []]
  = Done (Returned None)
  <-> exists i,
      quiet (firstn i [FramePartial []; FramePartial []]) = true
      /\ (forall k, (k < i)%nat ->
                    stop_after 6 (Some 2) 0 0
                      (firstn (S k) [FramePartial []; FramePartial []])
                    = false)
      /\ ((exists e, nth_error [FramePartial []; FramePartial []] i
                     = Some (FrameError e)
                     /\ is_Exception e = true)
          \/ (exists f, nth_error [FramePartial []; FramePartial []] i = Some f
                        /\ quiet_frame f = true
                        /\ stop_after 6 (Some 2) 0 0
                             (firstn (S i) [FramePartial []; FramePartial []])
                           = true
                        /\ gives_None (final_text no_final_text (Z.of_nat (S i)))
                           = true)).
Proof.
  apply (listen_none_iff capture_config (Some (1 # 2)) no_final_text
           [FramePartial []; FramePartial []] 6 (Some 2)); reflexivity.
Defined.

(** C4 as stated fails: with [max_silence_chunks = 6] and a budget of two
    frames, two silent frames end the session with [None] although the
    silence counter never reaches 6. *)
Lemma listen_none_without_silence :
  chunks_of capture_config (silence_timeout capture_config) = Returned 6
  /\ ~ (listen capture_config (Some (1 # 2)) (Returned tt) no_final_text
               [FramePartial []; FramePartial []]
        = Done (Returned None)
        <-> silence_reached 6 [FramePartial []; FramePartial []]).
Proof.
  split; [reflexivity|]. intros [H _].
  destruct (H eq_refl) as [n [Hn [_ Hs]]].
  destruct n as [|[|[|n]]]; simpl in Hn; try lia;
    vm_compute in Hs; exact (Hs eq_refl).
Qed.

(** The other half fails too: the counter reaches the limit, and the text
    the recognizer has accumulated is returned. *)
Example listen_text_after_silence :
  silence_reached 1 [FramePartial []]
  /\ listen {| sample_rate := 16000; chunk_size := 16000;
               silence_timeout := 1 |}
            None (Returned tt) (fun _ => Returned (utf8 "привет"))
            [FramePartial []]
     = Done (Returned (Some (utf8 "привет"))).
Proof.
  split; [|reflexivity].
  exists 1%nat. split; [simpl; lia|]. split; [reflexivity|].
  vm_compute. discriminate.
Qed.

(* ================================================================= *)
(** ** Time expressions: the matcher *)

Section Matcher.
Context {U : Interpreter}.

Lemma strip_prefix_app l s : strip_prefix l (l ++ s) = Some s.
Proof. induction l; simpl; auto. now rewrite N.eqb_refl. Qed.

Lemma strip_prefix_sound l : forall s s',
  strip_prefix l s = Some s' -> s = l ++ s'.
Proof.
  induction l as [|x l IH]; intros [|y s] s'; simpl; try discriminate.
  - now injection 1 as <-.
  - now injection 1 as <-.
  - destruct (N.eqb_spec x y) as [->|]; [|discriminate].
    intros H. now rewrite (IH _ _ H).
Qed.

(** What [X+] took: a non-empty run of the class, handed to the
    continuation with the rest. *)
Lemma greedy_plus_sound {R} p (k : str -> str -> option R) s :
  forall taken r,
    greedy_plus p k taken s = Some r ->
    exists run rest,
      s = run ++ rest /\ run <> []
      /\ Forall (fun x => p x = true) run
      /\ k (taken ++ run) rest = Some r.
Proof.
  induction s as [|c s IH]; intros taken r; simpl; [discriminate|].
  destruct (p c) eqn:Hc; [|discriminate].
  destruct (greedy_plus p k (taken ++ [c]) s) as [r'|] eqn:E.
  - injection 1 as <-.
    destruct (IH _ _ E) as [run [rest [-> [_ [Hall Hk]]]]].
    exists (c :: run), rest. rewrite <- app_assoc in Hk.
    repeat split; auto. discriminate.
  - intros Hk. exists [c], s. repeat split; auto. discriminate.
Qed.

(** If the continuation accepts after some non-empty run of the class,
    [X+] finds a match (after that run or a longer one). *)
Lemma greedy_plus_complete {R} p (k : str -> str -> option R) run :
  forall taken rest,
    run <> [] ->
    Forall (fun x => p x = true) run ->
    k (taken ++ run) rest <> None ->
    greedy_plus p k taken (run ++ rest) <> None.
Proof.
  induction run as [|c run IH]; intros taken rest Hne Hall Hk;
    [congruence|].
  inversion Hall as [|? ? Hc Hall']; subst. simpl. rewrite Hc.
  destruct (greedy_plus p k (taken ++ [c]) (run ++ rest)) eqn:E;
    [discriminate|].
  destruct run as [|c' run].
  - exact Hk.
  - exfalso. revert E. apply IH; [discriminate|exact Hall'|].
    now rewrite <- app_assoc.
Qed.

Lemma match_here_sound re : forall s gs post,
  match_here re s = Some (gs, post) ->
  exists w, s = w ++ post /\ matches re w gs.
Proof.
  induction re as [|[l|capture c] re IH]; intros s gs post; simpl.
  - injection 1 as <- <-. exists []. split; [reflexivity|constructor].
  - destruct (strip_prefix l s) as [s'|] eqn:E; [|discriminate].
    intros H. destruct (IH _ _ _ H) as [w [-> Hw]].
    apply strip_prefix_sound in E. subst s.
    exists (l ++ w). split; [now rewrite app_assoc|now constructor].
  - intros H. apply greedy_plus_sound in H.
    destruct H as [run [rest [-> [Hne [Hall Hk]]]]].
    destruct (match_here re rest) as [[gs' post']|] eqn:E; [|discriminate].
    injection Hk as <- <-.
    destruct (IH _ _ _ E) as [w [-> Hw]].
    exists (run ++ w). split; [now rewrite app_assoc|].
    now constructor.
Qed.

Lemma match_here_complete re w gs :
  matches re w gs -> forall post, match_here re (w ++ post) <> None.
Proof.
  induction 1 as [|l re w gs Hm IH|capture c re run w gs Hne Hall Hm IH];
    intros post; simpl.
  - discriminate.
  - rewrite <- app_assoc, strip_prefix_app. apply IH.
  - rewrite <- app_assoc. apply greedy_plus_complete; auto.
    specialize (IH post).
    destruct (match_here re (w ++ post)) as [[gs' post']|];
      [discriminate|congruence].
Qed.

Lemma search_from_sound re : forall s acc m,
  search_from re acc s = Some m ->
  exists w, rev acc ++ s = m_pre m ++ w ++ m_post m
            /\ matches re w (m_groups m).
Proof.
  induction s as [|c s IH]; intros acc m; simpl.
  - destruct (match_here re []) as [[gs post]|] eqn:E; [|discriminate].
    injection 1 as <-. simpl.
    destruct (match_here_sound _ _ _ _ E) as [w [Hw Hm]].
    exists w. split; [now rewrite Hw|exact Hm].
  - destruct (match_here re (c :: s)) as [[gs post]|] eqn:E.
    + injection 1 as <-. simpl.
      destruct (match_here_sound _ _ _ _ E) as [w [Hw Hm]].
      exists w. split; [now rewrite Hw|exact Hm].
    + intros H. destruct (IH _ _ H) as [w [Hw Hm]].
      exists w. split; [|exact Hm]. rewrite <- Hw. simpl.
      now rewrite <- app_assoc.
Qed.

(** [re.search] returns a match of the pattern, and the text around it. *)
Lemma re_search_sound re s m :
  re_search re s = Some m ->
  exists w, s = m_pre m ++ w ++ m_post m /\ matches re w (m_groups m).
Proof. intros H. exact (search_from_sound re s [] m H). Qed.

Lemma search_from_complete re pre : forall acc w gs post,
  matches re w gs ->
  search_from re acc (pre ++ w ++ post) <> None.
Proof.
  induction pre as [|c pre IH]; intros acc w gs post Hm.
  - pose proof (match_here_complete re w gs Hm post) as H.
    simpl. destruct (w ++ post) as [|c s]; simpl;
      destruct (match_here re _) as [[gs' post']|]; congruence.
  - simpl. destruct (match_here re (c :: pre ++ w ++ post)) as [[gs' post']|];
      [discriminate|]. now apply (IH _ w gs).
Qed.

(** [re.search] finds a match whenever the pattern occurs. *)
Lemma re_search_complete re s :
  occurs re s -> re_search re s <> None.
Proof.
  intros [pre [w [post [gs [-> Hm]]]]].
  now apply (search_from_complete re pre [] w gs).
Qed.

(** [re.sub(pattern, '', s, count=1)] removes the match [re.search]
    found. *)
Lemma re_sub_first_search re s m :
  re_search re s = Some m -> re_sub_first re s = m_pre m ++ m_post m.
Proof. intros H. unfold re_sub_first. now rewrite H. Qed.

End Matcher.

(* ================================================================= *)
(** ** Time expressions: [parse_reminder_from_text] *)

Section ParseFacts.
Context {U : Interpreter}.

Lemma int_digits_returns s : forall acc,
  0 <= acc ->
  Forall (fun x => isdigit x = true) s ->
  exists n, int_digits acc s = Returned n /\ 0 <= n.
Proof.
  induction s as [|c s IH]; intros acc Hacc Hall; cbn [int_digits].
  - now exists acc.
  - inversion Hall as [|? ? Hc Hall']; subst.
    unfold isdigit in Hc. destruct (decimal c) as [d|]; [|discriminate].
    apply IH; [lia|exact Hall'].
Qed.

(** [int()] of a captured [(\d+)] group within the length limit is a
    natural number. *)
Lemma py_int_digits s :
  s <> [] ->
  Forall (fun x => in_cls ClsDigit x = true) s ->
  within_int_limit s ->
  exists n, py_int s = Returned n /\ 0 <= n.
Proof.
  intros Hne Hall Hlim. unfold py_int. destruct s as [|c s]; [congruence|].
  replace ((0 <? int_max_str_digits)
           && (int_max_str_digits <? List.length (c :: s)))%nat with false.
  - apply int_digits_returns; [lia|exact Hall].
  - symmetry. apply andb_false_iff. destruct Hlim as [H0|Hle].
    + left. rewrite H0. reflexivity.
    + right. apply Nat.ltb_ge. exact Hle.
Qed.

Lemma int_digits_nonneg s : forall acc n,
  0 <= acc -> int_digits acc s = Returned n -> 0 <= n.
Proof.
  induction s as [|c s IH]; intros acc n Hacc; cbn [int_digits].
  - now injection 1 as <-.
  - destruct (decimal c) as [d|]; [|discriminate]. apply IH. lia.
Qed.

(** What [int()] returns for a digit string is not negative. *)
Lemma py_int_nonneg s n : py_int s = Returned n -> 0 <= n.
Proof.
  unfold py_int. destruct s as [|c s]; [discriminate|].
  destruct (_ && _)%nat; [discriminate|].
  apply int_digits_nonneg. lia.
Qed.

Ltac invert_matches :=
  repeat match goal with
         | H : matches (_ :: _) _ _ |- _ => inversion H; clear H; subst
         | H : matches [] _ _ |- _ => inversion H; clear H; subst
         end.

(** The shape of a match of [в\s+(\d+):(\d+)]. *)
Lemma matches_v_vremya w gs :
  matches re_v_vremya w gs ->
  exists sp g1 g2,
    w = utf8 "в" ++ sp ++ g1 ++ utf8 ":" ++ g2
    /\ gs = [g1; g2]
    /\ g1 <> [] /\ Forall (fun x => in_cls ClsDigit x = true) g1
    /\ g2 <> [] /\ Forall (fun x => in_cls ClsDigit x = true) g2.
Proof.
  unfold re_v_vremya, ws, digits. intros H. invert_matches.
  rewrite app_nil_r. repeat eexists; eauto.
Qed.

(** Both groups of a [в HH:MM] match are numbers, unless longer than the
    interpreter allows. *)
Lemma v_vremya_groups s m :
  re_search re_v_vremya s = Some m ->
  within_int_limit (group m 1) -> within_int_limit (group m 2) ->
  exists h mi,
    py_int (group m 1) = Returned h /\ py_int (group m 2) = Returned mi
    /\ 0 <= h /\ 0 <= mi.
Proof.
  intros H. apply re_search_sound in H. destruct H as [w [_ Hm]].
  apply matches_v_vremya in Hm.
  destruct Hm as [sp [g1 [g2 [_ [Hgs [H1 [D1 [H2 D2]]]]]]]].
  unfold group. rewrite Hgs. simpl. intros L1 L2.
  destruct (py_int_digits g1 H1 D1 L1) as [h [Eh Hh]].
  destruct (py_int_digits g2 H2 D2 L2) as [mi [Emi Hmi]].
  now exists h, mi.
Qed.

(** Wherever [завтра\s+в\s+(\d+):(\d+)] occurs, [в\s+(\d+):(\d+)]
    occurs too. *)
Lemma zavtra_v_contains_v_vremya s :
  occurs re_zavtra_v s -> occurs re_v_vremya s.
Proof.
  intros [pre [w [post [gs [-> Hm]]]]].
  unfold re_zavtra_v, ws, digits in Hm. invert_matches.
  match goal with
  | |- occurs _ (pre ++ (?z ++ ?sp1 ++ ?v ++ ?sp2 ++ ?g1 ++ ?c ++ ?g2 ++ [])
                  ++ post) =>
    exists (pre ++ z ++ sp1), (v ++ sp2 ++ g1 ++ c ++ g2 ++ []), post,
           [g1; g2]
  end.
  split.
  - now rewrite <- !app_assoc.
  - unfold re_v_vremya, ws, digits.
    apply matches_lit.
    apply (matches_plus false ClsSpace); auto.
    apply (matches_plus true ClsDigit); auto.
    apply matches_lit.
    apply (matches_plus true ClsDigit _ _ [] []); auto. constructor.
Qed.

Lemma re_search_occurs re s m : re_search re s = Some m -> occurs re s.
Proof.
  intros H. apply re_search_sound in H. destruct H as [w [Hs Hm]].
  now exists (m_pre m), w, (m_post m), (m_groups m).
Qed.

(** The ['завтра_в'] entry of the dictionary is never reached: whenever
    its pattern matches, the ['в_время'] pattern before it matches. *)
Lemma zavtra_v_shadowed s m :
  re_search re_zavtra_v s = Some m -> re_search re_v_vremya s <> None.
Proof.
  intros H. apply re_search_complete, zavtra_v_contains_v_vremya.
  exact (re_search_occurs _ _ _ H).
Qed.

Lemma parse_loop_first_match ps text text_lower now :
  parse_loop ps text text_lower now
  = match first_match_in ps text_lower with
    | Some (name, re, m) => resolve name re m text_lower now
    | None => Returned (None, text)
    end.
Proof.
  induction ps as [|[name re] ps IH]; simpl; [reflexivity|].
  destruct (re_search re text_lower); [reflexivity|exact IH].
Qed.

Lemma first_match_in_search ps s name re m :
  first_match_in ps s = Some (name, re, m) ->
  In (name, re) ps /\ re_search re s = Some m.
Proof.
  induction ps as [|[name' re'] ps IH]; simpl; [discriminate|].
  destruct (re_search re' s) as [m'|] eqn:E.
  - injection 1 as -> -> ->. split; [now left|exact E].
  - intros H. destruct (IH H) as [Hin Hs]. split; [now right|exact Hs].
Qed.

(** The dictionary behaves as if it had only its first three entries. *)
Lemma zavtra_v_unreachable now text :
  parse_reminder_from_text now text
  = parse_loop (firstn 3 patterns) text (lower text) now.
Proof.
  unfold parse_reminder_from_text, patterns. simpl.
  destruct (re_search re_cherez_minut (lower text)); [reflexivity|].
  destruct (re_search re_cherez_chasov (lower text)); [reflexivity|].
  destruct (re_search re_v_vremya (lower text)) eqn:E3; [reflexivity|].
  destruct (re_search re_zavtra_v (lower text)) eqn:E4; [|reflexivity].
  exfalso. exact (zavtra_v_shadowed _ _ E4 E3).
Qed.

(** Whatever the rule, a result carries a time and the lower-cased text
    without the matched span, trimmed. *)
Lemma resolve_text name re m text_lower now r :
  re_search re text_lower = Some m ->
  resolve name re m text_lower now = Returned r ->
  exists t, r = (Some t, strip (m_pre m ++ m_post m)).
Proof.
  intros Hs. rewrite <- (re_sub_first_search _ _ _ Hs).
  unfold resolve, bind.
  destruct name;
    repeat match goal with
           | |- context [match ?x with Returned _ => _ | Raised _ => _ end] =>
             lazymatch x with
             | context [match _ with Returned _ => _ | Raised _ => _ end] =>
               fail
             | _ => destruct x eqn:?; try discriminate
             end
           | |- context [if ?b then _ else _] => destruct b eqn:?
           end;
    injection 1 as <-; eexists; reflexivity.
Qed.

End ParseFacts.

(* ================================================================= *)
(** ** Calendar: the day after *)

Lemma month_day_all leap :
  forallb (fun k => month_day_check leap (Z.of_nat k)) (seq 0 366) = true.
Proof. destruct leap; vm_compute; reflexivity. Qed.

Lemma month_day_ok leap n : 0 <= n <= 365 -> month_day_check leap n = true.
Proof.
  intros Hn. pose proof (month_day_all leap) as H.
  rewrite forallb_forall in H. specialize (H (Z.to_nat n)).
  rewrite Z2Nat.id in H by lia. apply H. apply in_seq. lia.
Qed.

Lemma year_days a b c e :
  0 <= a -> 0 <= b <= 3 -> 0 <= c <= 24 -> 0 <= e <= 3 ->
  days_before_year (400 * a + 100 * b + 4 * c + e + 1)
  = 146097 * a + 36524 * b + 1461 * c + 365 * e.
Proof.
  intros. unfold days_before_year.
  Z.div_mod_to_equations. lia.
Qed.

Lemma leap_year_flag a b c e :
  0 <= a -> 0 <= b <= 3 -> 0 <= c <= 24 -> 0 <= e <= 3 ->
  is_leap (400 * a + 100 * b + 4 * c + e + 1)
  = (e =? 3) && (negb (c =? 24) || (b =? 3)).
Proof.
  intros Ha Hb Hc He. unfold is_leap.
  set (y := 400 * a + 100 * b + 4 * c + e + 1).
  destruct (Z.eqb_spec (y mod 4) 0), (Z.eqb_spec (y mod 100) 0),
    (Z.eqb_spec (y mod 400) 0), (Z.eqb_spec e 3), (Z.eqb_spec c 24),
    (Z.eqb_spec b 3); simpl; try reflexivity; exfalso; unfold y in *;
    Z.div_mod_to_equations; lia.
Qed.

(** [_ymd2ord] undoes [_ord2ymd]. *)
Lemma ymd2ord_ord2ymd n :
  1 <= n ->
  ymd2ord (fst (fst (ord2ymd n))) (snd (fst (ord2ymd n))) (snd (ord2ymd n)) = n.
Proof.
  intros Hn. unfold ord2ymd, DI400Y, DI100Y, DI4Y.
  set (n0 := n - 1).
  set (a := n0 / 146097). set (r1 := n0 mod 146097).
  set (b := r1 / 36524). set (r2 := r1 mod 36524).
  set (c := r2 / 1461). set (r3 := r2 mod 1461).
  set (e := r3 / 365). set (r4 := r3 mod 365).
  assert (H1 : n0 = 146097 * a + r1 /\ 0 <= r1 < 146097 /\ 0 <= a)
    by (unfold a, r1; Z.div_mod_to_equations; lia).
  assert (H2 : r1 = 36524 * b + r2 /\ 0 <= r2 < 36524 /\ 0 <= b <= 4)
    by (unfold b, r2; Z.div_mod_to_equations; lia).
  assert (H3 : r2 = 1461 * c + r3 /\ 0 <= r3 < 1461 /\ 0 <= c <= 24)
    by (unfold c, r3; Z.div_mod_to_equations; lia).
  assert (H4 : r3 = 365 * e + r4 /\ 0 <= r4 < 365 /\ 0 <= e <= 4)
    by (unfold e, r4; Z.div_mod_to_equations; lia).
  clearbody a r1 b r2 c r3 e r4.
  destruct (Z.eqb_spec e 4) as [He|He]; [|destruct (Z.eqb_spec b 4) as [Hb|Hb]];
    cbn [orb fst snd].
  - (* the last day of a leap year *)
    assert (Hc : c <= 23) by lia.
    replace (a * 400 + 1 + b * 100 + c * 4 + e - 1)
      with (400 * a + 100 * b + 4 * c + 3 + 1) by lia.
    unfold ymd2ord, days_before_month.
    rewrite year_days, leap_year_flag by lia.
    replace (c =? 24) with false by (symmetry; apply Z.eqb_neq; lia).
    change (3 =? 3) with true. cbn [negb orb andb].
    change (2 <? 12) with true. cbn [andb b2z].
    change (nth (Z.to_nat 12) DAYS_BEFORE_MONTH 0) with 334.
    unfold n0 in *. lia.
  - (* the last day of a 400-year cycle *)
    replace (a * 400 + 1 + b * 100 + c * 4 + e - 1)
      with (400 * a + 100 * 3 + 4 * 24 + 3 + 1) by lia.
    unfold ymd2ord, days_before_month.
    rewrite year_days, leap_year_flag by lia.
    change ((3 =? 3) && (negb (24 =? 24) || (3 =? 3))) with true.
    change (2 <? 12) with true. cbn [andb b2z].
    change (nth (Z.to_nat 12) DAYS_BEFORE_MONTH 0) with 334.
    unfold n0 in *. lia.
  - (* any other day *)
    replace (a * 400 + 1 + b * 100 + c * 4 + e)
      with (400 * a + 100 * b + 4 * c + e + 1) by lia.
    set (leap := (e =? 3) && (negb (c =? 24) || (b =? 3))).
    pose proof (month_day_ok leap r4 ltac:(lia)) as Hmd.
    unfold month_day_check in Hmd.
    set (m := (r4 + 50) / 32) in *.
    set (preceding := nth (Z.to_nat m) DAYS_BEFORE_MONTH 0
                      + b2z ((2 <? m) && leap)) in *.
    destruct (r4 <? preceding); cbn [fst snd] in *;
      unfold ymd2ord, days_before_month;
      rewrite year_days, leap_year_flag by lia; fold leap;
      repeat (apply andb_prop in Hmd; destruct Hmd as [Hmd ?]);
      match goal with H : (_ =? _) = true |- _ => apply Z.eqb_eq in H end;
      unfold n0 in *; lia.
Qed.

(** The date of [tomorrow_at] is the day after today's, the time of day is
    the one asked for. *)
Lemma tomorrow_at_next_day now h mi :
  0 <= toordinal now ->
  toordinal (tomorrow_at now h mi) = toordinal now + 1
  /\ hour (tomorrow_at now h mi) = h
  /\ minute (tomorrow_at now h mi) = mi
  /\ second (tomorrow_at now h mi) = 0
  /\ microsecond (tomorrow_at now h mi) = 0.
Proof.
  intros Hord. unfold tomorrow_at.
  pose proof (ymd2ord_ord2ymd (toordinal now + 1) ltac:(lia)) as H.
  destruct (ord2ymd (toordinal now + 1)) as [[y m] d].
  repeat split. exact H.
Qed.

Lemma clock_seconds h mi :
  0 <= h <= 23 -> 0 <= mi <= 59 ->
  let s := h * 3600 + mi * 60 + 0 + 0 + (0 + 0) / 1000000 in
  s / 86400 = 0 /\ (s mod 86400) / 3600 = h
  /\ ((s mod 86400) mod 3600) / 60 = mi
  /\ ((s mod 86400) mod 3600) mod 60 = 0.
Proof.
  intros Hh Hmi s.
  assert (Hs : s = h * 3600 + mi * 60)
    by (unfold s; change ((0 + 0) / 1000000) with 0; lia).
  assert (H0 : s / 86400 = 0) by (apply Z.div_small; lia).
  assert (H1 : s mod 86400 = s) by (apply Z.mod_small; lia).
  rewrite H1.
  assert (H2 : s / 3600 = h)
    by (symmetry; apply (Z.div_unique s 3600 h (mi * 60)); lia).
  assert (H3 : s mod 3600 = mi * 60)
    by (symmetry; apply (Z.mod_unique s 3600 h (mi * 60)); lia).
  rewrite H3. repeat split; auto.
  - apply Z.div_mul. lia.
  - apply Z.mod_mul. lia.
Qed.

(** One day added to today's [h]:[mi]:00 is tomorrow's [h]:[mi]:00. *)
Lemma dt_add_one_day now h mi :
  0 <= h <= 23 -> 0 <= mi <= 59 ->
  1 <= toordinal now < MAXORDINAL ->
  (delta <- mk_timedelta 1 0 0 ;; dt_add (today_at now h mi) delta)
  = Returned (tomorrow_at now h mi).
Proof.
  intros Hh Hmi Hord.
  change (mk_timedelta 1 0 0)
    with (Returned {| td_days := 1; td_seconds := 0; td_microseconds := 0 |}).
  unfold bind, dt_add, today_at, tomorrow_at.
  cbn [hour minute second microsecond td_days td_seconds td_microseconds].
  change (toordinal {| year := year now; month := month now; day := day now;
                       hour := h; minute := mi; second := 0;
                       microsecond := 0 |})
    with (toordinal now).
  destruct (clock_seconds h mi Hh Hmi) as [H0 [H1 [H2 H3]]].
  cbv zeta in H0, H1, H2, H3. rewrite H0, H1, H2, H3.
  replace (toordinal now + 1 + 0) with (toordinal now + 1) by lia.
  replace ((0 <? toordinal now + 1) && (toordinal now + 1 <=? MAXORDINAL))
    with true
    by (symmetry; apply andb_true_intro; split;
        [apply Z.ltb_lt|apply Z.leb_le]; lia).
  destruct (ord2ymd (toordinal now + 1)) as [[y m] d]. reflexivity.
Qed.

Lemma replace_hm_valid now h mi :
  0 <= h <= 23 -> 0 <= mi <= 59 ->
  replace_hm now h mi = Returned (today_at now h mi).
Proof.
  intros Hh Hmi. unfold replace_hm.
  replace ((0 <=? h) && (h <=? 23)) with true
    by (symmetry; apply andb_true_intro; split; apply Z.leb_le; lia).
  replace ((0 <=? mi) && (mi <=? 59)) with true
    by (symmetry; apply andb_true_intro; split; apply Z.leb_le; lia).
  reflexivity.
Qed.

Section ParseRules.
Context {U : Interpreter}.

(** What the ['в_время'] branch returns for a valid time of day. *)
Lemma resolve_v_vremya m text_lower now h mi :
  re_search re_v_vremya text_lower = Some m ->
  py_int (group m 1) = Returned h ->
  py_int (group m 2) = Returned mi ->
  0 <= h <= 23 -> 0 <= mi <= 59 ->
  1 <= toordinal now < MAXORDINAL ->
  resolve v_vremya re_v_vremya m text_lower now
  = Returned (Some (if dt_ltb (today_at now h mi) now
                    then tomorrow_at now h mi else today_at now h mi),
              strip (m_pre m ++ m_post m)).
Proof.
  intros Hs Eh Emi Hh Hmi Hord.
  unfold resolve. rewrite Eh, Emi. cbn [bind].
  rewrite (replace_hm_valid now h mi Hh Hmi). cbn [bind].
  rewrite (re_sub_first_search _ _ _ Hs).
  destruct (dt_ltb (today_at now h mi) now).
  - rewrite (dt_add_one_day now h mi Hh Hmi Hord). reflexivity.
  - reflexivity.
Qed.

(** The ['в_время'] rule at work: no earlier pattern matches, the time of
    day is valid. *)
Lemma parse_v_vremya now text m h mi :
  re_search re_cherez_minut (lower text) = None ->
  re_search re_cherez_chasov (lower text) = None ->
  re_search re_v_vremya (lower text) = Some m ->
  py_int (group m 1) = Returned h ->
  py_int (group m 2) = Returned mi ->
  h <= 23 -> mi <= 59 ->
  1 <= toordinal now < MAXORDINAL ->
  parse_reminder_from_text now text
  = Returned (Some (if dt_ltb (today_at now h mi) now
                    then tomorrow_at now h mi else today_at now h mi),
              strip (m_pre m ++ m_post m)).
Proof.
  intros E1 E2 E3 Eh Emi Hh Hmi Hord.
  pose proof (py_int_nonneg _ _ Eh) as H0.
  pose proof (py_int_nonneg _ _ Emi) as H1.
  unfold parse_reminder_from_text, patterns. cbn [parse_loop].
  rewrite E1, E2, E3.
  apply resolve_v_vremya; auto; lia.
Qed.

(** C8: when neither ['через N минут'] nor ['через N час'] matches and
    ['в HH:MM'] does, with a valid time of day, the parser returns today
    at HH:MM:00, and the same time on the day after if that instant is
    before [now]; the text is the lower-cased input without the matched
    span, trimmed. *)
Theorem at_time_rule now text m h mi :
  re_search re_cherez_minut (lower text) = None ->
  re_search re_cherez_chasov (lower text) = None ->
  re_search re_v_vremya (lower text) = Some m ->
  py_int (group m 1) = Returned h ->
  py_int (group m 2) = Returned mi ->
  h <= 23 -> mi <= 59 ->
  1 <= toordinal now < MAXORDINAL ->
  parse_reminder_from_text now text
  = Returned (Some (if dt_ltb (today_at now h mi) now
                    then tomorrow_at now h mi else today_at now h mi),
              strip (m_pre m ++ m_post m))
  /\ toordinal (today_at now h mi) = toordinal now
  /\ toordinal (tomorrow_at now h mi) = toordinal now + 1.
Proof.
  intros E1 E2 E3 Eh Emi Hh Hmi Hord.
  split; [|split].
  - now apply parse_v_vremya.
  - reflexivity.
  - apply tomorrow_at_next_day. lia.
Qed.

End ParseRules.

Lemma at_time_rule_witness :
  parse_reminder_from_text (U := latin_cyrillic) eight_pm
    (utf8 "напомни в 8:00 зарядку")
  = Returned (Some (if dt_ltb (today_at eight_pm 8 0) eight_pm
                    then tomorrow_at eight_pm 8 0 else today_at eight_pm 8 0),
              strip (U := latin_cyrillic)
                    (utf8 "напомни " ++ utf8 " зарядку"))
  /\ toordinal (today_at eight_pm 8 0) = toordinal eight_pm
  /\ toordinal (tomorrow_at eight_pm 8 0) = toordinal eight_pm + 1.
Proof.
  apply (at_time_rule (U := latin_cyrillic) eight_pm
           (utf8 "напомни в 8:00 зарядку")
           {| m_pre := utf8 "напомни "; m_groups := [utf8 "8"; utf8 "00"];
              m_post := utf8 " зарядку" |} 8 0).
  - reflexivity.
  - reflexivity.
  - reflexivity.
  - reflexivity.
  - reflexivity.
  - lia.
  - lia.
  - split; [apply Z.leb_le|apply Z.ltb_lt]; reflexivity.
Defined.

(** The example of the specification: at 20:00 on 10 March,
    "напомни в 8:00 зарядку" is for 08:00 on 11 March. *)
Example at_time_rollover_example :
  parse_reminder_from_text (U := latin_cyrillic) eight_pm
    (utf8 "напомни в 8:00 зарядку")
  = Returned (Some {| year := 2024; month := 3; day := 11; hour := 8;
                      minute := 0; second := 0; microsecond := 0 |},
              utf8 "напомни  зарядку").
Proof. reflexivity. Qed.

(** Before 08:00 the same command is for today. *)
Example at_time_today_example :
  parse_reminder_from_text (U := latin_cyrillic)
    {| year := 2024; month := 3; day := 10; hour := 7; minute := 59;
       second := 59; microsecond := 999999 |}
    (utf8 "напомни в 8:00 зарядку")
  = Returned (Some {| year := 2024; month := 3; day := 10; hour := 8;
                      minute := 0; second := 0; microsecond := 0 |},
              utf8 "напомни  зарядку").
Proof. reflexivity. Qed.

(** Digits that are not a time of day make [datetime.replace] raise. *)
Example at_time_invalid_example :
  parse_reminder_from_text (U := latin_cyrillic) eight_pm
    (utf8 "напомни в 25:00 зарядку")
  = Raised ValueError.
Proof. reflexivity. Qed.

Section ParseClaims.
Context {U : Interpreter}.


(** C10: when no pattern matches the lower-cased text, the parser
    returns the original text unchanged (and no time); when one does, the
    text of every result is cut from the lower-cased input -- the part
    before the match followed by the part after it, trimmed -- never from
    the original. *)
Theorem reminder_text_from_lowercase now text :
  match first_match (lower text) with
  | None => parse_reminder_from_text now text = Returned (None, text)
  | Some (_, _, m) =>
    (exists w, w <> [] /\ lower text = m_pre m ++ w ++ m_post m)
    /\ ((exists e, parse_reminder_from_text now text = Raised e)
        \/ (exists t, parse_reminder_from_text now text
                      = Returned (Some t, strip (m_pre m ++ m_post m))))
  end.
Proof.
  unfold parse_reminder_from_text, first_match.
  rewrite parse_loop_first_match.
  destruct (first_match_in patterns (lower text)) as [[[name re] m]|] eqn:E;
    [|reflexivity].
  apply first_match_in_search in E. destruct E as [Hin Hs]. split.
  - destruct (re_search_sound _ _ _ Hs) as [w [Hw Hm]].
    exists w. split; [|exact Hw].
    unfold patterns in Hin. simpl in Hin.
    destruct Hin as [H|[H|[H|[H|[]]]]]; injection H as <- <-;
      inversion Hm; subst; discriminate.
  - destruct (resolve name re m (lower text) now) as [r|e] eqn:Er.
    + right. destruct (resolve_text _ _ _ _ _ _ Hs Er) as [t ->].
      now exists t.
    + left. now exists e.
Qed.



End ParseClaims.



(** In the evening the same command does land on the next day, by the
    roll-over of the ['в_время'] rule. *)
Example tomorrow_phrase_in_the_evening :
  parse_reminder_from_text (U := latin_cyrillic) eight_pm call_tomorrow
  = Returned (Some {| year := 2024; month := 3; day := 11; hour := 9;
                      minute := 0; second := 0; microsecond := 0 |},
              utf8 "напомни завтра  позвонить").
Proof. reflexivity. Qed.

(** Letter case: the text of a parsed command is lower-cased, that of an
    unparsed one is not. *)
Example lowercased_text_example :
  parse_reminder_from_text (U := latin_cyrillic) eight_pm
    (utf8 "Напомни Через 10 Минут Купить Молоко")
  = Returned (Some {| year := 2024; month := 3; day := 10; hour := 20;
                      minute := 10; second := 0; microsecond := 0 |},
              utf8 "напомни  купить молоко")
  /\ parse_reminder_from_text (U := latin_cyrillic) eight_pm
       (utf8 "Напомни Что-то")
     = Returned (None, utf8 "Напомни Что-то").
Proof. split; reflexivity. Qed.



(* ================================================================= *)
(** * Properties of the rest of the assistant *)

(* ================================================================= *)
(** ** The store: what polls and insertions keep *)

Lemma kept_or_marked_refl r : kept_or_marked r r.
Proof. now left. Qed.

Lemma kept_or_marked_trans r1 r2 r3 :
  kept_or_marked r1 r2 -> kept_or_marked r2 r3 -> kept_or_marked r1 r3.
Proof.
  intros [ -> | -> ] [ -> | -> ]; [now left|now right|now right|now right].
Qed.

Lemma Forall2_kept_refl t : Forall2 kept_or_marked t t.
Proof. induction t; constructor; auto using kept_or_marked_refl. Qed.

Lemma Forall2_kept_trans t1 : forall t2 t3,
  Forall2 kept_or_marked t1 t2 -> Forall2 kept_or_marked t2 t3 ->
  Forall2 kept_or_marked t1 t3.
Proof.
  induction t1 as [|r t1 IH]; intros t2 t3 H12 H23;
    inversion H12; subst; inversion H23; subst; constructor.
  - eapply kept_or_marked_trans; eauto.
  - eapply IH; eauto.
Qed.

Lemma update_notified_kept rid t :
  Forall2 kept_or_marked t (update_notified rid t).
Proof.
  induction t as [|r t IH]; simpl; constructor; auto.
  destruct (row_id r =? rid); [now right|now left].
Qed.

Lemma mark_rows_kept rows : forall fault acc t,
  Forall2 kept_or_marked t (snd (mark_rows fault rows acc t)).
Proof.
  induction rows as [|r rows IH]; intros fault acc t; simpl.
  - apply Forall2_kept_refl.
  - destruct fault as [[|k]|]; simpl.
    + apply Forall2_kept_refl.
    + eapply Forall2_kept_trans; [apply update_notified_kept|apply IH].
    + eapply Forall2_kept_trans; [apply update_notified_kept|apply IH].
Qed.

Lemma check_reminders_try_kept fault now t :
  Forall2 kept_or_marked t (snd (check_reminders_try fault now t)).
Proof.
  unfold check_reminders_try.
  destruct fault as [[[|k]|]|]; simpl; try apply Forall2_kept_refl;
    match goal with
    | |- context [mark_rows ?f ?rows ?acc ?t] =>
      pose proof (mark_rows_kept rows f acc t) as H;
        destruct (mark_rows f rows acc t) as [[rs|e] t']; simpl in *; exact H
    end.
Qed.

Lemma check_reminders_kept fault now m :
  let m' := snd (fst (check_reminders fault now m)) in
  enabled m' = enabled m
  /\ Forall2 kept_or_marked (table m) (table m').
Proof.
  unfold check_reminders. destruct (enabled m) eqn:Hen; simpl.
  - pose proof (check_reminders_try_kept fault now (table m)) as H.
    destruct (check_reminders_try fault now (table m)) as [[rs|e] t]; simpl in *.
    + now split.
    + destruct (is_Exception e); simpl; now split.
  - split; [exact Hen|apply Forall2_kept_refl].
Qed.

(** X1: whatever the database does during it, a poll keeps every row in
    its place and changes nothing in it but [notified], which it only ever
    sets to 1: no reminder is deleted, reworded, rescheduled or
    un-notified. *)
Theorem check_reminders_keeps_rows fault now m :
  let m' := snd (fst (check_reminders fault now m)) in
  enabled m' = enabled m
  /\ Forall2 kept_or_marked (table m) (table m').
Proof. exact (check_reminders_kept fault now m). Qed.

Lemma next_rowid_above t r : In r t -> row_id r < next_rowid t.
Proof.
  unfold next_rowid. intros Hin.
  assert (row_id r <= fold_right (fun r acc => Z.max (row_id r) acc) 0 t);
    [|lia].
  induction t as [|x t IH]; cbn [fold_right]; [contradiction|].
  destruct Hin as [->|Hin]; [lia|]. specialize (IH Hin). lia.
Qed.

(** What [add_reminder] does to the table: nothing, or one row appended. *)
Lemma add_reminder_table fault clock text t m :
  let m' := snd (fst (add_reminder fault clock text t m)) in
  enabled m' = enabled m
  /\ (table m' = table m
      \/ table m' = table m ++ [new_row (table m) clock t text]).
Proof.
  unfold add_reminder. destruct (enabled m) eqn:Hen; simpl.
  - destruct fault as [[[|k]|]|]; simpl; split; auto.
  - split; auto.
Qed.

Lemma add_reminder_grows fault clock text t m :
  let m' := snd (fst (add_reminder fault clock text t m)) in
  exists added,
    table m' = table m ++ added
    /\ (List.length added <= 1)%nat
    /\ (forall r, In r added ->
                  row_notified r = 0 /\ row_text r = text
                  /\ forall r', In r' (table m) -> row_id r' < row_id r)
    /\ (NoDup (map row_id (table m)) -> NoDup (map row_id (table m'))).
Proof.
  cbv zeta.
  destruct (add_reminder_table fault clock text t m) as [_ [H|H]]; rewrite H.
  - exists []. rewrite app_nil_r. split; [reflexivity|].
    split; [simpl; lia|]. split; [intros r []|auto].
  - exists [new_row (table m) clock t text]. split; [reflexivity|].
    split; [simpl; lia|]. split.
    + intros r [<-|[]]. split; [reflexivity|]. split; [reflexivity|].
      intros r' Hr'. now apply next_rowid_above.
    + intros Hnd. rewrite map_app. simpl.
      apply Permutation_NoDup with (l := next_rowid (table m)
                                          :: map row_id (table m)).
      * apply Permutation_cons_append.
      * constructor; [|exact Hnd].
        intros Hin. apply in_map_iff in Hin. destruct Hin as [r' [Hid Hr']].
        pose proof (next_rowid_above _ _ Hr'). lia.
Qed.

(** X2: [add_reminder] never touches the rows that are there: it appends
    at most one row, not yet notified, whose id is greater than every id
    in the table; so ids that were distinct stay distinct. *)
Theorem add_reminder_appends fault clock text t m :
  let m' := snd (fst (add_reminder fault clock text t m)) in
  exists added,
    table m' = table m ++ added
    /\ (List.length added <= 1)%nat
    /\ (forall r, In r added ->
                  row_notified r = 0 /\ row_text r = text
                  /\ forall r', In r' (table m) -> row_id r' < row_id r)
    /\ (NoDup (map row_id (table m)) -> NoDup (map row_id (table m'))).
Proof. exact (add_reminder_grows fault clock text t m). Qed.

Lemma in_select_due now t r :
  In r (select_due now t) <-> In r t /\ is_due now r = true.
Proof.
  unfold select_due. rewrite <- filter_In. split; intros H.
  - eapply Permutation_in; [apply order_by_datetime_perm|exact H].
  - eapply Permutation_in;
      [apply Permutation_sym, order_by_datetime_perm|exact H].
Qed.

Lemma in_upcoming_rows now t r :
  In r (order_by_datetime (filter (is_upcoming now) t))
  <-> In r t /\ is_upcoming now r = true.
Proof.
  rewrite <- filter_In. split; intros H.
  - eapply Permutation_in; [apply order_by_datetime_perm|exact H].
  - eapply Permutation_in;
      [apply Permutation_sym, order_by_datetime_perm|exact H].
Qed.

Lemma due_xor_upcoming now r :
  row_notified r = 0 -> is_upcoming now r = negb (is_due now r).
Proof.
  intros H. unfold is_upcoming, is_due. rewrite H. simpl.
  now rewrite !andb_true_r.
Qed.

Lemma upcoming_not_due now r : is_upcoming now r = true -> is_due now r = false.
Proof.
  unfold is_upcoming, is_due. destruct (str_leb (row_datetime r) now); simpl;
    [discriminate|reflexivity].
Qed.

Lemma get_upcoming_ok now count m :
  enabled m = true ->
  - 2 ^ 63 <= count < 2 ^ 63 ->
  get_upcoming_reminders None now count m
  = (map reminder_of_row (select_upcoming (isoformat now) count (table m)), []).
Proof.
  intros Hen Hc. unfold get_upcoming_reminders. rewrite Hen. simpl negb.
  cbv iota.
  replace ((count <? - 2 ^ 63) || (2 ^ 63 <=? count)) with false;
    [reflexivity|].
  symmetry. apply orb_false_iff. split; [apply Z.ltb_ge|apply Z.leb_gt]; lia.
Qed.

(** X3: a reminder that [add_reminder] has stored comes back: the poll
    returns it if its time is not after the poll's clock reading; if it
    is, the poll does not return it and [get_upcoming_reminders] without
    limit lists it. *)
Theorem add_then_poll clock text t now count m :
  enabled m = true ->
  valid_datetime t = true ->
  valid_datetime now = true ->
  - 2 ^ 63 <= count < 0 ->
  let m1 := snd (fst (add_reminder None clock text t m)) in
  let stored := reminder_of_row (new_row (table m) clock t text) in
  fst (fst (add_reminder None clock text t m)) = (true, MsgCreated t text)
  /\ exists due m2,
      check_reminders None now m1 = (Returned due, m2, [])
      /\ (dt_ltb now t = false -> In stored due)
      /\ (dt_ltb now t = true ->
          ~ In stored due
          /\ In stored (fst (get_upcoming_reminders None now count m1))).
Proof.
  intros Hen Ht Hnow Hc. cbv zeta.
  assert (Hm1 : snd (fst (add_reminder None clock text t m))
                = with_table m (table m ++ [new_row (table m) clock t text]))
    by (unfold add_reminder; rewrite Hen; reflexivity).
  split; [unfold add_reminder; rewrite Hen; reflexivity|].
  rewrite Hm1. set (m1 := with_table m _).
  assert (Hen1 : enabled m1 = true) by exact Hen.
  pose proof (new_row_due now clock t text (table m) Ht Hnow) as Hdue.
  assert (Hin : In (new_row (table m) clock t text) (table m1))
    by (unfold m1; simpl; apply in_or_app; right; now left).
  eexists. eexists. split; [apply (check_reminders_ok now m1 Hen1)|].
  split.
  - intros Hlt. rewrite Hlt in Hdue. apply in_map.
    apply in_select_due. now split.
  - intros Hlt. rewrite Hlt in Hdue. split.
    + intros H. apply in_map_iff in H. destruct H as [r [Hr Hsel]].
      apply in_select_due in Hsel. destruct Hsel as [_ Hd].
      unfold is_due in *. injection Hr as _ _ Hdt.
      cbn [row_datetime new_row row_notified] in Hdue.
      rewrite Hdt in Hd. rewrite andb_true_r in Hdue.
      rewrite Hdue in Hd. discriminate.
    + rewrite (get_upcoming_ok now count m1 Hen1) by lia. simpl fst.
      apply in_map. unfold select_upcoming, sql_limit.
      replace (count <? 0) with true by (symmetry; apply Z.ltb_lt; lia).
      apply in_upcoming_rows. split; [exact Hin|].
      rewrite due_xor_upcoming by reflexivity. now rewrite Hdue.
Qed.

Lemma Sorted_app_l {A} (R : A -> A -> Prop) l : forall l',
  Sorted R (l ++ l') -> Sorted R l.
Proof.
  induction l as [|x l IH]; intros l' H; [constructor|].
  simpl in H. inversion H as [|? ? Hs Hhd]; subst. constructor.
  - eapply IH; eauto.
  - destruct l; [constructor|]. inversion Hhd; subst. now constructor.
Qed.

(** X4: on an enabled manager [get_upcoming_reminders] returns the
    earliest pending reminders in ascending order of their time: a prefix
    of all the pending ones, of at most [count] entries when [count] is
    not negative and all of them when it is.  None of them is returned by
    a poll at the same clock reading, and every other reminder not yet
    notified is. *)
Theorem upcoming_earliest_first now count m :
  enabled m = true ->
  - 2 ^ 63 <= count < 2 ^ 63 ->
  let upcoming := fst (get_upcoming_reminders None now count m) in
  let pending :=
    map reminder_of_row
        (order_by_datetime (filter (is_upcoming (isoformat now)) (table m))) in
  let due := map reminder_of_row (select_due (isoformat now) (table m)) in
  (exists rest, pending = upcoming ++ rest /\ (count < 0 -> rest = []))
  /\ (0 <= count -> Z.of_nat (List.length upcoming) <= count)
  /\ Sorted datetime_le upcoming
  /\ (forall r, In r upcoming -> ~ In r due)
  /\ (forall r, In r (table m) -> row_notified r = 0 ->
                In (reminder_of_row r) pending \/ In (reminder_of_row r) due).
Proof.
  intros Hen Hc. cbv zeta. rewrite (get_upcoming_ok now count m Hen Hc).
  simpl fst. unfold select_upcoming, sql_limit.
  set (rows := order_by_datetime (filter (is_upcoming (isoformat now)) (table m))).
  assert (Hsplit : exists rest,
             map reminder_of_row rows
             = map reminder_of_row
                   (if count <? 0 then rows else firstn (Z.to_nat count) rows)
               ++ rest
             /\ (count < 0 -> rest = [])).
  { destruct (Z.ltb_spec count 0).
    - exists []. now rewrite app_nil_r.
    - exists (map reminder_of_row (skipn (Z.to_nat count) rows)). split; [|lia].
      now rewrite <- map_app, firstn_skipn. }
  split; [exact Hsplit|]. split; [|split; [|split]].
  - intros H0. destruct (Z.ltb_spec count 0); [lia|].
    rewrite length_map, length_firstn. lia.
  - destruct Hsplit as [rest [Heq _]].
    apply (Sorted_app_l datetime_le _ rest). rewrite <- Heq.
    apply sorted_reminders, order_by_datetime_sorted.
  - intros r Hup Hdue.
    assert (Hall : In r (map reminder_of_row rows)).
    { destruct Hsplit as [rest [-> _]]. apply in_or_app. now left. }
    apply in_map_iff in Hall. destruct Hall as [a [Ha Hina]].
    apply in_map_iff in Hdue. destruct Hdue as [b [Hb Hinb]].
    apply in_upcoming_rows in Hina. destruct Hina as [_ Hau].
    apply in_select_due in Hinb. destruct Hinb as [_ Hbd].
    assert (Hdt : row_datetime a = row_datetime b)
      by (rewrite <- Hb in Ha; now injection Ha).
    unfold is_upcoming in Hau. unfold is_due in Hbd. rewrite Hdt in Hau.
    destruct (str_leb (row_datetime b) (isoformat now)); discriminate.
  - intros r Hin Hn.
    destruct (is_due (isoformat now) r) eqn:Hd.
    + right. apply in_map, in_select_due. now split.
    + left. apply in_map. unfold rows. apply in_upcoming_rows.
      split; [exact Hin|]. rewrite due_xor_upcoming by exact Hn.
      now rewrite Hd.
Qed.

(* ================================================================= *)
(** ** The store: at most once *)

Lemma kept_ids t t' :
  Forall2 kept_or_marked t t' -> map row_id t' = map row_id t.
Proof.
  induction 1 as [|r r' t t' Hr _ IH]; simpl; [reflexivity|].
  rewrite IH. destruct Hr as [->| ->]; reflexivity.
Qed.

Lemma kept_marked_ids t t' x :
  Forall2 kept_or_marked t t' -> In x (marked_ids t) -> In x (marked_ids t').
Proof.
  unfold marked_ids. induction 1 as [|r r' t t' Hr _ IH]; simpl; [auto|].
  destruct Hr as [->| ->].
  - destruct (negb (row_notified r =? 0)); simpl; intuition.
  - simpl. destruct (negb (row_notified r =? 0)); simpl; intuition.
Qed.

Lemma mark_rows_returns rows : forall fault acc t rs t',
  mark_rows fault rows acc t = (Returned rs, t') ->
  rs = acc ++ map reminder_of_row rows
  /\ t' = fold_left (fun t r => update_notified (row_id r) t) rows t.
Proof.
  induction rows as [|r rows IH]; intros fault acc t rs t'; simpl.
  - injection 1 as <- <-. now rewrite app_nil_r.
  - destruct fault as [[|k]|]; [discriminate| |]; intros H;
      apply IH in H; destruct H as [-> ->]; now rewrite <- app_assoc.
Qed.

(** A poll returns nothing, or everything that is due, all of it marked. *)
Lemma check_reminders_all_or_nothing fault now m due m' ev :
  check_reminders fault now m = (Returned due, m', ev) ->
  due = []
  \/ (due = map reminder_of_row (select_due (isoformat now) (table m))
      /\ table m' = map (mark_among (due_rows now (table m))) (table m)).
Proof.
  unfold check_reminders. destruct (enabled m); simpl;
    [|injection 1 as <- _ _; now left].
  unfold check_reminders_try.
  destruct fault as [[[|k]|]|]; simpl;
    try (injection 1 as <- _ _; now left);
    match goal with
    | |- context [mark_rows ?f ?rows ?acc ?t] =>
      destruct (mark_rows f rows acc t) as [[rs|e] t'] eqn:E
    end;
    try (destruct (is_Exception e); [injection 1 as <- _ _; now left|
                                     discriminate]);
    try (injection 1 as <- _ _; now left).
  - injection 1 as <- <- _. right.
    apply mark_rows_returns in E. destruct E as [-> ->]. split; [reflexivity|].
    simpl. rewrite updates_mark. apply map_ext. intros r.
    unfold mark_among, select_due.
    now rewrite (id_among_perm _ _ r (order_by_datetime_perm _)).
  - injection 1 as <- <- _. right.
    apply mark_rows_returns in E. destruct E as [-> ->]. split; [reflexivity|].
    simpl. rewrite updates_mark. apply map_ext. intros r.
    unfold mark_among, select_due.
    now rewrite (id_among_perm _ _ r (order_by_datetime_perm _)).
Qed.

Lemma NoDup_map_filter {A B} (f : A -> B) p l :
  NoDup (map f l) -> NoDup (map f (filter p l)).
Proof.
  induction l as [|a l IH]; simpl; [auto|].
  inversion 1 as [|? ? Hn Hnd]; subst.
  destruct (p a); simpl; [|auto]. constructor; [|auto].
  intros Hin. apply Hn. apply in_map_iff in Hin.
  destruct Hin as [b [Hb Hinb]]. apply filter_In in Hinb.
  apply in_map_iff. exists b. tauto.
Qed.

Lemma NoDup_map_same {A B} (f : A -> B) l a b :
  NoDup (map f l) -> In a l -> In b l -> f a = f b -> a = b.
Proof.
  induction l as [|x l IH]; simpl; [contradiction|].
  inversion 1 as [|? ? Hn Hnd]; subst.
  intros [->|Ha] [->|Hb] Hf; auto.
  - exfalso. apply Hn. rewrite Hf. now apply in_map.
  - exfalso. apply Hn. rewrite <- Hf. now apply in_map.
Qed.

Lemma due_ids_NoDup now t :
  NoDup (map row_id t) ->
  NoDup (map r_id (map reminder_of_row (select_due now t))).
Proof.
  intros Hnd. rewrite map_map. simpl.
  change (fun x : row => row_id x) with row_id.
  apply (Permutation_NoDup (l := map row_id (filter (is_due now) t))).
  - apply Permutation_map, Permutation_sym, order_by_datetime_perm.
  - now apply NoDup_map_filter.
Qed.

Lemma due_ids_not_marked now t x :
  NoDup (map row_id t) ->
  In x (map r_id (map reminder_of_row (select_due now t))) ->
  ~ In x (marked_ids t).
Proof.
  intros Hnd Hin Hm. rewrite map_map in Hin. apply in_map_iff in Hin.
  destruct Hin as [r [Hx Hr]]. simpl in Hx.
  apply in_select_due in Hr. destruct Hr as [Hr Hd].
  unfold marked_ids in Hm. apply in_map_iff in Hm.
  destruct Hm as [r' [Hx' Hr']]. apply filter_In in Hr'.
  destruct Hr' as [Hr' Hn'].
  assert (r = r') by (apply (NoDup_map_same row_id t); congruence).
  subst r'. unfold is_due in Hd. apply andb_prop in Hd.
  destruct Hd as [_ Hd]. rewrite Hd in Hn'. discriminate.
Qed.

Lemma due_ids_marked_after now t x :
  In x (map r_id (map reminder_of_row (select_due now t))) ->
  In x (marked_ids (map (mark_among (filter (is_due now) t)) t)).
Proof.
  intros Hin. rewrite map_map in Hin. apply in_map_iff in Hin.
  destruct Hin as [r [Hx Hr]]. simpl in Hx.
  apply in_select_due in Hr. destruct Hr as [Hr Hd].
  unfold marked_ids. apply in_map_iff. exists (set_notified r).
  split; [exact Hx|]. apply filter_In. split; [|reflexivity].
  apply in_map_iff. exists r. split; [|exact Hr].
  unfold mark_among. rewrite id_among_self; [reflexivity|].
  apply filter_In. now split.
Qed.

Lemma polled_once ops : forall m,
  NoDup (map row_id (table m)) ->
  NoDup (map r_id (polled ops m))
  /\ forall x, In x (map r_id (polled ops m)) ->
               ~ In x (marked_ids (table m)).
Proof.
  induction ops as [|[fault clock text t|fault now] ops IH]; intros m Hnd.
  - simpl. split; [constructor|intros x []].
  - cbn [polled].
    destruct (add_reminder_grows fault clock text t m)
      as [added [Ht [_ [Hadded Hnd']]]].
    destruct (IH _ (Hnd' Hnd)) as [IH1 IH2]. split; [exact IH1|].
    intros x Hx Hm. apply (IH2 x Hx). rewrite Ht.
    unfold marked_ids in *. rewrite filter_app, map_app.
    apply in_or_app. now left.
  - cbn [polled].
    pose proof (check_reminders_kept fault now m) as [_ Hkept].
    destruct (check_reminders fault now m) as [[[due|e] m'] ev] eqn:E;
      [|simpl; split; [constructor|intros x []]].
    simpl in Hkept.
    assert (Hnd' : NoDup (map row_id (table m')))
      by (rewrite (kept_ids _ _ Hkept); exact Hnd).
    destruct (IH m' Hnd') as [IH1 IH2].
    destruct (check_reminders_all_or_nothing _ _ _ _ _ _ E) as [->|[Hdue Ht]].
    + simpl. split; [exact IH1|].
      intros x Hx Hm. apply (IH2 x Hx).
      now apply (kept_marked_ids (table m)).
    + rewrite map_app. split.
      * apply NoDup_app; [rewrite Hdue; now apply due_ids_NoDup|exact IH1|].
        intros x Hx Hx'. apply (IH2 x Hx'). rewrite Ht.
        apply due_ids_marked_after. now rewrite <- Hdue.
      * intros x Hx. apply in_app_or in Hx. destruct Hx as [Hx|Hx].
        -- rewrite Hdue in Hx. now apply (due_ids_not_marked (isoformat now)).
        -- intros Hm. apply (IH2 x Hx).
           now apply (kept_marked_ids (table m)).
Qed.

(** X5: at most once.  Over any history of insertions and polls, whatever
    database failures occur in it, no reminder is returned by two polls
    (nor twice by one), and none that was already marked notified is
    returned at all -- provided the ids in the table are distinct, as the
    primary key makes them. *)
Theorem polls_return_at_most_once ops m :
  NoDup (map row_id (table m)) ->
  NoDup (map r_id (polled ops m))
  /\ forall r, In r (polled ops m) -> ~ In (r_id r) (marked_ids (table m)).
Proof.
  intros Hnd. destruct (polled_once ops m Hnd) as [H1 H2].
  split; [exact H1|]. intros r Hr. apply H2. now apply in_map.
Qed.

(* ================================================================= *)
(** ** Calendar: order and range *)

Lemma days_before_year_succ y :
  days_before_year (y + 1) = days_before_year y + 365 + b2z (is_leap y).
Proof.
  unfold days_before_year, is_leap, b2z.
  replace (y + 1 - 1) with y by lia.
  destruct (Z.eqb_spec (y mod 4) 0), (Z.eqb_spec (y mod 100) 0),
    (Z.eqb_spec (y mod 400) 0); cbn [negb andb orb];
    Z.div_mod_to_equations; lia.
Qed.

Lemma days_before_year_mono y y' :
  y <= y' -> days_before_year y <= days_before_year y'.
Proof. unfold days_before_year. intros. Z.div_mod_to_equations. lia. Qed.

Ltac table_lookup :=
  repeat match goal with
         | |- context [nth ?n ?l ?d] =>
           let v := eval vm_compute in (nth n l d) in
           change (nth n l d) with v
         | |- context [if ?b then _ else _] =>
           let v := eval vm_compute in b in
           change b with v; cbv iota
         end.

Lemma month_cases m :
  1 <= m <= 12 ->
  m = 1 \/ m = 2 \/ m = 3 \/ m = 4 \/ m = 5 \/ m = 6 \/ m = 7 \/ m = 8
  \/ m = 9 \/ m = 10 \/ m = 11 \/ m = 12.
Proof. lia. Qed.

Lemma month_day_bound y m d :
  1 <= m <= 12 -> 1 <= d <= days_in_month y m ->
  1 <= days_before_month y m + d <= 365 + b2z (is_leap y).
Proof.
  intros Hm. unfold days_in_month, days_before_month.
  destruct (month_cases m Hm)
    as [->|[->|[->|[->|[->|[->|[->|[->|[->|[->|[->| ->]]]]]]]]]]];
    destruct (is_leap y); unfold b2z; table_lookup; lia.
Qed.

Lemma ymd2ord_year_lt y m d y' m' d' :
  1 <= m <= 12 -> 1 <= d <= days_in_month y m ->
  1 <= m' <= 12 -> 1 <= d' <= days_in_month y' m' ->
  y < y' -> ymd2ord y m d < ymd2ord y' m' d'.
Proof.
  intros Hm Hd Hm' Hd' Hy. unfold ymd2ord.
  pose proof (month_day_bound y m d Hm Hd).
  pose proof (month_day_bound y' m' d' Hm' Hd').
  pose proof (days_before_year_succ y).
  pose proof (days_before_year_mono (y + 1) y' ltac:(lia)).
  lia.
Qed.

Lemma ymd2ord_month_lt y m d m' d' :
  1 <= m <= 12 -> 1 <= d <= days_in_month y m ->
  1 <= m' <= 12 -> 1 <= d' ->
  m < m' -> ymd2ord y m d < ymd2ord y m' d'.
Proof.
  intros Hm Hd Hm' Hd' Hlt. revert Hd.
  unfold ymd2ord, days_in_month, days_before_month, b2z.
  destruct (month_cases m Hm)
    as [->|[->|[->|[->|[->|[->|[->|[->|[->|[->|[->| ->]]]]]]]]]]];
    destruct (month_cases m' Hm')
      as [->|[->|[->|[->|[->|[->|[->|[->|[->|[->|[->| ->]]]]]]]]]]];
    try lia; destruct (is_leap y); table_lookup; lia.
Qed.

Lemma valid_fields t :
  valid_datetime t = true ->
  (1 <= year t <= 9999) /\ (1 <= month t <= 12)
  /\ (1 <= day t <= days_in_month (year t) (month t))
  /\ (0 <= hour t <= 23) /\ (0 <= minute t <= 59)
  /\ (0 <= second t <= 59) /\ (0 <= microsecond t <= 999999).
Proof.
  unfold valid_datetime. intros H.
  repeat (apply andb_prop in H; destruct H as [H ?]).
  repeat match goal with
         | H : (_ <=? _) = true |- _ => apply Z.leb_le in H
         end.
  lia.
Qed.

Lemma valid_toordinal t :
  valid_datetime t = true -> 1 <= toordinal t <= MAXORDINAL.
Proof.
  intros H. destruct (valid_fields t H) as [Hy [Hm [Hd _]]].
  unfold toordinal, ymd2ord.
  pose proof (month_day_bound _ _ _ Hm Hd).
  pose proof (days_before_year_succ (year t)).
  pose proof (days_before_year_mono (year t + 1) 10000 ltac:(lia)).
  pose proof (days_before_year_mono 1 (year t) ltac:(lia)).
  change (days_before_year 10000) with 3652059 in *.
  change (days_before_year 1) with 0 in *.
  unfold MAXORDINAL. lia.
Qed.

Lemma time_of_day_range t :
  valid_datetime t = true -> 0 <= time_of_day t < 86400000000.
Proof.
  intros H. destruct (valid_fields t H) as [_ [_ [_ [? [? [? ?]]]]]].
  unfold time_of_day. lia.
Qed.

(** On valid datetimes [<] agrees with the order of instants. *)
Lemma dt_ltb_instant a b :
  valid_datetime a = true -> valid_datetime b = true ->
  dt_ltb a b = true -> instant a < instant b.
Proof.
  intros Ha Hb.
  pose proof (time_of_day_range a Ha). pose proof (time_of_day_range b Hb).
  destruct (valid_fields a Ha) as [Hy [Hm [Hd [Hh [Hmi [Hs Hus]]]]]].
  destruct (valid_fields b Hb) as [Hy' [Hm' [Hd' [Hh' [Hmi' [Hs' Hus']]]]]].
  unfold dt_ltb, dt_fields. cbn [lex_ltb]. unfold instant, toordinal.
  destruct (Z.ltb_spec (year a) (year b)) as [Hlt|_].
  { intros _. pose proof (ymd2ord_year_lt _ _ _ _ _ _ Hm Hd Hm' Hd' Hlt). lia. }
  destruct (Z.eqb_spec (year a) (year b)) as [Ey|_]; [|discriminate].
  rewrite Ey in *. cbn [orb andb].
  destruct (Z.ltb_spec (month a) (month b)) as [Hlt|_].
  { intros _.
    pose proof (ymd2ord_month_lt _ _ _ _ (day b) Hm Hd Hm' ltac:(lia) Hlt). lia. }
  destruct (Z.eqb_spec (month a) (month b)) as [Em|_]; [|discriminate].
  rewrite Em in *. cbn [orb andb]. unfold ymd2ord, time_of_day in *.
  destruct (Z.ltb_spec (day a) (day b)); [intros _; lia|].
  destruct (Z.eqb_spec (day a) (day b)) as [->|_]; [|discriminate].
  destruct (Z.ltb_spec (hour a) (hour b)); [intros _; lia|].
  destruct (Z.eqb_spec (hour a) (hour b)) as [->|_]; [|discriminate].
  destruct (Z.ltb_spec (minute a) (minute b)); [intros _; lia|].
  destruct (Z.eqb_spec (minute a) (minute b)) as [->|_]; [|discriminate].
  destruct (Z.ltb_spec (second a) (second b)); [intros _; lia|].
  destruct (Z.eqb_spec (second a) (second b)) as [->|_]; [|discriminate].
  destruct (Z.ltb_spec (microsecond a) (microsecond b)); [intros _; lia|].
  destruct (Z.eqb_spec (microsecond a) (microsecond b)); discriminate.
Qed.

Lemma month_day_range_all leap :
  forallb (fun k => month_day_range leap (Z.of_nat k))
          (seq 0 (if leap then 366 else 365)) = true.
Proof. destruct leap; vm_compute; reflexivity. Qed.

Lemma month_day_range_ok leap n :
  0 <= n <= 364 + b2z leap -> month_day_range leap n = true.
Proof.
  intros Hn. pose proof (month_day_range_all leap) as H.
  rewrite forallb_forall in H. specialize (H (Z.to_nat n)).
  rewrite Z2Nat.id in H by (destruct leap; simpl in Hn; lia).
  apply H. apply in_seq. destruct leap; simpl in Hn; lia.
Qed.

(** [_ord2ymd] gives a date of the calendar. *)
Lemma ord2ymd_valid n :
  1 <= n <= MAXORDINAL ->
  valid_date (fst (fst (ord2ymd n))) (snd (fst (ord2ymd n))) (snd (ord2ymd n)).
Proof.
  unfold MAXORDINAL. intros Hn. unfold ord2ymd, DI400Y, DI100Y, DI4Y.
  set (n0 := n - 1).
  set (a := n0 / 146097). set (r1 := n0 mod 146097).
  set (b := r1 / 36524). set (r2 := r1 mod 36524).
  set (c := r2 / 1461). set (r3 := r2 mod 1461).
  set (e := r3 / 365). set (r4 := r3 mod 365).
  assert (H1 : n0 = 146097 * a + r1 /\ 0 <= r1 < 146097 /\ 0 <= a)
    by (unfold a, r1; Z.div_mod_to_equations; lia).
  assert (H2 : r1 = 36524 * b + r2 /\ 0 <= r2 < 36524 /\ 0 <= b <= 4)
    by (unfold b, r2; Z.div_mod_to_equations; lia).
  assert (H3 : r2 = 1461 * c + r3 /\ 0 <= r3 < 1461 /\ 0 <= c <= 24)
    by (unfold c, r3; Z.div_mod_to_equations; lia).
  assert (H4 : r3 = 365 * e + r4 /\ 0 <= r4 < 365 /\ 0 <= e <= 4)
    by (unfold e, r4; Z.div_mod_to_equations; lia).
  clearbody a r1 b r2 c r3 e r4.
  assert (Hyear : forall b' c' e', 0 <= b' <= 3 -> 0 <= c' <= 24 ->
            0 <= e' <= 3 ->
            146097 * a + 36524 * b' + 1461 * c' + 365 * e' <= n0 ->
            1 <= 400 * a + 100 * b' + 4 * c' + e' + 1 <= 9999).
  { intros b' c' e' Hb' Hc' He' Hle. split; [lia|].
    destruct (Z_le_gt_dec (400 * a + 100 * b' + 4 * c' + e' + 1) 9999) as [|Hgt];
      [assumption|exfalso].
    pose proof (days_before_year_mono 10000
                  (400 * a + 100 * b' + 4 * c' + e' + 1) ltac:(lia)) as Hm.
    rewrite year_days in Hm by lia.
    change (days_before_year 10000) with 3652059 in Hm. unfold n0 in *. lia. }
  destruct (Z.eqb_spec e 4) as [He|He]; [|destruct (Z.eqb_spec b 4) as [Hb|Hb]];
    cbn [orb fst snd].
  - replace (a * 400 + 1 + b * 100 + c * 4 + e - 1)
      with (400 * a + 100 * b + 4 * c + 3 + 1) by lia.
    split; [apply Hyear; lia|]. unfold days_in_month.
    change (12 =? 2) with false. cbn [andb].
    change (nth (Z.to_nat 12) DAYS_IN_MONTH 0) with 31. lia.
  - replace (a * 400 + 1 + b * 100 + c * 4 + e - 1)
      with (400 * a + 100 * 3 + 4 * 24 + 3 + 1) by lia.
    split; [apply Hyear; lia|]. unfold days_in_month.
    change (12 =? 2) with false. cbn [andb].
    change (nth (Z.to_nat 12) DAYS_IN_MONTH 0) with 31. lia.
  - replace (a * 400 + 1 + b * 100 + c * 4 + e)
      with (400 * a + 100 * b + 4 * c + e + 1) by lia.
    set (leap := (e =? 3) && (negb (c =? 24) || (b =? 3))).
    assert (Hr4 : 0 <= r4 <= 364 + b2z leap) by (destruct leap; simpl; lia).
    pose proof (month_day_range_ok leap r4 Hr4) as Hmd.
    unfold month_day_range in Hmd.
    set (m := (r4 + 50) / 32) in *.
    set (preceding := nth (Z.to_nat m) DAYS_BEFORE_MONTH 0
                      + b2z ((2 <? m) && leap)) in *.
    destruct (r4 <? preceding); cbn [fst snd] in *;
      (split; [apply Hyear; lia|]);
      unfold days_in_month; rewrite leap_year_flag by lia; fold leap;
      repeat (apply andb_prop in Hmd; destruct Hmd as [Hmd ?]);
      repeat match goal with
             | H : (_ <=? _) = true |- _ => apply Z.leb_le in H
             end; lia.
Qed.

Lemma dt_add_valid t d t' :
  dt_add t d = Returned t' -> valid_datetime t' = true.
Proof.
  unfold dt_add.
  set (us := microsecond t + td_microseconds d).
  set (s := hour t * 3600 + minute t * 60 + second t + td_seconds d
            + us / 1000000).
  set (days := toordinal t + td_days d + s / 86400).
  destruct ((0 <? days) && (days <=? MAXORDINAL)) eqn:Hr; [|discriminate].
  apply andb_prop in Hr. destruct Hr as [Hpos Hmax].
  apply Z.ltb_lt in Hpos. apply Z.leb_le in Hmax.
  pose proof (ord2ymd_valid days ltac:(lia)) as Hv.
  destruct (ord2ymd days) as [[y m] dd]. cbn [fst snd] in Hv.
  destruct Hv as [Hy [Hm Hd]].
  injection 1 as <-. unfold valid_datetime.
  cbn [year month day hour minute second microsecond].
  repeat (apply andb_true_intro; split); apply Z.leb_le;
    try lia; clearbody s us; Z.div_mod_to_equations; lia.
Qed.

(* ================================================================= *)
(** ** Time expressions: instants *)

(** When [datetime.__add__] returns, the instant has moved by the length
    of the [timedelta]. *)
Lemma dt_add_instant t d t' :
  dt_add t d = Returned t' -> instant t' = instant t + timedelta_us d.
Proof.
  unfold dt_add.
  set (us := microsecond t + td_microseconds d).
  set (s := hour t * 3600 + minute t * 60 + second t + td_seconds d
            + us / 1000000).
  set (days := toordinal t + td_days d + s / 86400).
  destruct ((0 <? days) && (days <=? MAXORDINAL)) eqn:Hr; [|discriminate].
  apply andb_prop in Hr. destruct Hr as [Hpos _]. apply Z.ltb_lt in Hpos.
  pose proof (ymd2ord_ord2ymd days ltac:(lia)) as Hord.
  destruct (ord2ymd days) as [[y m] dd]. simpl in Hord.
  injection 1 as Ht'.
  assert (E0 : toordinal t' = days) by (subst t'; exact Hord).
  assert (E1 : hour t' = (s mod 86400) / 3600) by (subst t'; reflexivity).
  assert (E2 : minute t' = ((s mod 86400) mod 3600) / 60)
    by (subst t'; reflexivity).
  assert (E3 : second t' = ((s mod 86400) mod 3600) mod 60)
    by (subst t'; reflexivity).
  assert (E4 : microsecond t' = us mod 1000000) by (subst t'; reflexivity).
  unfold instant, time_of_day, timedelta_us. rewrite E0, E1, E2, E3, E4.
  unfold days, s, us. Z.div_mod_to_equations. lia.
Qed.

(** When it raises, the instant asked for is outside the calendar. *)
Lemma dt_add_overflow t d e :
  dt_add t d = Raised e ->
  e = OverflowError
  /\ (instant t + timedelta_us d < 86400000000
      \/ instant_overflow <= instant t + timedelta_us d).
Proof.
  unfold dt_add.
  set (us := microsecond t + td_microseconds d).
  set (s := hour t * 3600 + minute t * 60 + second t + td_seconds d
            + us / 1000000).
  set (days := toordinal t + td_days d + s / 86400).
  destruct ((0 <? days) && (days <=? MAXORDINAL)) eqn:Hr.
  - destruct (ord2ymd days) as [[y m] dd]. discriminate.
  - injection 1 as <-. split; [reflexivity|].
    apply andb_false_iff in Hr.
    unfold instant, time_of_day, timedelta_us, instant_overflow, MAXORDINAL
      in *.
    destruct Hr as [Hr|Hr]; [apply Z.ltb_ge in Hr; left
                            |apply Z.leb_gt in Hr; right];
      unfold days, s, us in Hr; Z.div_mod_to_equations; lia.
Qed.

Lemma mk_timedelta_returns d h m td :
  mk_timedelta d h m = Returned td ->
  timedelta_us td = ((d * 24 + h) * 60 + m) * 60000000.
Proof.
  unfold mk_timedelta.
  destruct (999999999 <? Z.abs (d + (h * 3600 + m * 60) / 86400));
    [discriminate|].
  injection 1 as <-. unfold timedelta_us. simpl.
  Z.div_mod_to_equations. lia.
Qed.

Lemma mk_timedelta_overflow d h m e :
  mk_timedelta d h m = Raised e ->
  e = OverflowError
  /\ 999999999 * 86400 < Z.abs ((d * 24 + h) * 3600 + m * 60) + 86400.
Proof.
  unfold mk_timedelta.
  destruct (Z.ltb_spec 999999999 (Z.abs (d + (h * 3600 + m * 60) / 86400)));
    [|discriminate].
  injection 1 as <-. split; [reflexivity|].
  Z.div_mod_to_equations. lia.
Qed.

Lemma lex_compare_eq a : forall b,
  List.length a = List.length b -> lex_compare a b = Eq -> a = b.
Proof.
  induction a as [|x a IH]; intros [|y b] Hlen; simpl in *;
    try discriminate; [reflexivity|].
  destruct (Z.compare_spec x y) as [->|_|_]; try discriminate.
  intros H. f_equal. apply IH; [lia|exact H].
Qed.

(** ... and [not (a < b)] with [b <= a]. *)
Lemma dt_ltb_false_instant a b :
  valid_datetime a = true -> valid_datetime b = true ->
  dt_ltb a b = false -> instant b <= instant a.
Proof.
  intros Ha Hb Hlt.
  destruct (lex_compare (dt_fields a) (dt_fields b)) eqn:Hc.
  - apply lex_compare_eq in Hc; [|reflexivity].
    injection Hc as Ey Em Ed Eh Emi Es Eus.
    unfold instant, toordinal, time_of_day.
    rewrite Ey, Em, Ed, Eh, Emi, Es, Eus. lia.
  - unfold dt_ltb in Hlt. rewrite lex_ltb_compare, Hc in Hlt. discriminate.
  - assert (Hba : dt_ltb b a = true).
    { unfold dt_ltb. rewrite lex_ltb_compare, lex_compare_antisym, Hc.
      reflexivity. }
    pose proof (dt_ltb_instant b a Hb Ha Hba). lia.
Qed.

Lemma instant_dt_ltb a b :
  valid_datetime a = true -> valid_datetime b = true ->
  instant b <= instant a -> dt_ltb a b = false.
Proof.
  intros Ha Hb Hle. destruct (dt_ltb a b) eqn:E; [|reflexivity].
  pose proof (dt_ltb_instant a b Ha Hb E). lia.
Qed.

Lemma valid_instant t :
  valid_datetime t = true -> 86400000000 <= instant t < instant_overflow.
Proof.
  intros H. pose proof (valid_toordinal t H). pose proof (time_of_day_range t H).
  unfold instant, instant_overflow, MAXORDINAL in *. lia.
Qed.

(** [now + timedelta(days, hours, minutes)] for a delay that is not
    negative: the instant moves by the delay, or the sum is past the end
    of the calendar and [OverflowError] is raised. *)
Lemma shift_by now d h mi :
  valid_datetime now = true ->
  0 <= (d * 24 + h) * 60 + mi ->
  let target := instant now + ((d * 24 + h) * 60 + mi) * 60000000 in
  match (delta <- mk_timedelta d h mi ;; dt_add now delta) with
  | Returned t =>
    valid_datetime t = true /\ instant t = target /\ target < instant_overflow
  | Raised e => e = OverflowError /\ instant_overflow <= target
  end.
Proof.
  intros Hnow Hk target. pose proof (valid_instant now Hnow) as Hi.
  unfold bind. destruct (mk_timedelta d h mi) as [td|e] eqn:Etd.
  - pose proof (mk_timedelta_returns _ _ _ _ Etd) as Hus.
    destruct (dt_add now td) as [t|e] eqn:Eadd.
    + pose proof (dt_add_valid _ _ _ Eadd) as Hv.
      pose proof (dt_add_instant _ _ _ Eadd) as Ht.
      pose proof (valid_instant t Hv). unfold target.
      split; [exact Hv|split; lia].
    + destruct (dt_add_overflow _ _ _ Eadd) as [-> Ho].
      split; [reflexivity|]. unfold target. lia.
  - destruct (mk_timedelta_overflow _ _ _ _ Etd) as [-> Ho].
    split; [reflexivity|]. unfold target, instant_overflow, MAXORDINAL in *.
    lia.
Qed.

Section ParseInstants.
Context {U : Interpreter}.

(** X6: the ['через N минут'] rule.  For a phrase in which the pattern is
    found and whose number [int()] converts to [n], the parser returns the
    instant exactly [n] minutes after [now], with the lower-cased text
    without the matched span, trimmed; when that instant is past
    9999-12-31 the call raises [OverflowError] and returns nothing. *)
Theorem in_minutes_rule now text m n :
  valid_datetime now = true ->
  re_search re_cherez_minut (lower text) = Some m ->
  py_int (group m 1) = Returned n ->
  let target := instant now + n * 60000000 in
  (target < instant_overflow ->
   exists t,
     parse_reminder_from_text now text
     = Returned (Some t, strip (m_pre m ++ m_post m))
     /\ valid_datetime t = true /\ instant t = target)
  /\ (instant_overflow <= target ->
      parse_reminder_from_text now text = Raised OverflowError).
Proof.
  intros Hnow Hs Hn target.
  pose proof (py_int_nonneg _ _ Hn) as H0.
  pose proof (shift_by now 0 0 n Hnow ltac:(lia)) as Hshift.
  cbv zeta in Hshift.
  replace (((0 * 24 + 0) * 60 + n) * 60000000) with (n * 60000000)
    in Hshift by lia.
  unfold parse_reminder_from_text, patterns. cbn [parse_loop].
  rewrite Hs. unfold resolve. rewrite Hn. cbn [bind].
  rewrite (re_sub_first_search _ _ _ Hs).
  unfold bind in *.
  destruct (mk_timedelta 0 0 n) as [td|e].
  - destruct (dt_add now td) as [t|e].
    + destruct Hshift as [Hv [Ht Hlt]]. split; [|unfold target; lia].
      intros _. exists t. auto.
    + destruct Hshift as [-> Ho]. split; [unfold target; lia|reflexivity].
  - destruct Hshift as [-> Ho]. split; [unfold target; lia|reflexivity].
Qed.

(** X7: the ['через N час'] rule, reached when ['через N минут'] is not
    found: the instant exactly [n] hours after [now], or [OverflowError]
    past the end of the calendar. *)
Theorem in_hours_rule now text m n :
  valid_datetime now = true ->
  re_search re_cherez_minut (lower text) = None ->
  re_search re_cherez_chasov (lower text) = Some m ->
  py_int (group m 1) = Returned n ->
  let target := instant now + n * 3600000000 in
  (target < instant_overflow ->
   exists t,
     parse_reminder_from_text now text
     = Returned (Some t, strip (m_pre m ++ m_post m))
     /\ valid_datetime t = true /\ instant t = target)
  /\ (instant_overflow <= target ->
      parse_reminder_from_text now text = Raised OverflowError).
Proof.
  intros Hnow Hs1 Hs Hn target.
  pose proof (py_int_nonneg _ _ Hn) as H0.
  pose proof (shift_by now 0 n 0 Hnow ltac:(lia)) as Hshift.
  cbv zeta in Hshift.
  replace (((0 * 24 + n) * 60 + 0) * 60000000) with (n * 3600000000)
    in Hshift by lia.
  unfold parse_reminder_from_text, patterns. cbn [parse_loop].
  rewrite Hs1, Hs. unfold resolve. rewrite Hn. cbn [bind].
  rewrite (re_sub_first_search _ _ _ Hs).
  unfold bind in *.
  destruct (mk_timedelta 0 n 0) as [td|e].
  - destruct (dt_add now td) as [t|e].
    + destruct Hshift as [Hv [Ht Hlt]]. split; [|unfold target; lia].
      intros _. exists t. auto.
    + destruct Hshift as [-> Ho]. split; [unfold target; lia|reflexivity].
  - destruct Hshift as [-> Ho]. split; [unfold target; lia|reflexivity].
Qed.

Lemma replace_hm_returns now h mi t :
  valid_datetime now = true ->
  replace_hm now h mi = Returned t ->
  valid_datetime t = true /\ toordinal t = toordinal now
  /\ second t = 0 /\ microsecond t = 0.
Proof.
  intros Hnow. unfold replace_hm.
  destruct ((0 <=? h) && (h <=? 23)) eqn:Eh; [|discriminate].
  destruct ((0 <=? mi) && (mi <=? 59)) eqn:Emi; [|discriminate].
  cbn [negb]. injection 1 as <-.
  destruct (valid_fields now Hnow) as [Hy [Hm [Hd _]]].
  apply andb_prop in Eh, Emi. destruct Eh as [Eh1 Eh2], Emi as [Em1 Em2].
  split; [|repeat split].
  unfold valid_datetime. cbn [year month day hour minute second microsecond].
  rewrite Eh1, Eh2, Em1, Em2.
  repeat (apply andb_true_intro; split); try reflexivity; apply Z.leb_le; lia.
Qed.

(** What [resolve] returns is a datetime that is not before [now]. *)
Lemma resolve_not_before name re m text_lower now t body :
  valid_datetime now = true ->
  resolve name re m text_lower now = Returned (Some t, body) ->
  valid_datetime t = true /\ instant now <= instant t.
Proof.
  intros Hnow. pose proof (valid_instant now Hnow) as Hi.
  unfold resolve. destruct name.
  - destruct (py_int (group m 1)) as [n|] eqn:En; [|discriminate].
    cbn [bind]. pose proof (py_int_nonneg _ _ En).
    pose proof (shift_by now 0 0 n Hnow ltac:(lia)) as Hshift.
    unfold bind in *. destruct (mk_timedelta 0 0 n); [|discriminate].
    destruct (dt_add now a); [|discriminate].
    injection 1 as <- _. cbv zeta in Hshift. split; [tauto|lia].
  - destruct (py_int (group m 1)) as [n|] eqn:En; [|discriminate].
    cbn [bind]. pose proof (py_int_nonneg _ _ En).
    pose proof (shift_by now 0 n 0 Hnow ltac:(lia)) as Hshift.
    unfold bind in *. destruct (mk_timedelta 0 n 0); [|discriminate].
    destruct (dt_add now a); [|discriminate].
    injection 1 as <- _. cbv zeta in Hshift. split; [tauto|lia].
  - destruct (py_int (group m 1)) as [h|]; [|discriminate].
    destruct (py_int (group m 2)) as [mi|]; [|discriminate].
    cbn [bind]. destruct (replace_hm now h mi) as [t0|] eqn:Er;
      [|discriminate].
    cbn [bind]. destruct (replace_hm_returns _ _ _ _ Hnow Er) as [Hv0 [Ho _]].
    destruct (dt_ltb t0 now) eqn:Elt.
    + pose proof (shift_by t0 1 0 0 Hv0 ltac:(lia)) as Hshift.
      unfold bind in *. destruct (mk_timedelta 1 0 0); [|discriminate].
      destruct (dt_add t0 a); [|discriminate].
      injection 1 as <- _. cbv zeta in Hshift. split; [tauto|].
      pose proof (time_of_day_range now Hnow).
      pose proof (time_of_day_range t0 Hv0).
      unfold instant in *. rewrite Ho in *. lia.
    + cbn [bind]. injection 1 as <- _. split; [exact Hv0|].
      now apply dt_ltb_false_instant.
  - destruct (py_int (group m 1)) as [h|]; [|discriminate].
    destruct (py_int (group m 2)) as [mi|]; [|discriminate].
    cbn [bind]. destruct (replace_hm now h mi) as [t0|] eqn:Er;
      [|discriminate].
    cbn [bind]. destruct (replace_hm_returns _ _ _ _ Hnow Er) as [Hv0 [Ho _]].
    pose proof (shift_by t0 1 0 0 Hv0 ltac:(lia)) as Hshift.
    unfold bind in *. destruct (mk_timedelta 1 0 0); [|discriminate].
    destruct (dt_add t0 a); [|discriminate].
    injection 1 as <- _. cbv zeta in Hshift. split; [tauto|].
    pose proof (time_of_day_range now Hnow).
    pose proof (time_of_day_range t0 Hv0).
    unfold instant in *. rewrite Ho in *. lia.
Qed.

(** X8: a time the parser returns is never in the past: it is a datetime
    of the calendar, and [t < now] is false for the clock reading [now]
    the parser used. *)
Theorem parsed_time_not_before_now now text t body :
  valid_datetime now = true ->
  parse_reminder_from_text now text = Returned (Some t, body) ->
  valid_datetime t = true /\ dt_ltb t now = false
  /\ instant now <= instant t.
Proof.
  intros Hnow. unfold parse_reminder_from_text.
  rewrite parse_loop_first_match.
  destruct (first_match_in patterns (lower text)) as [[[name re] m]|];
    [|discriminate].
  intros H. destruct (resolve_not_before _ _ _ _ _ _ _ Hnow H) as [Hv Hle].
  split; [exact Hv|]. split; [|exact Hle].
  now apply instant_dt_ltb.
Qed.

(** A branch raises [ValueError] or [OverflowError], nothing else. *)
Lemma resolve_raises name re m text_lower now e :
  resolve name re m text_lower now = Raised e ->
  e = ValueError \/ e = OverflowError.
Proof.
  assert (Hint : forall s e', py_int s = Raised e' -> e' = ValueError).
  { intros s e'. unfold py_int. destruct s as [|c s]; [now injection 1|].
    destruct (_ && _)%nat; [now injection 1|].
    generalize 0. induction (c :: s) as [|x l IH]; intros acc;
      cbn [int_digits]; [discriminate|].
    destruct (decimal x); [apply IH|now injection 1]. }
  assert (Htd : forall d h mi e', mk_timedelta d h mi = Raised e' ->
                                  e' = OverflowError).
  { intros d h mi e' H. now destruct (mk_timedelta_overflow _ _ _ _ H). }
  assert (Hadd : forall a d e', dt_add a d = Raised e' -> e' = OverflowError).
  { intros a d e' H. now destruct (dt_add_overflow _ _ _ H). }
  assert (Hrep : forall a h mi e', replace_hm a h mi = Raised e' ->
                                   e' = ValueError).
  { intros a h mi e'. unfold replace_hm.
    destruct (negb _); [now injection 1|].
    destruct (negb _); [now injection 1|discriminate]. }
  unfold resolve, bind.
  destruct name;
    repeat match goal with
           | |- context [match ?x with Returned _ => _ | Raised _ => _ end] =>
             lazymatch x with
             | context [match _ with Returned _ => _ | Raised _ => _ end] =>
               fail
             | _ => destruct x eqn:?
             end
           | |- context [if ?b then _ else _] => destruct b eqn:?
           end;
    try discriminate; injection 1 as <-;
    try match goal with
        | H : (if ?b then _ else _) = Raised _ |- _ =>
          destruct b; [|discriminate H]
        end;
    repeat match goal with
           | H : py_int _ = Raised _ |- _ => apply Hint in H
           | H : mk_timedelta _ _ _ = Raised _ |- _ => apply Htd in H
           | H : dt_add _ _ = Raised _ |- _ => apply Hadd in H
           | H : replace_hm _ _ _ = Raised _ |- _ => apply Hrep in H
           end; subst; auto.
Qed.

End ParseInstants.


(* ================================================================= *)
(** ** [sanitize_user_input] *)

Section SanitizeFacts.
Context {U : Interpreter}.

Lemma lstrip_suffix s : exists p, s = p ++ lstrip s /\ Forall (fun c => isspace c = true) p.
Proof.
  induction s as [|c s [p [IH Hp]]]; cbn [lstrip].
  - exists []. split; [reflexivity|constructor].
  - destruct (isspace c) eqn:Ec.
    + exists (c :: p). split; [simpl; now f_equal|now constructor].
    + exists []. split; [reflexivity|constructor].
Qed.

Lemma lstrip_head s c rest : lstrip s = c :: rest -> isspace c = false.
Proof.
  induction s as [|x s IH]; cbn [lstrip]; [discriminate|].
  destruct (isspace x) eqn:Ex; [exact IH|].
  injection 1 as <- _. exact Ex.
Qed.

Lemma lstrip_fixed s : (forall c rest, s = c :: rest -> isspace c = false) -> lstrip s = s.
Proof.
  destruct s as [|c s]; [reflexivity|]. intros H. cbn [lstrip].
  now rewrite (H c s eq_refl).
Qed.

(** [strip] cuts white space from both ends. *)
Lemma strip_infix s :
  exists p q, s = p ++ strip s ++ q
              /\ Forall (fun c => isspace c = true) p
              /\ Forall (fun c => isspace c = true) q.
Proof.
  unfold strip. destruct (lstrip_suffix s) as [p [Hs Hp]].
  destruct (lstrip_suffix (rev (lstrip s))) as [q [Hr Hq]].
  exists p, (rev q). split; [|split].
  - rewrite Hs at 1. f_equal.
    rewrite <- rev_app_distr, <- Hr. now rewrite rev_involutive.
  - exact Hp.
  - apply Forall_rev. exact Hq.
Qed.

Lemma strip_first s c rest : strip s = c :: rest -> isspace c = false.
Proof.
  unfold strip. intros H.
  destruct (lstrip_suffix (rev (lstrip s))) as [q [Hr Hq]].
  destruct (lstrip (rev (lstrip s))) as [|z w] eqn:Ez; [discriminate|].
  (* strip s = rev (z :: w): its first character is the last of
     [lstrip s], or rather a character of [lstrip s] that is first *)
  assert (Hl : lstrip s = rev (z :: w) ++ rev q).
  { rewrite <- rev_app_distr, <- Hr. now rewrite rev_involutive. }
  rewrite H in Hl. simpl in Hl. exact (lstrip_head _ _ _ Hl).
Qed.

Lemma strip_last s a c : strip s = a ++ [c] -> isspace c = false.
Proof.
  unfold strip. intros H.
  assert (Hl : lstrip (rev (lstrip s)) = c :: rev a).
  { rewrite <- (rev_involutive (lstrip (rev (lstrip s)))), H.
    now rewrite rev_app_distr. }
  exact (lstrip_head _ _ _ Hl).
Qed.

Lemma strip_fixed s :
  (forall c rest, s = c :: rest -> isspace c = false) ->
  (forall a c, s = a ++ [c] -> isspace c = false) ->
  strip s = s.
Proof.
  intros Hf Hl. unfold strip. rewrite (lstrip_fixed s Hf).
  rewrite lstrip_fixed; [apply rev_involutive|].
  intros c rest Hr. apply (Hl (rev rest)).
  rewrite <- (rev_involutive s), Hr. reflexivity.
Qed.

Lemma single_spaced_weaken s : forall b,
  single_spaced b s = true -> single_spaced false s = true.
Proof.
  destruct s as [|c s]; intros b; cbn [single_spaced]; [reflexivity|].
  destruct (isspace c); [|trivial].
  destruct b; [discriminate|trivial].
Qed.

Lemma collapse_single_spaced s : forall b,
  single_spaced b (collapse_spaces b s) = true.
Proof.
  induction s as [|c s IH]; intros b; cbn [collapse_spaces];
    [reflexivity|].
  destruct (isspace c) eqn:Ec.
  - destruct b; [apply IH|]. cbn [single_spaced].
    destruct (isspace 32); [now rewrite IH|].
    exact (single_spaced_weaken _ _ (IH true)).
  - cbn [single_spaced]. rewrite Ec. apply IH.
Qed.

Lemma single_spaced_fixed s : forall b,
  single_spaced b s = true -> collapse_spaces b s = s.
Proof.
  induction s as [|c s IH]; intros b; cbn [single_spaced collapse_spaces];
    [reflexivity|].
  destruct (isspace c).
  - destruct b; [discriminate|]. cbn [negb andb].
    destruct (N.eqb_spec c 32) as [->|]; [|discriminate].
    intros H. now rewrite (IH true H).
  - intros H. now rewrite (IH false H).
Qed.

Lemma single_spaced_app s : forall t b,
  single_spaced b (s ++ t) = true ->
  single_spaced b s = true
  /\ exists b', single_spaced b' t = true
                /\ (b' = match rev s with
                         | c :: _ => isspace c
                         | [] => b
                         end).
Proof.
  induction s as [|c s IH]; intros t b; cbn [app single_spaced].
  - intros H. split; [reflexivity|]. now exists b.
  - assert (Hrev : forall b0, match rev (c :: s) with
                              | x :: _ => isspace x | [] => b0 end
                              = match rev s with
                                | x :: _ => isspace x | [] => isspace c end).
    { intros b0. simpl. destruct (rev s); reflexivity. }
    rewrite Hrev.
    destruct (isspace c) eqn:Ec.
    + intros H. apply andb_prop in H. destruct H as [H1 H2].
      destruct (IH t true H2) as [Hs Ht]. rewrite H1, Hs. split; [reflexivity|].
      exact Ht.
    + intros H. destruct (IH t false H) as [Hs Ht]. split; [exact Hs|].
      exact Ht.
Qed.

Lemma strip_single_spaced s :
  single_spaced false s = true -> single_spaced false (strip s) = true.
Proof.
  intros H. destruct (strip_infix s) as [p [q [Hs _]]].
  rewrite Hs in H. apply single_spaced_app in H.
  destruct H as [_ [b' [H _]]]. apply single_spaced_app in H.
  destruct H as [H _]. exact (single_spaced_weaken _ _ H).
Qed.

Lemma filter_clean s :
  Forall (fun c => is_control c = false)
         (filter (fun c => negb (is_control c)) s).
Proof.
  apply Forall_forall. intros c Hc. apply filter_In in Hc.
  destruct Hc as [_ Hc]. now destruct (is_control c).
Qed.

Lemma collapse_clean s : forall b,
  Forall (fun c => is_control c = false) s ->
  Forall (fun c => is_control c = false) (collapse_spaces b s).
Proof.
  induction s as [|c s IH]; intros b Hs; cbn [collapse_spaces];
    [constructor|].
  inversion Hs as [|? ? Hc Hs']; subst.
  destruct (isspace c); [destruct b|]; auto.
Qed.

Lemma collapse_length s : forall b,
  (List.length (collapse_spaces b s) <= List.length s)%nat.
Proof.
  induction s as [|c s IH]; intros b; cbn [collapse_spaces]; [auto|].
  pose proof (IH true). pose proof (IH false).
  destruct (isspace c); [destruct b|]; simpl; lia.
Qed.

Lemma strip_sub s P : Forall P s -> Forall P (strip s).
Proof.
  intros H. destruct (strip_infix s) as [p [q [Hs _]]].
  rewrite Hs in H. apply Forall_app in H. destruct H as [_ H].
  apply Forall_app in H. tauto.
Qed.

Lemma strip_length s : (List.length (strip s) <= List.length s)%nat.
Proof.
  destruct (strip_infix s) as [p [q [Hs _]]].
  rewrite Hs at 2. rewrite !length_app. lia.
Qed.

Lemma slice_to_length n s :
  (List.length (slice_to n s) <= List.length s)%nat
  /\ (0 <= n -> Z.of_nat (List.length (slice_to n s)) <= n).
Proof.
  unfold slice_to. destruct (Z.ltb_spec n 0).
  - split; [|lia]. rewrite length_firstn. lia.
  - rewrite length_firstn. split; lia.
Qed.

Lemma sanitize_clean text max_length :
  let out := sanitize_user_input text max_length in
  Forall (fun c => is_control c = false) out
  /\ (List.length out <= List.length text)%nat
  /\ (0 <= max_length -> Z.of_nat (List.length out) <= max_length).
Proof.
  unfold sanitize_user_input. cbv zeta.
  destruct (truthy_str text); cbn [negb].
  2:{ split; [constructor|]. split; [simpl; lia|simpl; lia]. }
  split; [|].
  - apply strip_sub, collapse_clean, filter_clean.
  - pose proof (strip_length (collapse_spaces false
       (filter (fun c => negb (is_control c)) (slice_to max_length text)))).
    pose proof (collapse_length
       (filter (fun c => negb (is_control c)) (slice_to max_length text)) false).
    pose proof (filter_length_le (fun c => negb (is_control c))
                  (slice_to max_length text)).
    destruct (slice_to_length max_length text). split; [lia|].
    intros Hn. specialize (H3 Hn). lia.
Qed.

Lemma sanitize_single_spaced text max_length :
  single_spaced false (sanitize_user_input text max_length) = true.
Proof.
  unfold sanitize_user_input. destruct (truthy_str text); [|reflexivity].
  cbn [negb]. apply strip_single_spaced, collapse_single_spaced.
Qed.

Lemma sanitize_ends text max_length :
  (forall c rest, sanitize_user_input text max_length = c :: rest ->
                  isspace c = false)
  /\ (forall a c, sanitize_user_input text max_length = a ++ [c] ->
                  isspace c = false).
Proof.
  unfold sanitize_user_input. destruct (truthy_str text); cbn [negb].
  - split; [apply strip_first|apply strip_last].
  - split; [discriminate|]. intros [|? ?]; discriminate.
Qed.

Lemma single_spaced_middle a : forall b c prev,
  single_spaced prev (a ++ c :: b) = true -> isspace c = true ->
  c = 32%N
  /\ match rev a with x :: _ => isspace x = false | [] => prev = false end
  /\ match b with y :: _ => isspace y = false | [] => True end.
Proof.
  intros b c prev H Hc. apply single_spaced_app in H.
  destruct H as [_ [b' [H Hb']]]. cbn [single_spaced] in H. rewrite Hc in H.
  apply andb_prop in H. destruct H as [H H2]. apply andb_prop in H.
  destruct H as [H0 H1]. apply N.eqb_eq in H1.
  split; [exact H1|]. split.
  - destruct (rev a); subst b'; now destruct (isspace _) in *; destruct prev.
  - destruct b as [|y b]; [trivial|]. cbn [single_spaced] in H2.
    destruct (isspace y); [discriminate|reflexivity].
Qed.

(** X10: the sanitizer's output holds none of the control characters it
    removes, is not longer than the input and, for a bound that is not
    negative, not longer than the bound. *)
Theorem sanitize_output_clean text max_length :
  let out := sanitize_user_input text max_length in
  Forall (fun c => is_control c = false) out
  /\ (List.length out <= List.length text)%nat
  /\ (0 <= max_length -> Z.of_nat (List.length out) <= max_length).
Proof. exact (sanitize_clean text max_length). Qed.

(** X11: in the sanitizer's output white space occurs only as a single
    U+0020 between two characters that are not white space: none at the
    start, none at the end, no two in a row, and no tab, line break or
    other space character. *)
Theorem sanitize_white_space text max_length a c b :
  sanitize_user_input text max_length = a ++ c :: b ->
  isspace c = true ->
  c = 32%N
  /\ (exists a' x, a = a' ++ [x] /\ isspace x = false)
  /\ (exists y b', b = y :: b' /\ isspace y = false).
Proof.
  intros Hout Hc.
  pose proof (sanitize_single_spaced text max_length) as Hs.
  destruct (sanitize_ends text max_length) as [Hfirst Hlast].
  rewrite Hout in Hs.
  destruct (single_spaced_middle a b c false Hs Hc) as [H32 [Ha Hb]].
  split; [exact H32|]. split.
  - destruct (rev a) as [|x ra] eqn:Era.
    + apply (f_equal (@rev N)) in Era. rewrite rev_involutive in Era.
      subst a. specialize (Hfirst c b Hout). congruence.
    + exists (rev ra), x. split; [|exact Ha].
      rewrite <- (rev_involutive a), Era. reflexivity.
  - destruct b as [|y b'].
    + specialize (Hlast a c Hout). congruence.
    + exists y, b'. split; [reflexivity|exact Hb].
Qed.

Lemma sanitize_twice text max_length :
  0 <= max_length ->
  sanitize_user_input (sanitize_user_input text max_length) max_length
  = sanitize_user_input text max_length.
Proof.
  intros Hn. set (out := sanitize_user_input text max_length).
  destruct (sanitize_clean text max_length) as [Hclean [_ Hlen]].
  fold out in Hclean, Hlen. specialize (Hlen Hn).
  pose proof (sanitize_single_spaced text max_length) as Hs.
  destruct (sanitize_ends text max_length) as [Hfirst Hlast].
  fold out in Hs, Hfirst, Hlast.
  unfold sanitize_user_input at 1.
  destruct (truthy_str out) eqn:Et; cbn [negb].
  2:{ now destruct out. }
  assert (Hslice : slice_to max_length out = out).
  { unfold slice_to. destruct (Z.ltb_spec max_length 0); [lia|].
    apply firstn_all2. lia. }
  rewrite Hslice.
  assert (Hfilter : filter (fun c => negb (is_control c)) out = out).
  { apply forallb_filter_id. apply forallb_forall. intros c Hc.
    rewrite Forall_forall in Hclean. now rewrite (Hclean c Hc). }
  rewrite Hfilter, (single_spaced_fixed out false Hs).
  apply strip_fixed; assumption.
Qed.

(** X12: sanitizing twice is sanitizing once: every stage of the
    sanitizer leaves a sanitized text as it is. *)
Theorem sanitize_idempotent text max_length :
  0 <= max_length ->
  sanitize_user_input (sanitize_user_input text max_length) max_length
  = sanitize_user_input text max_length.
Proof. exact (sanitize_twice text max_length). Qed.

End SanitizeFacts.

(* ================================================================= *)
(** ** Capture session: what [listen] gives back *)




Lemma listen_loop_budget ms mc fr frames : forall s r,
  0 < mc ->
  mc <= r + Z.of_nat (List.length frames) ->
  r < mc ->
  (exists res, listen_loop ms (Some mc) fr frames s r = Done res)
  /\ listen_loop ms (Some mc) fr frames s r
     = listen_loop ms (Some mc) fr (firstn (Z.to_nat (mc - r)) frames) s r.
Proof.
  induction frames as [|f rest IH]; intros s r Hmc Hlen Hr.
  - simpl in Hlen. lia.
  - replace (Z.to_nat (mc - r)) with (S (Z.to_nat (mc - (r + 1)))) by lia.
    rewrite firstn_cons. cbn [listen_loop].
    assert (Hchecks : forall s',
      (exists res,
        (if ms <=? s' then Done (final_text fr (r + 1))
         else if truthy_Z mc && (mc <=? r + 1)
              then Done (final_text fr (r + 1))
              else listen_loop ms (Some mc) fr rest s' (r + 1)) = Done res)
      /\ (if ms <=? s' then Done (final_text fr (r + 1))
          else if truthy_Z mc && (mc <=? r + 1)
               then Done (final_text fr (r + 1))
               else listen_loop ms (Some mc) fr rest s' (r + 1))
         = (if ms <=? s' then Done (final_text fr (r + 1))
            else if truthy_Z mc && (mc <=? r + 1)
                 then Done (final_text fr (r + 1))
                 else listen_loop ms (Some mc) fr
                        (firstn (Z.to_nat (mc - (r + 1))) rest) s' (r + 1))).
    { intros s'. destruct (ms <=? s'); [split; [eauto|reflexivity]|].
      replace (truthy_Z mc) with true
        by (unfold truthy_Z; destruct (Z.eqb_spec mc 0); [lia|reflexivity]).
      cbn [andb]. destruct (Z.leb_spec mc (r + 1));
        [split; [eauto|reflexivity]|].
      apply IH; [lia| |lia]. simpl in Hlen. lia. }
    destruct f as [t|p|e].
    + destruct (truthy_str t); [split; [eauto|reflexivity]|apply Hchecks].
    + destruct (truthy_str p); apply Hchecks.
    + split; [eauto|reflexivity].
Qed.

(** X14: the recording limit.  With a [timeout] worth [mc >= 1] chunks the
    session has ended by the time [mc] chunks have arrived: it then gives
    a result, and chunks after the [mc]-th are never looked at. *)
Theorem listen_stops_at_limit c t stream fr frames mc :
  truthy_Q t = true ->
  chunks_of c t = Returned mc ->
  0 < mc ->
  mc <= Z.of_nat (List.length frames) ->
  (exists res, listen c (Some t) stream fr frames = Done res)
  /\ listen c (Some t) stream fr frames
     = listen c (Some t) stream fr (firstn (Z.to_nat mc) frames).
Proof.
  intros Ht Hmc Hpos Hlen. unfold listen, listen_try.
  destruct stream as [[]|e].
  2:{ split; [|reflexivity]. destruct (is_Exception e); eauto. }
  replace (chunks_of c (silence_timeout c))
    with (Returned (A := Z)
            (Qtrunc (silence_timeout c * inject_Z (sample_rate c)
                     / inject_Z (chunk_size c))))
    by (unfold chunks_of in *; destruct (chunk_size c =? 0);
        [discriminate|reflexivity]).
  unfold max_chunks_of, bind. rewrite Ht, Hmc.
  set (ms := Qtrunc _).
  destruct (listen_loop_budget ms mc fr frames 0 0 Hpos ltac:(lia) Hpos)
    as [[res Hres] Heq].
  rewrite Z.sub_0_r in Heq. rewrite <- Heq, Hres. split; [|reflexivity].
  destruct res as [r|e]; [eauto|]. destruct (is_Exception e); eauto.
Qed.

(* ================================================================= *)
(** ** Wake word *)

Section WakeWordFacts.
Context {U : Interpreter}.




End WakeWordFacts.

(* ================================================================= *)
(** ** Activation: every return has its cause *)

Lemma poll_loop_cause timeout start polls : forall a r a' ev,
  poll_loop timeout start polls a = (Done r, a', ev) ->
  match r with
  | act_button =>
    (button_pressed a = true
     \/ exists p, In p polls /\ p_button_callback p = true)
    /\ button_pressed a' = false
  | act_wake_word =>
    (wake_word_detected a = true
     \/ exists p, In p polls /\ p_wake_word_listener p = true)
    /\ button_pressed a' = false /\ wake_word_detected a' = false
  | act_timeout =>
    (exists t p, timeout = Some t /\ In p polls
                 /\ ~ (p_time p - start <= t)%Q)
    /\ button_pressed a' = false /\ wake_word_detected a' = false
  | act_interrupted => exists p, In p polls /\ p_interrupt p = true
  | act_auto => False
  end.
Proof.
  induction polls as [|p rest IH]; intros a r a' ev; cbn [poll_loop];
    [discriminate|].
  destruct (p_interrupt p) eqn:Ei.
  { injection 1 as <- <- <-. exists p. split; [now left|exact Ei]. }
  destruct (button_pressed (observe p a)) eqn:Eb.
  { injection 1 as <- <- <-. split; [|reflexivity].
    simpl in Eb. apply orb_prop in Eb. destruct Eb as [Eb|Eb]; [now left|].
    right. exists p. split; [now left|exact Eb]. }
  destruct (wake_word_detected (observe p a)) eqn:Ew.
  { injection 1 as <- <- <-. split; [|split; [exact Eb|reflexivity]].
    simpl in Ew. apply orb_prop in Ew. destruct Ew as [Ew|Ew]; [now left|].
    right. exists p. split; [now left|exact Ew]. }
  destruct (timed_out timeout start (p_time p)) eqn:Et.
  { injection 1 as <- <- <-. split; [|split; [exact Eb|exact Ew]].
    unfold timed_out in Et. destruct timeout as [t|]; [|discriminate].
    apply andb_prop in Et. destruct Et as [_ Et].
    exists t, p. split; [reflexivity|]. split; [now left|].
    intros Hle. apply Qle_bool_iff in Hle. rewrite Hle in Et. discriminate. }
  destruct (poll_loop timeout start rest (observe p a)) as [[r0 a0] ev0] eqn:El.
  injection 1 as -> -> <-. specialize (IH _ _ _ _ El).
  simpl in Eb, Ew. apply orb_false_elim in Eb, Ew.
  destruct Eb as [Eb1 Eb2], Ew as [Ew1 Ew2].
  destruct r; simpl in IH.
  - destruct IH as [[IH|[q [Hq IH]]] H2]; (split; [|exact H2]).
    + rewrite Eb1, Eb2 in IH. discriminate.
    + right. exists q. split; [now right|exact IH].
  - destruct IH as [[IH|[q [Hq IH]]] H2]; (split; [|exact H2]).
    + rewrite Ew1, Ew2 in IH. discriminate.
    + right. exists q. split; [now right|exact IH].
  - destruct IH as [[t [q [Ht [Hq IH]]]] H2]. split; [|exact H2].
    exists t, q. split; [exact Ht|]. split; [now right|exact IH].
  - contradiction.
  - destruct IH as [q [Hq IH]]. exists q. split; [now right|exact IH].
Qed.

(** X16: no activation without its cause, and no flag left behind that
    was served.  ['button'] is returned only if the flag was set at the
    call or the callback ran during it, and clears the flag;
    ['wake_word'] only if that flag was set or a listener reported, and
    then neither flag is pending; ['timeout'] only for a timeout that has
    run out, with no flag pending; ['auto'] only with both methods
    disabled, the manager unchanged. *)
Theorem activation_has_cause stt_engine timeout start polls a r a' ev :
  wait_for_activation stt_engine timeout start polls a = (Done r, a', ev) ->
  match r with
  | act_button =>
    (button_pressed a = true
     \/ exists p, In p polls /\ p_button_callback p = true)
    /\ button_pressed a' = false
  | act_wake_word =>
    (wake_word_detected a = true
     \/ exists p, In p polls /\ p_wake_word_listener p = true)
    /\ button_pressed a' = false /\ wake_word_detected a' = false
  | act_timeout =>
    (exists t p, timeout = Some t /\ In p polls
                 /\ ~ (p_time p - start <= t)%Q)
    /\ button_pressed a' = false /\ wake_word_detected a' = false
  | act_interrupted => exists p, In p polls /\ p_interrupt p = true
  | act_auto =>
    gpio_enabled a = false /\ wake_word_enabled a = false /\ a' = a
  end.
Proof.
  unfold wait_for_activation.
  destruct (negb (gpio_enabled a) && negb (wake_word_enabled a)) eqn:En.
  - injection 1 as <- <- _.
    destruct (gpio_enabled a), (wake_word_enabled a); try discriminate.
    auto.
  - destruct (poll_loop timeout start polls a) as [[r0 a0] ev0] eqn:El.
    injection 1 as -> -> _. pose proof (poll_loop_cause _ _ _ _ _ _ _ El) as H.
    destruct r; try exact H. contradiction.
Qed.

(* ================================================================= *)
(** ** Command router *)

Lemma contains_eq word text :
  contains word text
  = match strip_prefix word text with
    | Some _ => true
    | None =>
      match text with
      | [] => false
      | _ :: rest => contains word rest
      end
    end.
Proof. destruct text; reflexivity. Qed.

(** [word in text]: the word stands somewhere in the text. *)
Lemma contains_split word text :
  contains word text = true -> exists p q, text = p ++ word ++ q.
Proof.
  induction text as [|c text IH]; rewrite contains_eq.
  - destruct (strip_prefix word []) as [r|] eqn:E; [|discriminate].
    intros _. exists [], r. exact (strip_prefix_sound _ _ _ E).
  - destruct (strip_prefix word (c :: text)) as [r|] eqn:E.
    + intros _. exists [], r. exact (strip_prefix_sound _ _ _ E).
    + intros H. destruct (IH H) as [p [q ->]]. now exists (c :: p), q.
Qed.

Lemma contains_in word text c :
  contains word text = true -> In c word -> In c text.
Proof.
  intros H Hc. destruct (contains_split _ _ H) as [p [q ->]].
  apply in_or_app. right. apply in_or_app. now left.
Qed.

Section RouterFacts.
Context {U : Interpreter}.

(** The characters of a pattern's literals. *)
Lemma matches_chars re w gs :
  matches re w gs ->
  Forall (fun x =>
            (exists l, In (Lit l) re /\ In x l)
            \/ isspace x = true \/ isdigit x = true) w.
Proof.
  induction 1 as [|l re w gs _ IH|capture c re run w gs Hne Hrun _ IH].
  - constructor.
  - apply Forall_app. split.
    + apply Forall_forall. intros x Hx. left. exists l. split; [now left|auto].
    + eapply Forall_impl; [|exact IH]. intros x [[l' [H1 H2]]|H]; [|now right].
      left. exists l'. split; [now right|exact H2].
  - apply Forall_app. split.
    + eapply Forall_impl; [|exact Hrun]. intros x Hx. right.
      destruct c; simpl in Hx; auto.
    + eapply Forall_impl; [|exact IH]. intros x [[l' [H1 H2]]|H]; [|now right].
      left. exists l'. split; [now right|exact H2].
Qed.

(** The letter U+043F of the command word is in no time expression. *)
Lemma command_letter_unmatched name re w gs :
  isspace 1087 = false -> decimal 1087 = None ->
  In (name, re) patterns -> matches re w gs -> ~ In 1087%N w.
Proof.
  intros Hsp Hdig Hin Hm Hw.
  pose proof (matches_chars _ _ _ Hm) as Hall.
  rewrite Forall_forall in Hall. specialize (Hall _ Hw).
  destruct Hall as [[l [Hl Hx]]|[H|H]].
  - unfold patterns in Hin. simpl in Hin.
    destruct Hin as [E|[E|[E|[E|[]]]]]; injection E as _ <-;
      simpl in Hl;
      repeat match goal with
             | H : _ \/ _ |- _ => destruct H as [H|H]
             | H : False |- _ => contradiction
             | H : Lit _ = Lit _ |- _ => injection H as <-
             | H : Plus _ _ = Lit _ |- _ => discriminate H
             | H : ws = Lit _ |- _ => discriminate H
             | H : digits = Lit _ |- _ => discriminate H
             end;
      vm_compute in Hx; intuition discriminate.
  - congruence.
  - unfold isdigit in H. rewrite Hdig in H. discriminate.
Qed.

Lemma strip_keeps s c : isspace c = false -> In c s -> In c (strip s).
Proof.
  intros Hc Hin. destruct (strip_infix s) as [p [q [Hs [Hp Hq]]]].
  rewrite Hs in Hin. rewrite Forall_forall in Hp, Hq.
  apply in_app_or in Hin. destruct Hin as [Hin|Hin].
  - specialize (Hp _ Hin). congruence.
  - apply in_app_or in Hin. destruct Hin as [Hin|Hin]; [exact Hin|].
    specialize (Hq _ Hin). congruence.
Qed.

(** A parsed reminder command keeps the letter of its command word. *)
Lemma parsed_command_body now text t body :
  isspace 1087 = false -> decimal 1087 = None ->
  In 1087%N (lower text) ->
  parse_reminder_from_text now text = Returned (Some t, body) ->
  In 1087%N body.
Proof.
  intros Hsp Hdig Hin. unfold parse_reminder_from_text.
  rewrite parse_loop_first_match.
  destruct (first_match_in patterns (lower text)) as [[[name re] m]|] eqn:Ef;
    [|discriminate].
  destruct (first_match_in_search _ _ _ _ _ Ef) as [Hp Hs].
  intros Hr. destruct (resolve_text _ _ _ _ _ _ Hs Hr) as [t' Ht'].
  injection Ht' as _ ->.
  destruct (re_search_sound _ _ _ Hs) as [w [Hw Hm]].
  apply strip_keeps; [exact Hsp|].
  rewrite Hw in Hin. apply in_app_or in Hin.
  apply in_or_app. destruct Hin as [Hin|Hin]; [now left|].
  apply in_app_or in Hin. destruct Hin as [Hin|Hin]; [|now right].
  exfalso. exact (command_letter_unmatched _ _ _ _ Hsp Hdig Hp Hm Hin).
Qed.

Lemma reminder_word_letter s :
  contains (utf8 "напомни") s || contains (utf8 "напоминание") s = true ->
  In 1087%N s.
Proof.
  intros H. apply orb_prop in H.
  destruct H as [H|H]; apply (contains_in _ _ _ H); vm_compute; tauto.
Qed.

(** X17: a reminder command is never turned down for its text.  When the
    phrase holds the command word (["напомни"] or ["напоминание"], the test
    of the router), the text left after the time expression is cut out
    still holds the letter U+043F of that word: [_handle_reminder] says
    that it did not understand only if no time expression was found, and
    otherwise hands the text and the time to [add_reminder]. *)
Theorem reminder_command_keeps_its_word fault now clock text m m' ev :
  isspace 1087 = false -> decimal 1087 = None ->
  contains (utf8 "напомни") (lower text)
  || contains (utf8 "напоминание") (lower text) = true ->
  handle_reminder fault now clock text m = Returned (m', ev) ->
  (parse_reminder_from_text now text = Returned (None, text)
   /\ m' = m /\ ev = [EvSpeak MsgTimeNotUnderstood])
  \/ (exists t body message ev',
        parse_reminder_from_text now text = Returned (Some t, body)
        /\ In 1087%N body
        /\ add_reminder fault clock body t m = (message, m', ev')
        /\ ev = ev' ++ [EvSpeak (snd message)]).
Proof.
  intros Hsp Hdig Hkw. apply reminder_word_letter in Hkw.
  unfold handle_reminder, bind.
  destruct (parse_reminder_from_text now text) as [[[t|] body]|] eqn:Ep;
    [| |discriminate].
  - pose proof (parsed_command_body _ _ _ _ Hsp Hdig Hkw Ep) as Hbody.
    destruct body as [|c body]; [contradiction|]. cbn [truthy_str].
    destruct (add_reminder fault clock (c :: body) t m)
      as [[[ok message] m1] ev1] eqn:Ea.
    injection 1 as <- <-. right. exists t, (c :: body), (ok, message), ev1.
    auto.
  - injection 1 as <- <-. left. split; [|auto]. f_equal. f_equal.
    unfold parse_reminder_from_text in Ep.
    rewrite parse_loop_first_match in Ep.
    destruct (first_match_in patterns (lower text)) as [[[name re] m0]|] eqn:Ef.
    + destruct (first_match_in_search _ _ _ _ _ Ef) as [_ Hs].
      destruct (resolve_text _ _ _ _ _ _ Hs Ep) as [t' Ht']. discriminate.
    + now injection Ep.
Qed.

Lemma add_reminder_silent fault clock text t m :
  filter is_speak (map Ev (snd (add_reminder fault clock text t m))) = [].
Proof.
  unfold add_reminder. destruct (negb (enabled m)); [reflexivity|].
  destruct fault as [[[|k]|]|]; reflexivity.
Qed.

(** What [_handle_reminder] says. *)
Lemma handle_reminder_speaks fault now clock text m m' ev :
  handle_reminder fault now clock text m = Returned (m', ev) ->
  List.length (filter is_speak (map Ev ev)) = 1%nat.
Proof.
  unfold handle_reminder, bind.
  destruct (parse_reminder_from_text now text) as [[[t|] body]|];
    [| |discriminate].
  - destruct (truthy_str body).
    + pose proof (add_reminder_silent fault clock body t m) as Hs.
      destruct (add_reminder fault clock body t m) as [[[ok message] m1] ev1].
      injection 1 as <- <-. simpl in Hs.
      rewrite map_app, filter_app, Hs. reflexivity.
    + injection 1 as <- <-. reflexivity.
  - injection 1 as <- <-. reflexivity.
Qed.

Lemma handle_reminder_raises fault now clock text m e :
  handle_reminder fault now clock text m = Raised e ->
  e = ValueError \/ e = OverflowError.
Proof.
  unfold handle_reminder, bind.
  destruct (parse_reminder_from_text now text) as [[[t|] body]|e'] eqn:Ep.
  - destruct (truthy_str body); [|discriminate].
    destruct (add_reminder fault clock body t m) as [[[ok message] m1] ev1].
    discriminate.
  - discriminate.
  - injection 1 as <-. unfold parse_reminder_from_text in Ep.
    rewrite parse_loop_first_match in Ep.
    destruct (first_match_in patterns (lower text)) as [[[name re] m0]|];
      [|discriminate].
    exact (resolve_raises _ _ _ _ _ _ Ep).
Qed.

Lemma handle_calendar_event_cases w now clock text r acts :
  handle_calendar_event w now clock text = (r, acts) ->
  match r with
  | Returned _ => List.length (filter is_speak acts) = 1%nat
  | Raised e => acts = [] /\ (e = ValueError \/ e = OverflowError)
  end.
Proof.
  unfold handle_calendar_event.
  destruct (parse_reminder_from_text now text) as [[t body]|e] eqn:Ep.
  - destruct (match t with
              | Some t0 => Returned t0
              | None => delta <- mk_timedelta 0 1 0 ;; dt_add clock delta
              end) as [t1|e] eqn:Et.
    + destruct (create_event w _ t1) as [ok message].
      injection 1 as <- <-. reflexivity.
    + injection 1 as <- <-. split; [reflexivity|].
      destruct t; [discriminate|]. right.
      change (mk_timedelta 0 1 0)
        with (Returned {| td_days := 0; td_seconds := 3600;
                          td_microseconds := 0 |}) in Et.
      cbn [bind] in Et. now destruct (dt_add_overflow _ _ _ Et).
  - injection 1 as <- <-. split; [reflexivity|].
    unfold parse_reminder_from_text in Ep.
    rewrite parse_loop_first_match in Ep.
    destruct (first_match_in patterns (lower text)) as [[[name re] m0]|];
      [|discriminate].
    exact (resolve_raises _ _ _ _ _ _ Ep).
Qed.

Lemma process_rest_reply w fault now clock text text_lower a :
  reply_shape a (process_rest w fault now clock text text_lower a).
Proof.
  unfold process_rest.
  destruct (contains (utf8 "напомни") text_lower
            || contains (utf8 "напоминание") text_lower).
  { destruct (handle_reminder fault now clock text (reminders a))
      as [[m ev]|e] eqn:Eh; simpl.
    - exact (handle_reminder_speaks _ _ _ _ _ _ _ Eh).
    - split; [reflexivity|]. split; [reflexivity|].
      exact (handle_reminder_raises _ _ _ _ _ _ Eh). }
  destruct (any_in calendar_words text_lower).
  { destruct (handle_calendar_event w now clock text) as [r acts] eqn:Ec.
    pose proof (handle_calendar_event_cases _ _ _ _ _ _ Ec) as H.
    destruct r as [[]|e]; simpl; [exact H|].
    destruct H as [-> H]. auto. }
  destruct (contains (utf8 "забудь") text_lower
            || contains (utf8 "сбрось") text_lower
            || contains (utf8 "новый разговор") text_lower); [reflexivity|].
  destruct (any_in shutdown_words text_lower); reflexivity.
Qed.

Lemma process_command_reply w fault now clock text a :
  reply_shape a (process_command w fault now clock text a).
Proof.
  unfold process_command. cbv zeta.
  pose proof (process_rest_reply w fault now clock text (lower text) a) as Hr.
  destruct (any_in weather_words (lower text)).
  { now destruct (get_weather w). }
  destruct (contains (utf8 "новост") (lower text)).
  { now destruct (get_news w). }
  destruct (any_in smart_home_words (lower text)).
  - destruct (smart_home_process_command w text) as [[|] message];
      [reflexivity|].
    destruct (process_rest w fault now clock text (lower text) a)
      as [[[[]|e] a'] acts]; exact Hr.
  - destruct (process_rest w fault now clock text (lower text) a)
      as [[[[]|e] a'] acts]; exact Hr.
Qed.

(** X18: one reply per command.  When [_process_command] returns it has
    called [tts.speak] exactly once; when it raises, which only a time
    expression makes it do, with [ValueError] or [OverflowError], it has
    said nothing and the assistant's state is as before. *)
Theorem one_reply_per_command w fault now clock text a :
  match process_command w fault now clock text a with
  | (Returned _, _, acts) => List.length (filter is_speak acts) = 1%nat
  | (Raised e, a', acts) =>
    filter is_speak acts = [] /\ a' = a
    /\ (e = ValueError \/ e = OverflowError)
  end.
Proof. exact (process_command_reply w fault now clock text a). Qed.

End RouterFacts.

Section MainLoopFacts.
Context {U : Interpreter}.

Lemma contains_join p : forall word q, contains word (p ++ word ++ q) = true.
Proof.
  induction p as [|c p IH]; intros word q; rewrite contains_eq.
  - cbn [app]. now rewrite strip_prefix_app.
  - destruct (strip_prefix word ((c :: p) ++ word ++ q)); [reflexivity|].
    cbn [app]. apply IH.
Qed.

Lemma contains_longer word tail text :
  contains (word ++ tail) text = true -> contains word text = true.
Proof.
  intros H. destruct (contains_split _ _ H) as [p [q ->]].
  rewrite <- app_assoc. apply contains_join.
Qed.

Lemma process_rest_frame w fault now clock text text_lower a :
  let '(r, a', acts) := process_rest w fault now clock text text_lower a in
  activation_manager a' = activation_manager a
  /\ (reminders a' <> reminders a ->
      contains (utf8 "напомни") text_lower
      || contains (utf8 "напоминание") text_lower = true)
  /\ (running a' <> running a ->
      running a' = false /\ any_in shutdown_words text_lower = true
      /\ acts = [Speak (utf8 "Завершаю работу. До свидания!")])
  /\ Forall (fun x => match x with
                      | LogCommand _ | SmartHome _ | Ev (EvLed _) => False
                      | _ => True
                      end) acts.
Proof.
  assert (Hev : forall ev,
            Forall (fun e => match e with EvLed _ => False | _ => True end) ev ->
            Forall (fun x => match x with
                             | LogCommand _ | SmartHome _ | Ev (EvLed _) => False
                             | _ => True
                             end) (map Ev ev)).
  { intros ev H. apply Forall_map. eapply Forall_impl; [|exact H].
    now intros []. }
  unfold process_rest.
  destruct (contains (utf8 "напомни") text_lower
            || contains (utf8 "напоминание") text_lower) eqn:Ek.
  { destruct (handle_reminder fault now clock text (reminders a))
      as [[m ev]|e] eqn:Eh.
    - split; [reflexivity|]. split; [reflexivity|].
      split; [intros H; now contradiction H|]. apply Hev.
      revert Eh. unfold handle_reminder, bind.
      destruct (parse_reminder_from_text now text) as [[[t|] body]|e];
        [| |discriminate].
      + destruct (truthy_str body).
        * unfold add_reminder. destruct (negb (enabled (reminders a))).
          -- injection 1 as <- <-. repeat constructor.
          -- destruct fault as [[[|k]|]|]; injection 1 as <- <-;
               repeat constructor.
        * injection 1 as <- <-. repeat constructor.
      + injection 1 as <- <-. repeat constructor.
    - split; [reflexivity|]. split; [reflexivity|].
      split; [intros H; now contradiction H|constructor]. }
  destruct (any_in calendar_words text_lower).
  { destruct (handle_calendar_event w now clock text) as [r acts] eqn:Ec.
    split; [reflexivity|]. split; [intros H; now contradiction H|].
    split; [intros H; now contradiction H|].
    revert Ec. unfold handle_calendar_event.
    destruct (parse_reminder_from_text now text) as [[t body]|e].
    - destruct (match t with
                | Some t0 => Returned t0
                | None => delta <- mk_timedelta 0 1 0 ;; dt_add clock delta
                end) as [t1|e].
      + destruct (create_event w _ t1) as [ok message].
        injection 1 as <- <-. repeat constructor.
      + injection 1 as <- <-. constructor.
    - injection 1 as <- <-. constructor. }
  destruct (contains (utf8 "забудь") text_lower
            || contains (utf8 "сбрось") text_lower
            || contains (utf8 "новый разговор") text_lower).
  { split; [reflexivity|]. split; [intros H; now contradiction H|].
    split; [intros H; now contradiction H|repeat constructor]. }
  destruct (any_in shutdown_words text_lower) eqn:Es.
  - split; [reflexivity|]. split; [intros H; now contradiction H|].
    split; [intros _; repeat split|repeat constructor].
  - split; [reflexivity|]. split; [intros H; now contradiction H|].
    split; [intros H; now contradiction H|repeat constructor].
Qed.

(** X19: what a command can change.  [_process_command] never touches
    the activation manager; the reminder store changes only for a phrase
    with the reminder command word; and [running] changes only by being
    switched off, for a phrase with one of the three shutdown phrases,
    after the farewell -- for ["выключись"], which contains ["выключи"],
    only after the smart-home controller has been asked and has
    declined. *)
Theorem command_changes_only_its_own w fault now clock text a :
  let '(r, a', acts) := process_command w fault now clock text a in
  activation_manager a' = activation_manager a
  /\ (reminders a' <> reminders a ->
      contains (utf8 "напомни") (lower text)
      || contains (utf8 "напоминание") (lower text) = true)
  /\ (running a' <> running a ->
      running a' = false /\ any_in shutdown_words (lower text) = true
      /\ (exists pre,
            acts = pre ++ [Speak (utf8 "Завершаю работу. До свидания!")])
      /\ (contains (utf8 "выключись") (lower text) = true ->
          In (SmartHome text) acts
          /\ fst (smart_home_process_command w text) = false)).
Proof.
  unfold process_command. cbv zeta.
  pose proof (process_rest_frame w fault now clock text (lower text) a) as Hr.
  destruct (any_in weather_words (lower text)).
  { destruct (get_weather w). repeat split; congruence. }
  destruct (contains (utf8 "новост") (lower text)).
  { destruct (get_news w). repeat split; congruence. }
  destruct (any_in smart_home_words (lower text)) eqn:Esh.
  - destruct (smart_home_process_command w text) as [[|] message].
    { repeat split; congruence. }
    destruct (process_rest w fault now clock text (lower text) a)
      as [[r a'] acts]. destruct Hr as [H1 [H2 [H3 _]]].
    split; [exact H1|]. split; [exact H2|]. intros Hrun.
    destruct (H3 Hrun) as [H4 [H5 ->]]. split; [exact H4|].
    split; [exact H5|]. split.
    + now exists [LogCommand text; SmartHome text].
    + intros _. split; [right; now left|reflexivity].
  - destruct (process_rest w fault now clock text (lower text) a)
      as [[r a'] acts]. destruct Hr as [H1 [H2 [H3 _]]].
    split; [exact H1|]. split; [exact H2|]. intros Hrun.
    destruct (H3 Hrun) as [H4 [H5 ->]]. split; [exact H4|].
    split; [exact H5|]. split.
    + now exists [LogCommand text].
    + intros Hc. exfalso.
      assert (Hw : contains (utf8 "выключи") (lower text) = true)
        by (apply (contains_longer (utf8 "выключи") (utf8 "сь")); exact Hc).
      unfold any_in, smart_home_words in Esh. cbn [existsb] in Esh.
      rewrite Hw in Esh. rewrite orb_true_r in Esh. discriminate.
Qed.

Lemma process_command_actions w fault now clock text a :
  let '(r, a', acts) := process_command w fault now clock text a in
  exists rest,
    acts = LogCommand text :: rest
    /\ Forall (fun x => match x with
                        | LogCommand _ | Ev (EvLed _) => False
                        | _ => True
                        end) rest.
Proof.
  unfold process_command. cbv zeta.
  pose proof (process_rest_frame w fault now clock text (lower text) a) as Hr.
  assert (Hweak : forall acts,
    Forall (fun x => match x with
                     | LogCommand _ | SmartHome _ | Ev (EvLed _) => False
                     | _ => True
                     end) acts ->
    Forall (fun x => match x with
                     | LogCommand _ | Ev (EvLed _) => False
                     | _ => True
                     end) acts).
  { intros acts. apply Forall_impl. intros [ | | | | | | | |[]| | ]; tauto. }
  destruct (any_in weather_words (lower text)).
  { destruct (get_weather w). eexists. split; [reflexivity|].
    repeat constructor. }
  destruct (contains (utf8 "новост") (lower text)).
  { destruct (get_news w). eexists. split; [reflexivity|].
    repeat constructor. }
  destruct (any_in smart_home_words (lower text)).
  - destruct (smart_home_process_command w text) as [[|] message].
    { eexists. split; [reflexivity|]. repeat constructor. }
    destruct (process_rest w fault now clock text (lower text) a)
      as [[r a'] acts]. destruct Hr as [_ [_ [_ H]]].
    eexists. split; [reflexivity|]. constructor; [exact I|auto].
  - destruct (process_rest w fault now clock text (lower text) a)
      as [[r a'] acts]. destruct Hr as [_ [_ [_ H]]].
    eexists. split; [reflexivity|auto].
Qed.

Lemma sanitized_text text :
  let out := sanitize_user_input text 500 in
  Forall (fun c => is_control c = false) out
  /\ (List.length out <= 500)%nat
  /\ sanitize_user_input out 500 = out.
Proof.
  cbv zeta. destruct (sanitize_clean text 500) as [H1 [_ H2]].
  split; [exact H1|]. split; [specialize (H2 ltac:(lia)); lia|].
  apply sanitize_twice. lia.
Qed.

Lemma filter_command_events ev : filter is_command (map Ev ev) = [].
Proof. induction ev; simpl; auto. Qed.

Lemma process_command_log w fault now clock text a :
  filter is_command (snd (process_command w fault now clock text a))
  = [LogCommand text].
Proof.
  pose proof (process_command_actions w fault now clock text a) as H.
  destruct (process_command w fault now clock text a) as [[r a'] acts].
  destruct H as [rest [-> Hrest]]. cbn [snd filter is_command]. f_equal.
  induction Hrest as [|x l Hx _ IH]; [reflexivity|].
  cbn [filter]. destruct x; try contradiction; exact IH.
Qed.

(** A turn processes no command, or the sanitized text that was heard. *)
Lemma main_loop_command c d t a r a' acts :
  main_loop c d t a = Done (r, a', acts) ->
  filter is_command acts = []
  \/ exists heard,
      listen c d (t_stream t) (t_final_result t) (t_frames t)
      = Done (Returned (Some heard))
      /\ truthy_str (sanitize_user_input heard 500) = true
      /\ filter is_command acts
         = [LogCommand (sanitize_user_input heard 500)].
Proof.
  unfold main_loop.
  destruct (wait_for_activation true None (t_start_time t) (t_polls t)
              (activation_manager a)) as [[ra am] ev].
  destruct ra as [r0|]; [|discriminate].
  assert (Hno : Done (A := result unit * VoiceAssistant * list action)
                     (Returned tt, set_activation_manager a am, map Ev ev)
                = Done (r, a', acts) -> filter is_command acts = []).
  { injection 1 as <- <- <-. apply filter_command_events. }
  assert (Hgo :
    match listen c d (t_stream t) (t_final_result t) (t_frames t) with
    | Blocked => Blocked
    | Done (Raised e) =>
      Done (Raised e, set_activation_manager a am,
            map Ev ev ++ [Ev (EvLed LedListening); Speak (utf8 "Слушаю")])
    | Done (Returned user_text) =>
      match user_text with
      | None =>
        Done (Returned tt, set_activation_manager a am,
              (map Ev ev ++ [Ev (EvLed LedListening); Speak (utf8 "Слушаю")])
              ++ [Speak (utf8 "Я не расслышал команду"); Ev (EvLed LedOff)])
      | Some user_text =>
        if negb (truthy_str user_text) then
          Done (Returned tt, set_activation_manager a am,
                (map Ev ev ++ [Ev (EvLed LedListening);
                               Speak (utf8 "Слушаю")])
                ++ [Speak (utf8 "Я не расслышал команду");
                    Ev (EvLed LedOff)])
        else
          if negb (truthy_str (sanitize_user_input user_text 500)) then
            Done (Returned tt, set_activation_manager a am,
                  (map Ev ev ++ [Ev (EvLed LedListening);
                                 Speak (utf8 "Слушаю")])
                  ++ [Speak (utf8 "Получена некорректная команда");
                      Ev (EvLed LedOff)])
          else
            match process_command (t_components t) (t_db_fault t) (t_now t)
                    (t_clock t) (sanitize_user_input user_text 500)
                    (set_reminders (set_activation_manager a am)
                       (with_table (reminders (set_activation_manager a am))
                                   (t_table t))) with
            | (Returned _, a', acts') =>
              Done (Returned tt, a',
                    ((map Ev ev ++ [Ev (EvLed LedListening);
                                    Speak (utf8 "Слушаю")])
                     ++ [Ev (EvLed LedProcessing)])
                    ++ acts' ++ [Ev (EvLed LedOff)])
            | (Raised e, a', acts') =>
              Done (Raised e, a',
                    ((map Ev ev ++ [Ev (EvLed LedListening);
                                    Speak (utf8 "Слушаю")])
                     ++ [Ev (EvLed LedProcessing)]) ++ acts')
            end
      end
    end = Done (r, a', acts) ->
    filter is_command acts = []
    \/ exists heard,
        listen c d (t_stream t) (t_final_result t) (t_frames t)
        = Done (Returned (Some heard))
        /\ truthy_str (sanitize_user_input heard 500) = true
        /\ filter is_command acts
           = [LogCommand (sanitize_user_input heard 500)]).
  { destruct (listen c d (t_stream t) (t_final_result t) (t_frames t))
      as [[[heard|]|e]|]; [| | |discriminate].
    - destruct (truthy_str heard); cbn [negb].
      2:{ injection 1 as <- <- <-. left.
          rewrite !filter_app, filter_command_events. reflexivity. }
      destruct (truthy_str (sanitize_user_input heard 500)) eqn:Es;
        cbn [negb].
      2:{ injection 1 as <- <- <-. left.
          rewrite !filter_app, filter_command_events. reflexivity. }
      pose proof (process_command_log (t_components t) (t_db_fault t)
                    (t_now t) (t_clock t) (sanitize_user_input heard 500)
                    (set_reminders (set_activation_manager a am)
                       (with_table (reminders (set_activation_manager a am))
                                   (t_table t)))) as Hlog.
      destruct (process_command _ _ _ _ _ _) as [[rp ap] actsp].
      cbn [snd] in Hlog.
      destruct rp as [[]|e]; injection 1 as <- <- <-; right; exists heard;
        (split; [reflexivity|]); (split; [exact Es|]);
        rewrite !filter_app, filter_command_events, Hlog; reflexivity.
    - injection 1 as <- <- <-. left.
      rewrite !filter_app, filter_command_events. reflexivity.
    - injection 1 as <- <- <-. left.
      rewrite !filter_app, filter_command_events. reflexivity. }
  destruct r0; try exact Hgo; intros H; left; exact (Hno H).
Qed.

(** X20: what reaches [_process_command].  In a call of [_main_loop] at
    most one command is processed, and its text is what
    [sanitize_user_input] made of the text [listen] returned: it is not
    empty, has at most 500 characters, none of them a control character,
    and sanitizing it again changes nothing. *)
Theorem processed_command_is_sanitized c d t a r a' acts text :
  main_loop c d t a = Done (r, a', acts) ->
  In (LogCommand text) acts ->
  (exists heard,
     listen c d (t_stream t) (t_final_result t) (t_frames t)
     = Done (Returned (Some heard))
     /\ text = sanitize_user_input heard 500)
  /\ text <> []
  /\ (List.length text <= 500)%nat
  /\ Forall (fun x => is_control x = false) text
  /\ sanitize_user_input text 500 = text
  /\ filter is_command acts = [LogCommand text].
Proof.
  intros Hm Hin.
  assert (Hf : In (LogCommand text) (filter is_command acts))
    by (apply filter_In; split; [exact Hin|reflexivity]).
  destruct (main_loop_command _ _ _ _ _ _ _ Hm) as [E|[heard [Hl [Hs E]]]];
    rewrite E in Hf; [contradiction|].
  destruct Hf as [Hf|[]]. injection Hf as <-.
  destruct (sanitized_text heard) as [Hc [Hlen Hi]]. cbv zeta in Hc, Hlen, Hi.
  split; [now exists heard|]. split.
  { intros E0. rewrite E0 in Hs. discriminate. }
  auto.
Qed.











(** X23: what [_handle_calendar_event] asks the calendar for.  For a
    phrase that is not empty the event has a summary that is not empty --
    the text left after the time expression, or the whole phrase when
    nothing is left -- and a start that is a datetime of the calendar: the
    parsed time, which is not before [now], or, when the phrase holds no
    time expression, exactly one hour after the clock reading.  The
    calendar's answer is spoken. *)
Theorem calendar_event_well_formed w now clock text acts :
  text <> [] ->
  valid_datetime now = true ->
  valid_datetime clock = true ->
  handle_calendar_event w now clock text = (Returned tt, acts) ->
  exists summary start_datetime,
    acts = [CreateEvent summary start_datetime;
            Speak (snd (create_event w summary start_datetime))]
    /\ summary <> []
    /\ valid_datetime start_datetime = true
    /\ match parse_reminder_from_text now text with
       | Returned (Some t, _) =>
         start_datetime = t /\ instant now <= instant t
       | _ => instant start_datetime = instant clock + 3600000000
       end.
Proof.
  intros Htext Hnow Hclock. unfold handle_calendar_event.
  destruct (parse_reminder_from_text now text) as [[t body]|e] eqn:Ep;
    [|discriminate].
  assert (Hsum : (if truthy_str body then body else text) <> []).
  { destruct body; [exact Htext|discriminate]. }
  destruct t as [t|].
  - destruct (create_event w _ t) as [ok message] eqn:Ec.
    injection 1 as <-. eexists. exists t. rewrite Ec.
    split; [reflexivity|]. split; [exact Hsum|].
    unfold parse_reminder_from_text in Ep.
    rewrite parse_loop_first_match in Ep.
    destruct (first_match_in patterns (lower text)) as [[[name re] m]|];
      [|discriminate].
    destruct (resolve_not_before _ _ _ _ _ _ _ Hnow Ep) as [Hv Hle]. auto.
  - pose proof (shift_by clock 0 1 0 Hclock ltac:(lia)) as Hshift.
    cbv zeta in Hshift.
    destruct (delta <- mk_timedelta 0 1 0 ;; dt_add clock delta)
      as [t1|e]; [|discriminate].
    destruct (create_event w _ t1) as [ok message] eqn:Ec.
    injection 1 as <-. eexists. exists t1. rewrite Ec.
    split; [reflexivity|]. split; [exact Hsum|].
    destruct Hshift as [Hv [Hi _]]. split; [exact Hv|]. lia.
Qed.

End MainLoopFacts.

(* ================================================================= *)
(** ** Instances *)

Lemma add_then_poll_witness :
  exists due m2,
    check_reminders None next_morning
      (snd (fst (add_reminder None ten_o_clock tea a_minute_later
                              empty_store)))
    = (Returned due, m2, [])
    /\ In (reminder_of_row (new_row [] ten_o_clock a_minute_later tea)) due.
Proof.
  destruct (add_then_poll ten_o_clock tea a_minute_later next_morning (-1)
              empty_store eq_refl eq_refl eq_refl)
    as [_ [due [m2 [H1 [H2 _]]]]].
  - lia.
  - exists due, m2. split; [exact H1|]. apply H2. reflexivity.
Defined.

Lemma upcoming_earliest_first_witness :
  Sorted datetime_le
         (fst (get_upcoming_reminders None ten_o_clock 1 three_reminders))
  /\ Z.of_nat (List.length
                 (fst (get_upcoming_reminders None ten_o_clock 1
                                              three_reminders))) <= 1.
Proof.
  destruct (upcoming_earliest_first ten_o_clock 1 three_reminders eq_refl)
    as [_ [H1 [H2 _]]].
  - lia.
  - split; [exact H2|]. apply H1. lia.
Defined.

Lemma polls_return_at_most_once_witness :
  NoDup (map r_id (polled add_and_poll_twice three_reminders)).
Proof.
  apply (polls_return_at_most_once add_and_poll_twice three_reminders).
  repeat constructor; simpl; intuition discriminate.
Defined.

Lemma in_minutes_rule_witness :
  exists t,
    parse_reminder_from_text (U := latin_cyrillic) ten_o_clock in_ten_minutes
    = Returned (Some t, strip (U := latin_cyrillic)
                              (utf8 "напомни " ++ utf8 " выпить чай"))
    /\ valid_datetime t = true
    /\ instant t = instant ten_o_clock + 10 * 60000000.
Proof.
  apply (in_minutes_rule (U := latin_cyrillic) ten_o_clock in_ten_minutes
           {| m_pre := utf8 "напомни "; m_groups := [utf8 "10"];
              m_post := utf8 " выпить чай" |} 10 eq_refl eq_refl eq_refl).
  reflexivity.
Defined.

Lemma in_hours_rule_witness :
  exists t,
    parse_reminder_from_text (U := latin_cyrillic) ten_o_clock in_two_hours
    = Returned (Some t, strip (U := latin_cyrillic)
                              (utf8 "напомни " ++ utf8 "а позвонить"))
    /\ valid_datetime t = true
    /\ instant t = instant ten_o_clock + 2 * 3600000000.
Proof.
  apply (in_hours_rule (U := latin_cyrillic) ten_o_clock in_two_hours
           {| m_pre := utf8 "напомни "; m_groups := [utf8 "2"];
              m_post := utf8 "а позвонить" |} 2 eq_refl eq_refl eq_refl
           eq_refl).
  reflexivity.
Defined.

Lemma parsed_time_not_before_now_witness :
  valid_datetime tomorrow_at_8 = true
  /\ dt_ltb tomorrow_at_8 eight_pm = false
  /\ instant eight_pm <= instant tomorrow_at_8.
Proof.
  apply (parsed_time_not_before_now (U := latin_cyrillic) eight_pm
           exercise_at_8 tomorrow_at_8
           (strip (U := latin_cyrillic) (utf8 "напомни " ++ utf8 " зарядку"))).
  - reflexivity.
  - reflexivity.
Defined.


Lemma sanitize_white_space_witness :
  32%N = 32%N
  /\ (exists a' x, utf8 "чай" = a' ++ [x]
                   /\ isspace (Interpreter := latin_cyrillic) x = false)
  /\ (exists y b', utf8 "с лимоном" = y :: b'
                   /\ isspace (Interpreter := latin_cyrillic) y = false).
Proof.
  apply (sanitize_white_space (U := latin_cyrillic) untidy 500
           (utf8 "чай") 32%N (utf8 "с лимоном")).
  - reflexivity.
  - reflexivity.
Defined.

Lemma sanitize_idempotent_witness :
  sanitize_user_input (U := latin_cyrillic)
    (sanitize_user_input (U := latin_cyrillic) untidy 500) 500
  = sanitize_user_input (U := latin_cyrillic) untidy 500.
Proof.
  apply (sanitize_idempotent (U := latin_cyrillic) untidy 500). lia.
Defined.


Lemma listen_stops_at_limit_witness :
  (exists res,
     listen capture_config (Some 1%Q) (Returned tt) no_final_text
            five_silent_chunks = Done res)
  /\ listen capture_config (Some 1%Q) (Returned tt) no_final_text
            five_silent_chunks
     = listen capture_config (Some 1%Q) (Returned tt) no_final_text
              (firstn (Z.to_nat 4) five_silent_chunks).
Proof.
  apply (listen_stops_at_limit capture_config 1%Q (Returned tt) no_final_text
           five_silent_chunks 4).
  - reflexivity.
  - reflexivity.
  - lia.
  - simpl. lia.
Defined.


Lemma activation_has_cause_witness :
  (button_pressed both_methods = true
   \/ exists p, In p [quiet_poll (1 # 10); both_fire (2 # 10)]
                /\ p_button_callback p = true)
  /\ button_pressed
       (snd (fst (wait_for_activation true None 0
                    [quiet_poll (1 # 10); both_fire (2 # 10)]
                    both_methods))) = false.
Proof.
  apply (activation_has_cause true None 0
           [quiet_poll (1 # 10); both_fire (2 # 10)] both_methods act_button
           (snd (fst (wait_for_activation true None 0
                        [quiet_poll (1 # 10); both_fire (2 # 10)]
                        both_methods)))
           (snd (wait_for_activation true None 0
                   [quiet_poll (1 # 10); both_fire (2 # 10)] both_methods))).
  reflexivity.
Defined.

Lemma reminder_command_keeps_its_word_witness :
  exists t body message ev',
    parse_reminder_from_text (U := latin_cyrillic) ten_o_clock
      (utf8 "напомни через 10 минут")
    = Returned (Some t, body)
    /\ In 1087%N body
    /\ add_reminder None ten_o_clock body t empty_store
       = (message,
          snd (fst (add_reminder None ten_o_clock (utf8 "напомни")
                                 ten_past_ten empty_store)),
          ev')
    /\ snd (add_reminder None ten_o_clock (utf8 "напомни") ten_past_ten
                         empty_store)
       ++ [EvSpeak (MsgCreated ten_past_ten (utf8 "напомни"))]
       = ev' ++ [EvSpeak (snd message)].
Proof.
  destruct (reminder_command_keeps_its_word (U := latin_cyrillic) None
              ten_o_clock ten_o_clock (utf8 "напомни через 10 минут")
              empty_store
              (snd (fst (add_reminder None ten_o_clock (utf8 "напомни")
                                      ten_past_ten empty_store)))
              (snd (add_reminder None ten_o_clock (utf8 "напомни")
                                 ten_past_ten empty_store)
               ++ [EvSpeak (MsgCreated ten_past_ten (utf8 "напомни"))])
              eq_refl eq_refl eq_refl eq_refl) as [[H _]|H].
  - discriminate H.
  - exact H.
Defined.

Lemma processed_command_is_sanitized_witness :
  sanitize_user_input (U := latin_cyrillic) (utf8 "чай с лимоном") 500
  = utf8 "чай с лимоном".
Proof.
  destruct (main_loop (U := latin_cyrillic) capture_config (Some 10%Q)
              (heard untidy) assistant)
    as [[[r a'] acts]|] eqn:E.
  - refine (proj1 (proj2 (proj2 (proj2 (proj2
             (processed_command_is_sanitized (U := latin_cyrillic)
                capture_config (Some 10%Q) (heard untidy) assistant r a' acts
                (utf8 "чай с лимоном") E _)))))).
    vm_compute in E. injection E as _ _ <-. vm_compute. tauto.
  - vm_compute in E. discriminate E.
Defined.



Lemma calendar_event_well_formed_witness :
  exists summary start_datetime,
    handle_calendar_event (U := latin_cyrillic) switched_off ten_o_clock
                          ten_o_clock (utf8 "запланируй встречу")
    = (Returned tt,
       [CreateEvent summary start_datetime;
        Speak (snd (create_event switched_off summary start_datetime))])
    /\ summary <> []
    /\ instant start_datetime = instant ten_o_clock + 3600000000.
Proof.
  destruct (handle_calendar_event (U := latin_cyrillic) switched_off
              ten_o_clock ten_o_clock (utf8 "запланируй встречу"))
    as [r acts] eqn:E.
  assert (Er : r = Returned tt)
    by (vm_compute in E; now injection E as <- _).
  subst r.
  destruct (calendar_event_well_formed (U := latin_cyrillic) switched_off
              ten_o_clock ten_o_clock (utf8 "запланируй встречу") acts
              ltac:(discriminate) eq_refl eq_refl E)
    as [summary [start_datetime [-> [H1 [_ H2]]]]].
  exists summary, start_datetime. split; [reflexivity|]. split; [exact H1|].
  exact H2.
Defined.
